(** * Greaseweazle [tools/write.py]: writing an image to disk

    A shallow embedding of [write_from_image] and of the helpers around it.

    Python's [float] is IEEE-754 binary64.  It is modelled by the Standard
    Library's [spec_float] at precision 53 and maximal exponent 1024, whose
    operations round to nearest, ties to even, exactly as the hardware
    operations CPython calls.  Python's [int] is [Z]. *)

From Stdlib Require Import ZArith QArith Qabs Qpower List Bool String Ascii.
From Stdlib Require Import Lia Lqa.
From Stdlib Require Import SpecFloat DecimalString.
Import ListNotations.

Set Default Goal Selector "!".

(** ** Python exceptions *)

Inductive exn : Type :=
| OverflowError
| ValueError
| ZeroDivisionError
| IndexError
| AttributeError
| CmdError (code : Z)
| Fatal (desc : string).

(** A computation that either raises or returns. *)
Definition result (A : Type) : Type := (exn + A)%type.

Abbreviation ok := (@inr exn _).
Abbreviation raise := (@inl exn _).

Definition rbind {A B : Type} (m : result A) (k : A -> result B) : result B :=
  match m with
  | inl e => inl e
  | inr a => k a
  end.

Declare Scope result_scope.
Delimit Scope result_scope with result.
Notation "x <-? m ; k" := (rbind m (fun x => k))
  (at level 61, m at next level, right associativity) : result_scope.

(** ** Python floats *)

Module PyFloat.

Definition prec : Z := 53.
Definition emax : Z := 1024.

Definition float : Type := spec_float.

Definition mul : float -> float -> float := SFmul prec emax.
Definition add : float -> float -> float := SFadd prec emax.
Definition sub : float -> float -> float := SFsub prec emax.

Definition is_zero (x : float) : bool :=
  match x with
  | S754_zero _ => true
  | _ => false
  end.

(** [a / b] on floats: CPython raises on a zero divisor before dividing. *)
Definition truediv (a b : float) : result float :=
  if is_zero b then raise ZeroDivisionError else ok (SFdiv prec emax a b).

(** [float(z)]: the nearest double, ties to even; an [int] beyond the range
    of a double raises [OverflowError]. *)
Definition of_int (z : Z) : result float :=
  match binary_normalize prec emax z 0 false with
  | S754_infinity _ => raise OverflowError
  | f => ok f
  end.

(** An integer seen as an exact (not normalised) binary number, the operand
    form of the correctly rounded integer division below. *)
Definition exact_int (z : Z) : float :=
  match z with
  | Z0 => S754_zero false
  | Zpos p => S754_finite false p 0
  | Zneg p => S754_finite true p 0
  end.

(** [a / b] on two ints (true division): the correctly rounded quotient. *)
Definition int_truediv (a b : Z) : result float :=
  if (b =? 0)%Z then raise ZeroDivisionError
  else match SFdiv prec emax (exact_int a) (exact_int b) with
       | S754_infinity _ => raise OverflowError
       | f => ok f
       end.

(** A decimal literal [n/d] of the source text denotes the nearest double. *)
Definition literal (n d : Z) : float :=
  SFdiv prec emax (exact_int n) (exact_int d).

(** Round a positive binary number [m * 2^e] to the nearest integer, ties to
    even. *)
Definition round_half_even_pos (m : positive) (e : Z) : Z :=
  match e with
  | Zneg k =>
      let d := Z.pow_pos 2 k in
      let q := (Zpos m / d)%Z in
      let r := (Zpos m mod d)%Z in
      match (2 * r ?= d)%Z with
      | Lt => q
      | Gt => (q + 1)%Z
      | Eq => if Z.even q then q else (q + 1)%Z
      end
  | _ => (Zpos m * 2 ^ e)%Z
  end.

(** [round(y)] with one argument: an [int], ties to even; [ValueError] on a
    NaN and [OverflowError] on an infinity. *)
Definition round (y : float) : result Z :=
  match y with
  | S754_nan => raise ValueError
  | S754_infinity _ => raise OverflowError
  | S754_zero _ => ok 0%Z
  | S754_finite s m e =>
      ok (cond_Zopp s (round_half_even_pos m e))
  end.

(** The rational value of a finite float (0 for the others). *)
Definition to_Q (x : float) : Q :=
  match x with
  | S754_finite s m e =>
      match e with
      | Zneg k => Qmake (cond_Zopp s (Zpos m)) (Pos.pow 2 k)
      | _ => inject_Z (cond_Zopp s (Zpos m * 2 ^ e))
      end
  | _ => 0
  end.

Definition is_finite (x : float) : bool :=
  match x with
  | S754_finite _ _ _ | S754_zero _ => true
  | _ => false
  end.

End PyFloat.

Abbreviation float := PyFloat.float.

(** ** The rate converter (write.py, lines 76-82) *)

Open Scope Z_scope.
Open Scope result_scope.

(** One turn of the loop body: from [x] and the carried [rem] to the emitted
    [val] and the new [rem]. *)
Definition convert_step (factor rem : float) (x : Z) : result (Z * float) :=
  fx <-? PyFloat.of_int x ;
  let y := PyFloat.add (PyFloat.mul fx factor) rem in
  val <-? PyFloat.round y ;
  fval <-? PyFloat.of_int val ;
  ok (val, PyFloat.sub y fval).

(** The loop over [flux.list], [flux_list] growing by [append]. *)
Fixpoint convert_loop (factor rem : float) (xs : list Z) (flux_list : list Z)
  : result (list Z) :=
  match xs with
  | [] => ok flux_list
  | x :: xs' =>
      r <-? convert_step factor rem x ;
      convert_loop factor (snd r) xs' (flux_list ++ [fst r])
  end.

(** [rem = 0.0; flux_list = []; for x in flux.list: ...] *)
Definition rate_convert (factor : float) (xs : list Z) : result (list Z) :=
  convert_loop factor (S754_zero false) xs [].

(** *** The drift of the converter *)

Definition sum (l : list Z) : Z := fold_right Z.add 0 l.

(** After [k] samples: what was emitted, less what the exact scaling of the
    input by the factor comes to. *)
Definition drift (factor : float) (xs out : list Z) (k : nat) : Q :=
  (inject_Z (sum (firstn k out))
   - PyFloat.to_Q factor * inject_Z (sum (firstn k xs)))%Q.

Definition drift_below_one (factor : float) (xs out : list Z) : Prop :=
  forall k, (k <= List.length xs)%nat ->
            (Qabs (drift factor xs out k) < 1)%Q.

Definition positive_finite (x : float) : bool :=
  match x with
  | S754_finite false _ _ => true
  | _ => false
  end.

(** ** Console text *)

Definition chr (n : nat) : string := String (ascii_of_nat n) EmptyString.
Definition CR : string := chr 13.
Definition BS : string := chr 8.
Definition LF : string := chr 10.

(** [s * n] on a one-character string. *)
Fixpoint repeat_string (s : string) (n : nat) : string :=
  match n with
  | O => EmptyString
  | S n' => (s ++ repeat_string s n')%string
  end.

(** [%u] and [%d] of an [int]. *)
Definition decimal (z : Z) : string := NilZero.string_of_int (Z.to_int z).

(** ** The objects write.py works with *)

Record Args : Type := {
  scyl : Z;
  ecyl : Z;
  nr_sides : Z;
  double_step : bool;
  erase_empty : bool;
  no_verify : bool
}.

(** The class of flux captures lives in another module of the package.  It is
    taken as an interface: the attributes write.py reads ([index_list], [list],
    [terminate_at_index], [mean_index_time]) and the method it calls
    ([scale], which updates the object; here it returns the updated one). *)
Class FluxLike (Flux : Type) : Type := {
  index_list : Flux -> list Z;
  list' : Flux -> list Z;
  terminate_at_index : Flux -> bool;
  mean_index_time : Flux -> float;
  scale : Flux -> float -> Flux
}.

(** [l[i]] *)
Definition subscript {A : Type} (l : list A) (i : nat) : result A :=
  match nth_error l i with
  | Some a => ok a
  | None => raise IndexError
  end.

(** [range(lo, hi)] *)
Definition range (lo hi : Z) : list Z :=
  map (fun i => lo + Z.of_nat i) (seq 0 (Z.to_nat (hi - lo))).

(** Modelled from the spec: [error.check(pred, desc)] of the package's error
    module, which write.py calls after the retry loop.  A false predicate is a
    fatal error carrying the description; a true one returns. *)
Definition error_check (pred : bool) (desc : string) : result unit :=
  if pred then ok tt else raise (Fatal desc).

(** A reply of the device transport: done, or a command error. *)
Inductive reply (A : Type) : Type :=
| Done (a : A)
| Failed (code : Z).
Arguments Done {A} a.
Arguments Failed {A} code.

Definition reply_result {A : Type} (r : reply A) : result A :=
  match r with
  | Done a => ok a
  | Failed code => raise (CmdError code)
  end.

Section WriteFromImage.

Context {Flux : Type} `{FluxLike Flux}.

(** The [verify] attribute of a track: absent from the object, [None], or a
    verifier whose [verify_track] judges a capture. *)
Inductive verify_attr : Type :=
| VerifyUndefined
| VerifyNone
| Verifier (verify_track : Flux -> bool).

Record Track : Type := {
  flux_for_writeout : Flux;
  verify : verify_attr;
  splice : Z
}.

(** [track.verify] *)
Definition get_verify (track : Track) : result (option (Flux -> bool)) :=
  match verify track with
  | VerifyUndefined => raise AttributeError
  | VerifyNone => ok None
  | Verifier v => ok (Some v)
  end.

(** What the job does to its collaborators, in order. *)
Inductive event : Type :=
| EvGetTrack (cyl side : Z)
| EvReadTrack (revs : Z) (r : reply Flux)
| EvSeek (cyl side : Z) (r : reply unit)
| EvEraseTrack (ticks : float) (r : reply unit)
| EvWriteTrack (flux_list : list Z) (tai : bool) (r : reply unit)
| EvVerifyTrack (v_flux : Flux) (verified : bool).

(** The device: each reply may depend on everything that happened before. *)
Record Usb : Type := {
  usb_read_track : list event -> Z -> reply Flux;
  usb_seek : list event -> Z -> Z -> reply unit;
  usb_erase_track : list event -> float -> reply unit;
  usb_write_track : list event -> list Z -> bool -> reply unit
}.

(** The image: [get_track(cyl, side)] is a track or [None]. *)
Definition Image : Type := Z -> Z -> option Track.

(** *** Effects: the history read, the events and console text produced *)

#[projections(primitive)]
Record outcome (A : Type) : Type := {
  res : result A;
  evs : list event;
  out : string
}.
Arguments res {A} o.
Arguments evs {A} o.
Arguments out {A} o.
Arguments Build_outcome {A} res evs out.

Definition M (A : Type) : Type := list event -> outcome A.

Definition ret {A : Type} (a : A) : M A :=
  fun _ => Build_outcome (ok a) [] EmptyString.

Definition lift {A : Type} (r : result A) : M A :=
  fun _ => Build_outcome r [] EmptyString.

Definition bind {A B : Type} (m : M A) (k : A -> M B) : M B :=
  fun h =>
    let o := m h in
    match res o with
    | inl e => Build_outcome (inl e) (evs o) (out o)
    | inr a =>
        let o' := k a (h ++ evs o) in
        Build_outcome (res o') (evs o ++ evs o') (out o ++ out o')
    end.

Definition print (s : string) : M unit :=
  fun _ => Build_outcome (ok tt) [] s.

Definition call {A : Type} (r : list event -> reply A)
  (ev : reply A -> event) : M A :=
  fun h => Build_outcome (reply_result (r h)) [ev (r h)] EmptyString.

Declare Scope M_scope.
Delimit Scope M_scope with M.
Notation "x <- m ;; k" := (bind m (fun x => k))
  (at level 61, m at next level, right associativity) : M_scope.
Notation "m ;; k" := (bind m (fun _ => k))
  (at level 61, right associativity) : M_scope.
Open Scope M_scope.

(** A [for] loop whose body updates the loop-carried variables. *)
Fixpoint for_each {A S : Type} (xs : list A) (body : A -> S -> M S) (s : S)
  : M S :=
  match xs with
  | [] => ret s
  | x :: xs' => s' <- body x s ;; for_each xs' body s'
  end.

Variable usb : Usb.
Variable image : Image.
Variable args : Args.

Definition read_track (revs : Z) : M Flux :=
  call (fun h => usb_read_track usb h revs) (EvReadTrack revs).
Definition seek (cyl side : Z) : M unit :=
  call (fun h => usb_seek usb h cyl side) (EvSeek cyl side).
Definition erase_track (ticks : float) : M unit :=
  call (fun h => usb_erase_track usb h ticks) (EvEraseTrack ticks).
Definition write_track (flux_list : list Z) (tai : bool) : M unit :=
  call (fun h => usb_write_track usb h flux_list tai)
       (EvWriteTrack flux_list tai).
Definition get_track (cyl side : Z) : M (option Track) :=
  fun _ => Build_outcome (ok (image cyl side)) [EvGetTrack cyl side]
             EmptyString.
Definition verify_track (v : Flux -> bool) (v_flux : Flux) : M bool :=
  fun _ => Build_outcome (ok (v v_flux)) [EvVerifyTrack v_flux (v v_flux)]
             EmptyString.

(** *** class Formatter (lines 29-39): the state is [self.length] *)

Definition Formatter_erase (length : nat) : M nat :=
  print (repeat_string BS length ++ repeat_string " " length
         ++ repeat_string BS length)%string ;;
  ret O.

Definition Formatter_print (length : nat) (s : string) : M nat :=
  _ <- Formatter_erase length ;;
  print s ;;
  ret (String.length s).

(** *** write_from_image (lines 43-119) *)

(** Line 48: [(flux.index_list[0] + flux.index_list[1]) / 2]. *)
Definition drive_ticks_of (flux : Flux) : result float :=
  a <-? subscript (index_list flux) 0 ;
  b <-? subscript (index_list flux) 1 ;
  PyFloat.int_truediv (a + b) 2.

(** Lines 47-49. *)
Definition calibrate : M float :=
  flux <- read_track 2 ;;
  lift (drive_ticks_of flux).

(** Line 73: [drive_ticks / flux.index_list[0]]. *)
Definition rescale_factor (drive_ticks : float) (flux : Flux) : result float :=
  i <-? subscript (index_list flux) 0 ;
  fi <-? PyFloat.of_int i ;
  PyFloat.truediv drive_ticks fi.

(** Lines 73-82: the flux list handed to the device. *)
Definition writeout_list (drive_ticks : float) (flux : Flux)
  : result (list Z) :=
  factor <-? rescale_factor drive_ticks flux ;
  rate_convert factor (list' flux).

Definition try_except {A : Type} (body : result A) (handles : exn -> bool)
  (handler : result A) : result A :=
  match body with
  | inl e => if handles e then handler else inl e
  | inr a => inr a
  end.

Definition is_AttributeError (e : exn) : bool :=
  match e with
  | AttributeError => true
  | _ => false
  end.

(** Lines 89-92. *)
Definition compute_no_verify (track : Track) : result bool :=
  try_except
    (if no_verify args then ok true
     else (v <-? get_verify track ;
           ok (match v with None => true | Some _ => false end)))
    is_AttributeError
    (ok true).

(** The variables the retry loop carries. *)
Record loop_state : Type := {
  verified : bool;
  verified_count : Z;
  not_verified_count : Z;
  formatter : nat;
  broke : bool
}.

(** Lines 88-104: one turn of [for retry in range(3)].  [broke] records a
    [break]. *)
Definition attempt (track : Track) (flux : Flux) (flux_list : list Z)
  (retry : Z) (st : loop_state) : M loop_state :=
  write_track flux_list (terminate_at_index flux) ;;
  nv <- lift (compute_no_verify track) ;;
  if nv : bool then
    ret {| verified := true;
           verified_count := verified_count st;
           not_verified_count := not_verified_count st + 1;
           formatter := formatter st;
           broke := true |}
  else
    let v_revs := if splice track =? 0 then 1 else 2 in
    v_flux <- read_track v_revs ;;
    factor <- lift (PyFloat.truediv (mean_index_time flux)
                                    (mean_index_time v_flux)) ;;
    let v_flux := scale v_flux factor in
    v <- lift (o <-? get_verify track ;
               match o with
               | Some v => ok v
               | None => raise AttributeError
               end) ;;
    ver <- verify_track v v_flux ;;
    if ver : bool then
      ret {| verified := true;
             verified_count := verified_count st + 1;
             not_verified_count := not_verified_count st;
             formatter := formatter st;
             broke := true |}
    else
      len <- Formatter_print (formatter st)
               (" Retry " ++ decimal (retry + 1))%string ;;
      ret {| verified := false;
             verified_count := verified_count st;
             not_verified_count := not_verified_count st;
             formatter := len;
             broke := false |}.

(** The loop with its [break]. *)
Fixpoint retry_loop (track : Track) (flux : Flux) (flux_list : list Z)
  (retries : list Z) (st : loop_state) : M loop_state :=
  match retries with
  | [] => ret st
  | retry :: rest =>
      st' <- attempt track flux flux_list retry st ;;
      if broke st' then ret st'
      else retry_loop track flux flux_list rest st'
  end.

Definition counts : Type := (Z * Z)%type.

Definition failure_message (cyl side : Z) : string :=
  ("Failed to write Track " ++ decimal cyl ++ "." ++ decimal side)%string.

Definition progress_message (track : option Track) (cyl side : Z) : string :=
  (CR ++ (match track with Some _ => "Writ" | None => "Eras" end)
   ++ "ing Track " ++ decimal cyl ++ "." ++ decimal side ++ "...")%string.

(** Lines 69-106: a track the image has. *)
Definition write_and_verify (drive_ticks : float) (cyl side : Z)
  (track : Track) (c : counts) : M counts :=
  let flux := flux_for_writeout track in
  flux_list <- lift (writeout_list drive_ticks flux) ;;
  st <- retry_loop track flux flux_list (range 0 3)
          {| verified := false;
             verified_count := fst c;
             not_verified_count := snd c;
             formatter := O;
             broke := false |} ;;
  Formatter_erase (formatter st) ;;
  lift (error_check (verified st) (failure_message cyl side)) ;;
  ret (verified_count st, not_verified_count st).

(** Lines 56-106: the body of the two loops. *)
Definition process_track (drive_ticks : float) (cyl side : Z) (c : counts)
  : M counts :=
  track <- get_track cyl side ;;
  if match track with None => negb (erase_empty args) | Some _ => false end
  then ret c
  else
    print (progress_message track cyl side) ;;
    seek (if double_step args then cyl * 2 else cyl) side ;;
    match track with
    | None => erase_track (PyFloat.mul drive_ticks (PyFloat.literal 11 10)) ;;
              ret c
    | Some t => write_and_verify drive_ticks cyl side t c
    end.

(** Lines 109-119. *)
Definition summary (c : counts) : string :=
  if snd c =? 0 then "All tracks verified"
  else
    ((if (fst c =? 0)%Z then "No tracks verified "
      else decimal (fst c) ++ " tracks verified; " ++ decimal (snd c)
           ++ " tracks *not* verified ")
     ++ "(Reason: Verify "
     ++ (if no_verify args then "disabled" else "unavailable") ++ ")")%string.

(** Lines 53-106: the two loops. *)
Definition write_tracks (drive_ticks : float) (c : counts) : M counts :=
  for_each (range (scyl args) (ecyl args + 1))
    (fun cyl c =>
       for_each (range 0 (nr_sides args))
         (fun side c => process_track drive_ticks cyl side c) c) c.

Definition write_from_image : M counts :=
  drive_ticks <- calibrate ;;
  c <- write_tracks drive_ticks (0, 0) ;;
  print LF ;;
  print (summary c) ;;
  print LF ;;
  ret c.

End WriteFromImage.

Arguments verify_attr Flux : clear implicits.
Arguments Track Flux : clear implicits.
Arguments event Flux : clear implicits.
Arguments Usb Flux : clear implicits.
Arguments Image Flux : clear implicits.
Arguments outcome Flux A : clear implicits.
Arguments M Flux A : clear implicits.
Arguments res {Flux A} o.
Arguments evs {Flux A} o.
Arguments out {Flux A} o.
Arguments Build_outcome {Flux A} res evs out.
Arguments VerifyUndefined {Flux}.
Arguments VerifyNone {Flux}.
Arguments Verifier {Flux} verify_track.
Arguments EvGetTrack {Flux} cyl side.
Arguments EvReadTrack {Flux} revs r.
Arguments EvSeek {Flux} cyl side r.
Arguments EvEraseTrack {Flux} ticks r.
Arguments EvWriteTrack {Flux} flux_list tai r.
Arguments EvVerifyTrack {Flux} v_flux verified.

(** ** A concrete capture, for examples *)

(** Index list, interval list and flag as given; [scale] multiplies the
    recorded speed correction. *)
Record SimpleFlux : Type := {
  sf_index_list : list Z;
  sf_list : list Z;
  sf_terminate_at_index : bool;
  sf_mean_index_time : float;
  sf_scaled_by : list float
}.

#[export] Instance SimpleFlux_FluxLike : FluxLike SimpleFlux := {
  index_list := sf_index_list;
  list' := sf_list;
  terminate_at_index := sf_terminate_at_index;
  mean_index_time := sf_mean_index_time;
  scale := fun f factor =>
    {| sf_index_list := sf_index_list f;
       sf_list := sf_list f;
       sf_terminate_at_index := sf_terminate_at_index f;
       sf_mean_index_time := sf_mean_index_time f;
       sf_scaled_by := sf_scaled_by f ++ [factor] |}
}.

Module Example.

Definition capture (index : list Z) (samples : list Z) (mean : Z)
  : SimpleFlux :=
  {| sf_index_list := index;
     sf_list := samples;
     sf_terminate_at_index := true;
     sf_mean_index_time := PyFloat.literal mean 1;
     sf_scaled_by := [] |}.

(** What the drive of the examples captures. *)
Definition readback : SimpleFlux :=
  capture [199000; 201000] [100; 200; 300] 200000.

(** A drive turning once per 200000 ticks that accepts every command. *)
Definition steady_drive : Usb SimpleFlux :=
  {| usb_read_track := fun _ revs => Done readback;
     usb_seek := fun _ _ _ => Done tt;
     usb_erase_track := fun _ _ => Done tt;
     usb_write_track := fun _ _ _ => Done tt |}.

(** A verifier that accepts a capture scaled by exactly 0.3. *)
Definition accept_scaled (v : SimpleFlux) : bool :=
  match sf_scaled_by v with
  | [f] => SFeqb f (PyFloat.literal 3 10)
  | _ => false
  end.

Definition reject_all (v : SimpleFlux) : bool := false.

(** The capture the image holds for its one track. *)
Definition stored : SimpleFlux := capture [60000] [10; 20; 30] 60000.

Definition track_of (ver : verify_attr SimpleFlux) : Track SimpleFlux :=
  {| flux_for_writeout := stored;
     verify := ver;
     splice := 0 |}.

(** Cylinder 0 carries data on side 0 only. *)
Definition one_track (ver : verify_attr SimpleFlux) : Image SimpleFlux :=
  fun cyl side => if (cyl =? 0) && (side =? 0) then Some (track_of ver)
                  else None.

Definition args_of (e n : bool) : Args :=
  {| scyl := 0; ecyl := 0; nr_sides := 2; double_step := false;
     erase_empty := e; no_verify := n |}.

(** 200000.0, the calibration of [steady_drive]. *)
Definition ticks : float := PyFloat.literal 200000 1.

(** A drive that turns like [steady_drive] but refuses every write with
    code 7. *)
Definition protected_drive : Usb SimpleFlux :=
  {| usb_read_track := fun _ revs => Done readback;
     usb_seek := fun _ _ _ => Done tt;
     usb_erase_track := fun _ _ => Done tt;
     usb_write_track := fun _ _ _ => Failed 7 |}.

(** An image whose one track carries a capture with a first index time
    of 0. *)
Definition unindexed : Image SimpleFlux :=
  fun cyl side =>
    if (cyl =? 0) && (side =? 0)
    then Some {| flux_for_writeout := capture [0] [10; 20; 30] 60000;
                 verify := VerifyNone;
                 splice := 0 |}
    else None.

End Example.

(** ** Reading traces *)

Section Traces.

Context {Flux : Type}.

Definition is_get_track (e : event Flux) : bool :=
  match e with EvGetTrack _ _ => true | _ => false end.
Definition is_read (e : event Flux) : bool :=
  match e with EvReadTrack _ _ => true | _ => false end.
Definition is_erase (e : event Flux) : bool :=
  match e with EvEraseTrack _ _ => true | _ => false end.
Definition is_write (e : event Flux) : bool :=
  match e with EvWriteTrack _ _ _ => true | _ => false end.
Definition is_verify (e : event Flux) : bool :=
  match e with EvVerifyTrack _ _ => true | _ => false end.
Definition is_failed_verify (e : event Flux) : bool :=
  match e with EvVerifyTrack _ false => true | _ => false end.

(** How many events of a kind a trace holds. *)
Definition count (p : event Flux -> bool) (tr : list (event Flux)) : nat :=
  List.length (filter p tr).

(** Each event with the position of the latest [get_track] before it. *)
Fixpoint annotate (cur : option (Z * Z)) (tr : list (event Flux))
  : list (option (Z * Z) * event Flux) :=
  match tr with
  | [] => []
  | EvGetTrack c s :: tr' =>
      (Some (c, s), EvGetTrack c s) :: annotate (Some (c, s)) tr'
  | e :: tr' => (cur, e) :: annotate cur tr'
  end.

(** The positions the trace asked the image for, in order. *)
Definition fetched (tr : list (event Flux)) : list (Z * Z) :=
  flat_map (fun e => match e with
                     | EvGetTrack c s => [(c, s)]
                     | _ => []
                     end) tr.

(** The error code of a command the device refused. *)
Definition failed_code (e : event Flux) : option Z :=
  match e with
  | EvReadTrack _ (Failed code)
  | EvSeek _ _ (Failed code)
  | EvEraseTrack _ (Failed code)
  | EvWriteTrack _ _ (Failed code) => Some code
  | _ => None
  end.

Definition is_passed_verify (e : event Flux) : bool :=
  match e with EvVerifyTrack _ true => true | _ => false end.

(** Every read in the trace comes straight after a write the device
    accepted. *)
Fixpoint reads_follow_writes (after_write : bool) (tr : list (event Flux))
  : bool :=
  match tr with
  | [] => true
  | e :: tr' =>
      (if is_read e then after_write else true)
      && reads_follow_writes
           (match e with EvWriteTrack _ _ (Done _) => true | _ => false end)
           tr'
  end.


End Traces.

(** ** Vocabulary for the facts about rounding *)

(** What a shift register holds after [k] right shifts of the number whose
    double is [V]: the bits kept, the bit just shifted out and whether any
    lower bit was set. *)
Definition shr_inv (V k : Z) (mrs : shr_record) : Prop :=
  exists low,
    0 <= shr_m mrs
    /\ V = (2 * shr_m mrs + Z.b2z (shr_r mrs)) * 2 ^ k + low
    /\ 0 <= low < 2 ^ k
    /\ (shr_s mrs = true <-> 0 < low).

(** Zero, or a mantissa of the full 53 bits. *)
Definition normal_or_zero (x : float) : Prop :=
  match x with
  | S754_zero _ => True
  | S754_finite _ m _ => Zpos (digits2_pos m) = 53
  | _ => False
  end.

(** The sum of the magnitudes of the intervals. *)
Definition abs_sum (xs : list Z) : Z := sum (map Z.abs xs).

(** The unit roundoff of a double, [2^-53]. *)
Definition u : Q := 1 # 9007199254740992.

(** [2^e] as a rational. *)
Definition pow2 (e : Z) : Q := Qpower 2 e.

(** ** Vocabulary for the facts about the job *)

Section JobVocabulary.

Context {Flux : Type} `{FluxLike Flux}.
Variable usb : Usb Flux.
Variable args : Args.

Definition after_no_verify (st : loop_state) : loop_state :=
  {| verified := true;
     verified_count := verified_count st;
     not_verified_count := not_verified_count st + 1;
     formatter := formatter st;
     broke := true |}.

Definition after_match (st : loop_state) : loop_state :=
  {| verified := true;
     verified_count := verified_count st + 1;
     not_verified_count := not_verified_count st;
     formatter := formatter st;
     broke := true |}.

Definition retry_text (retry : Z) : string :=
  (" Retry " ++ decimal (retry + 1))%string.

Definition after_mismatch (retry : Z) (st : loop_state) : loop_state :=
  {| verified := false;
     verified_count := verified_count st;
     not_verified_count := not_verified_count st;
     formatter := String.length (retry_text retry);
     broke := false |}.

Definition initial_state (c : counts) : loop_state :=
  {| verified := false;
     verified_count := fst c;
     not_verified_count := snd c;
     formatter := O;
     broke := false |}.

Definition erase_text (length : nat) : string :=
  (repeat_string BS length ++ repeat_string " " length
   ++ repeat_string BS length)%string.

(** A text followed by what takes it off the line again. *)
Definition wiped (s : string) : string :=
  (s ++ erase_text (String.length s))%string.

Fixpoint join (l : list string) : string :=
  match l with
  | [] => EmptyString
  | s :: l' => (s ++ join l')%string
  end.

(** The cylinder the head is sent to for image cylinder [cyl]. *)
Definition target_cyl (cyl : Z) : Z :=
  if double_step args then cyl * 2 else cyl.

(** The length of the erase pulse. *)
Definition erase_ticks (drive_ticks : float) : float :=
  PyFloat.mul drive_ticks (PyFloat.literal 11 10).

Definition v_revs_of (track : Track Flux) : Z :=
  if splice track =? 0 then 1 else 2.

(** The track cannot be verified: by option, or for want of a verifier. *)
Definition unverifiable (track : Track Flux) : Prop :=
  no_verify args = true \/ verify track = VerifyNone
  \/ verify track = VerifyUndefined.

Inductive attempt_case (track : Track Flux) (flux : Flux) (l : list Z)
  (retry : Z) (st : loop_state) (h : list (event Flux))
  : outcome Flux loop_state -> Prop :=
| AC_write_failed code o :
    usb_write_track usb h l (terminate_at_index flux) = Failed code ->
    res o = inl (CmdError code) ->
    evs o = [EvWriteTrack l (terminate_at_index flux) (Failed code)] ->
    out o = EmptyString ->
    attempt_case track flux l retry st h o
| AC_no_verify o :
    usb_write_track usb h l (terminate_at_index flux) = Done tt ->
    unverifiable track ->
    res o = ok (after_no_verify st) ->
    evs o = [EvWriteTrack l (terminate_at_index flux) (Done tt)] ->
    out o = EmptyString ->
    attempt_case track flux l retry st h o
| AC_read_failed vt code o :
    no_verify args = false -> verify track = Verifier vt ->
    usb_read_track usb
      (h ++ [EvWriteTrack l (terminate_at_index flux) (Done tt)])
      (v_revs_of track) = Failed code ->
    res o = inl (CmdError code) ->
    evs o = [EvWriteTrack l (terminate_at_index flux) (Done tt);
             EvReadTrack (v_revs_of track) (Failed code)] ->
    out o = EmptyString ->
    attempt_case track flux l retry st h o
| AC_scale_failed vt v o :
    no_verify args = false -> verify track = Verifier vt ->
    PyFloat.is_zero (mean_index_time v) = true ->
    res o = inl ZeroDivisionError ->
    evs o = [EvWriteTrack l (terminate_at_index flux) (Done tt);
             EvReadTrack (v_revs_of track) (Done v)] ->
    out o = EmptyString ->
    attempt_case track flux l retry st h o
| AC_match vt v f o :
    no_verify args = false -> verify track = Verifier vt ->
    usb_read_track usb
      (h ++ [EvWriteTrack l (terminate_at_index flux) (Done tt)])
      (v_revs_of track) = Done v ->
    PyFloat.truediv (mean_index_time flux) (mean_index_time v) = ok f ->
    vt (scale v f) = true ->
    res o = ok (after_match st) ->
    evs o = [EvWriteTrack l (terminate_at_index flux) (Done tt);
             EvReadTrack (v_revs_of track) (Done v);
             EvVerifyTrack (scale v f) true] ->
    out o = EmptyString ->
    attempt_case track flux l retry st h o
| AC_mismatch vt v f o :
    no_verify args = false -> verify track = Verifier vt ->
    usb_read_track usb
      (h ++ [EvWriteTrack l (terminate_at_index flux) (Done tt)])
      (v_revs_of track) = Done v ->
    PyFloat.truediv (mean_index_time flux) (mean_index_time v) = ok f ->
    vt (scale v f) = false ->
    res o = ok (after_mismatch retry st) ->
    evs o = [EvWriteTrack l (terminate_at_index flux) (Done tt);
             EvReadTrack (v_revs_of track) (Done v);
             EvVerifyTrack (scale v f) false] ->
    attempt_case track flux l retry st h o.

(** What the retry loop of a track may do to its collaborators. *)
Definition loop_event_ok (track : Track Flux) (flux : Flux) (l : list Z)
  (e : event Flux) : Prop :=
  match e with
  | EvWriteTrack l' tai _ => l' = l /\ tai = terminate_at_index flux
  | EvReadTrack revs _ =>
      revs = v_revs_of track /\ no_verify args = false
      /\ exists vt, verify track = Verifier vt
  | EvVerifyTrack x b =>
      no_verify args = false
      /\ exists vt, verify track = Verifier vt /\ b = vt x
  | _ => False
  end.

Variable image : Image Flux.

(** What the processing of position [(cyl, side)] may do to its
    collaborators, with [drive_ticks] as calibrated. *)
Definition track_event_ok (drive_ticks : float) (cyl side : Z)
  (e : event Flux) : Prop :=
  match e with
  | EvGetTrack c s => c = cyl /\ s = side
  | EvSeek c s _ =>
      c = target_cyl cyl /\ s = side
      /\ (image cyl side = None -> erase_empty args = true)
  | EvEraseTrack d _ =>
      image cyl side = None /\ erase_empty args = true
      /\ d = erase_ticks drive_ticks
  | EvWriteTrack l tai _ =>
      exists t, image cyl side = Some t
        /\ writeout_list drive_ticks (flux_for_writeout t) = ok l
        /\ tai = terminate_at_index (flux_for_writeout t)
  | EvReadTrack revs _ =>
      exists t, image cyl side = Some t
        /\ revs = v_revs_of t
        /\ no_verify args = false
        /\ exists vt, verify t = Verifier vt
  | EvVerifyTrack x b =>
      exists t vt, image cyl side = Some t
        /\ no_verify args = false
        /\ verify t = Verifier vt
        /\ b = vt x
  end.

(** The positions the two loops visit, in order. *)
Definition positions : list (Z * Z) :=
  flat_map (fun cyl => map (pair cyl) (range 0 (nr_sides args)))
    (range (scyl args) (ecyl args + 1)).

(** Whether the image holds a track the job can verify at a position, and
    whether it holds one it cannot. *)
Definition verifiable_at (p : Z * Z) : bool :=
  match image (fst p) (snd p) with
  | Some t => negb (no_verify args)
              && match verify t with Verifier _ => true | _ => false end
  | None => false
  end.

Definition unverifiable_at (p : Z * Z) : bool :=
  match image (fst p) (snd p) with
  | Some t => no_verify args
              || match verify t with Verifier _ => false | _ => true end
  | None => false
  end.

(** A computation in which a refused command is the last thing that happens,
    and is what the computation raises. *)
Definition fails_last {A : Type} (o : outcome Flux A) : Prop :=
  forall pre e post code,
    evs o = pre ++ e :: post ->
    failed_code e = Some code ->
    post = [] /\ res o = inl (CmdError code).

(** What a computation of the job may raise: a refusal of the device, right
    after the event that records it; a failure of the arithmetic or of a
    subscript; or the fatal error of a track that did not verify.  Never an
    [AttributeError]. *)
Definition raises_only_expected {A : Type} (o : outcome Flux A) : Prop :=
  forall e, res o = inl e ->
    match e with
    | CmdError code =>
        exists pre ev, evs o = pre ++ [ev] /\ failed_code ev = Some code
    | Fatal desc => exists cyl side, desc = failure_message cyl side
    | AttributeError => False
    | _ => True
    end.

(** The counts a computation returns agree with its trace: a track counts
    as verified for each verification that passed, as not verified for each
    write no verification followed, and rejected verifications are at most
    two for each one that passed. *)
Definition tallied (c : counts) (o : outcome Flux counts) : Prop :=
  forall c', res o = ok c' ->
    fst c' = fst c + Z.of_nat (count is_passed_verify (evs o))
    /\ snd c' = snd c + Z.of_nat (count is_write (evs o))
                - Z.of_nat (count is_verify (evs o))
    /\ (count is_failed_verify (evs o)
        <= 2 * count is_passed_verify (evs o))%nat.

(** A stretch of trace in which every event belongs to a position fetched
    within the stretch, and satisfies [Q] at that position. *)
Definition by_position (Q : Z -> Z -> event Flux -> Prop)
  (tr : list (event Flux)) : Prop :=
  forall cur,
    Forall (fun pe => exists c s, fst pe = Some (c, s) /\ Q c s (snd pe))
      (annotate cur tr).

(** No track sees more than [n] writes. *)
Fixpoint writes_per_track_le (n : nat) (seen : nat) (tr : list (event Flux))
  : bool :=
  match tr with
  | [] => true
  | EvGetTrack _ _ :: tr' => writes_per_track_le n O tr'
  | EvWriteTrack _ _ _ :: tr' =>
      (seen <? n)%nat && writes_per_track_le n (S seen) tr'
  | _ :: tr' => writes_per_track_le n seen tr'
  end.

End JobVocabulary.

#[global] Arguments PyFloat.literal : simpl never.
#[global] Arguments PyFloat.int_truediv : simpl never.
#[global] Arguments PyFloat.of_int : simpl never.
#[global] Arguments PyFloat.round : simpl never.
#[global] Arguments PyFloat.add : simpl never.
#[global] Arguments PyFloat.sub : simpl never.
#[global] Arguments rate_convert : simpl never.
#[global] Arguments PyFloat.mul : simpl never.
#[global] Arguments PyFloat.truediv : simpl never.
#[global] Arguments progress_message : simpl never.
#[global] Arguments failure_message : simpl never.
#[global] Arguments erase_text : simpl never.
#[global] Arguments erase_ticks : simpl never.
#[global] Arguments target_cyl : simpl never.
#[global] Arguments decimal : simpl never.
#[global] Arguments writeout_list : simpl never.
#[global] Arguments write_and_verify : simpl never.
#[global] Arguments process_track : simpl never.
(** * Facts *)

(** ** Strings *)

Lemma append_nil_r (s : string) : (s ++ "")%string = s.
Proof. induction s as [|a s IH]; simpl; [reflexivity|]. now rewrite IH. Qed.

Lemma append_assoc (s1 s2 s3 : string) :
  ((s1 ++ s2) ++ s3)%string = (s1 ++ (s2 ++ s3))%string.
Proof. induction s1 as [|a s IH]; simpl; [reflexivity|]. now rewrite IH. Qed.

Lemma length_append (s1 s2 : string) :
  String.length (s1 ++ s2) = (String.length s1 + String.length s2)%nat.
Proof. induction s1 as [|a s IH]; simpl; [reflexivity|]. now rewrite IH. Qed.

(** ** Traces *)

Section TraceFacts.

Context {Flux : Type}.

Lemma count_app p (a b : list (event Flux)) :
  count p (a ++ b) = (count p a + count p b)%nat.
Proof. unfold count. now rewrite filter_app, length_app. Qed.

Lemma count_zero_iff p (tr : list (event Flux)) :
  count p tr = O <-> Forall (fun e => p e = false) tr.
Proof.
  unfold count. induction tr as [|e tr IH]; simpl.
  - split; auto.
  - destruct (p e) eqn:E; simpl.
    + split; [discriminate|]. intros F. inversion F; congruence.
    + rewrite IH. split; [now constructor|]. intros F. now inversion F.
Qed.

Lemma annotate_no_get_track cur (tr : list (event Flux)) :
  Forall (fun e => is_get_track e = false) tr ->
  annotate cur tr = map (fun e => (cur, e)) tr.
Proof.
  induction 1 as [|e tr He _ IH]; simpl; [reflexivity|].
  destruct e; simpl in *; try discriminate; now rewrite IH.
Qed.

Lemma annotate_app_get_track cur (a b : list (event Flux)) c s :
  annotate cur (a ++ EvGetTrack c s :: b)
  = annotate cur a ++ annotate None (EvGetTrack c s :: b).
Proof.
  revert cur. induction a as [|e a IH]; intros cur; simpl; [reflexivity|].
  destruct e; simpl; now rewrite IH.
Qed.

Lemma annotate_app cur (a b : list (event Flux)) :
  exists cur', annotate cur (a ++ b) = annotate cur a ++ annotate cur' b.
Proof.
  revert cur. induction a as [|e a IH]; intros cur; simpl.
  - now exists cur.
  - destruct e;
      match goal with
      | |- context [annotate ?c (a ++ b)] =>
          destruct (IH c) as [cur' ->]; now exists cur'
      end.
Qed.

Lemma reads_follow_writes_app b (a c : list (event Flux)) :
  reads_follow_writes b a = true ->
  (forall b', reads_follow_writes b' c = true) ->
  reads_follow_writes b (a ++ c) = true.
Proof.
  revert b. induction a as [|e a IH]; intros b Ha Hc; simpl in *; [auto|].
  apply andb_true_iff in Ha as [-> Ha]. simpl. auto.
Qed.

Lemma count_le_app_l p (a b : list (event Flux)) :
  (count p a <= count p (a ++ b))%nat.
Proof. rewrite count_app. lia. Qed.

(** A stretch that holds every [p]-event of a trace ending in a [p]-event is
    the whole trace. *)
Lemma count_all_then_whole p (seg post pre : list (event Flux)) e :
  seg ++ post = pre ++ [e] ->
  p e = true ->
  count p seg = count p (seg ++ post) ->
  post = [].
Proof.
  intros E Pe C. destruct post as [|x post] using rev_ind; [reflexivity|].
  clear IHpost. rewrite app_assoc in E.
  apply app_inj_tail in E as [_ ->].
  rewrite app_assoc, !count_app in C. unfold count at 4 in C.
  cbn in C. rewrite Pe in C. cbn in C. lia.
Qed.

Lemma split_after_no_get_track (tl b pre rest : list (event Flux)) g :
  Forall (fun e => is_get_track e = false) tl ->
  is_get_track g = true ->
  tl ++ b = pre ++ g :: rest ->
  exists pre', pre = tl ++ pre' /\ b = pre' ++ g :: rest.
Proof.
  intros F G. revert pre. induction F as [|x tl Hx _ IH]; intros pre E.
  - exists pre. auto.
  - destruct pre as [|y pre]; cbn in E; injection E as -> E.
    + congruence.
    + destruct (IH _ E) as (pre' & -> & ->). exists pre'. auto.
Qed.

Lemma prefix_no_get_track (seg post tl b : list (event Flux)) :
  Forall (fun e => is_get_track e = false) seg ->
  (b = [] \/ exists c s b', b = EvGetTrack c s :: b') ->
  tl ++ b = seg ++ post ->
  exists post', tl = seg ++ post'.
Proof.
  intros F B. revert tl. induction F as [|x seg Hx _ IH]; intros tl E.
  - exists tl. reflexivity.
  - destruct tl as [|y tl]; cbn in E.
    + destruct B as [->|(c & s & b' & ->)]; [discriminate|].
      injection E as <- _. discriminate.
    + injection E as -> E. destruct (IH _ E) as (post' & ->).
      exists post'. reflexivity.
Qed.

End TraceFacts.

(** ** What the arithmetic can raise *)

Lemma of_int_raises z e :
  PyFloat.of_int z = inl e -> e = OverflowError.
Proof.
  unfold PyFloat.of_int.
  destruct (binary_normalize _ _ _ _ _); congruence.
Qed.

Lemma round_raises y e :
  PyFloat.round y = inl e -> e = OverflowError \/ e = ValueError.
Proof.
  destruct y; cbn; intros [= <-]; auto.
Qed.

Lemma convert_step_raises factor rem x e :
  convert_step factor rem x = inl e -> e = OverflowError \/ e = ValueError.
Proof.
  unfold convert_step.
  destruct (PyFloat.of_int x) as [e1|fx] eqn:E1; cbn [rbind].
  { intros [= <-]. left. eapply of_int_raises; eauto. }
  destruct (PyFloat.round _) as [e2|val] eqn:E2; cbn [rbind].
  { intros [= <-]. eapply round_raises; eauto. }
  destruct (PyFloat.of_int val) as [e3|fval] eqn:E3; cbn [rbind].
  { intros [= <-]. left. eapply of_int_raises; eauto. }
  discriminate.
Qed.

Lemma convert_loop_raises factor xs : forall rem acc e,
  convert_loop factor rem xs acc = inl e ->
  e = OverflowError \/ e = ValueError.
Proof.
  induction xs as [|x xs IH]; intros rem acc e; cbn [convert_loop].
  - discriminate.
  - destruct (convert_step factor rem x) as [e1|r] eqn:E1; cbn [rbind].
    + intros [= <-]. eapply convert_step_raises; eauto.
    + apply IH.
Qed.

Lemma rate_convert_raises factor xs e :
  rate_convert factor xs = inl e -> e = OverflowError \/ e = ValueError.
Proof. apply convert_loop_raises. Qed.

Lemma truediv_raises a b e :
  PyFloat.truediv a b = inl e -> e = ZeroDivisionError.
Proof.
  unfold PyFloat.truediv. destruct (PyFloat.is_zero b); congruence.
Qed.

Lemma writeout_list_raises {Flux} `{FluxLike Flux} dt (flux : Flux) e :
  writeout_list dt flux = inl e ->
  e = IndexError \/ e = OverflowError \/ e = ZeroDivisionError
  \/ e = ValueError.
Proof.
  unfold writeout_list, rescale_factor, subscript.
  destruct (nth_error (index_list flux) 0) as [i|]; cbn [rbind];
    [|intros [= <-]; auto].
  destruct (PyFloat.of_int i) as [e1|fi] eqn:E1; cbn [rbind].
  { intros [= <-]. apply of_int_raises in E1. auto. }
  destruct (PyFloat.truediv dt fi) as [e2|factor] eqn:E2; cbn [rbind].
  { intros [= <-]. apply truediv_raises in E2. auto. }
  intros R. apply rate_convert_raises in R. tauto.
Qed.

Section JobFacts.

Context {Flux : Type} `{FluxLike Flux}.
Variable usb : Usb Flux.
Variable image : Image Flux.
Variable args : Args.

(** *** The monad *)
Lemma bind_raise {A B} (m : M Flux A) (k : A -> M Flux B) h e :
  res (m h) = inl e ->
  bind m k h = Build_outcome (inl e) (evs (m h)) (out (m h)).
Proof. intros E. unfold bind. now rewrite E. Qed.

Lemma bind_ok {A B} (m : M Flux A) (k : A -> M Flux B) h a :
  res (m h) = inr a ->
  bind m k h
  = Build_outcome (res (k a (h ++ evs (m h))))
      (evs (m h) ++ evs (k a (h ++ evs (m h))))
      (out (m h) ++ out (k a (h ++ evs (m h)))).
Proof. intros E. unfold bind. now rewrite E. Qed.

Lemma bind_ret {A B} (a : A) (k : A -> M Flux B) h :
  bind (ret a) k h = k a h.
Proof. unfold bind, ret. simpl. now rewrite app_nil_r. Qed.

Lemma bind_lift {A B} (r : result A) (k : A -> M Flux B) h :
  bind (lift r) k h
  = match r with
    | inl e => Build_outcome (inl e) [] EmptyString
    | inr a => k a h
    end.
Proof. unfold bind, lift. simpl. destruct r; [reflexivity|]. now rewrite app_nil_r. Qed.

Lemma bind_print {B} (s : string) (k : unit -> M Flux B) h :
  bind (print s) k h
  = Build_outcome (res (k tt h)) (evs (k tt h)) (s ++ out (k tt h)).
Proof. unfold bind, print. simpl. now rewrite app_nil_r. Qed.

Lemma bind_call {A B} (r : list (event Flux) -> reply A) ev
  (k : A -> M Flux B) h :
  bind (call r ev) k h
  = match r h with
    | Failed code =>
        Build_outcome (inl (CmdError code)) [ev (Failed code)] EmptyString
    | Done a =>
        Build_outcome (res (k a (h ++ [ev (Done a)])))
          (ev (Done a) :: evs (k a (h ++ [ev (Done a)])))
          (out (k a (h ++ [ev (Done a)])))
    end.
Proof. unfold bind, call. simpl. destruct (r h); reflexivity. Qed.

Lemma compute_no_verify_value (track : Track Flux) :
  compute_no_verify args track
  = ok (no_verify args
        || match verify track with Verifier _ => false | _ => true end).
Proof.
  unfold compute_no_verify, get_verify.
  destruct (no_verify args); simpl; [reflexivity|].
  destruct (verify track); reflexivity.
Qed.

Lemma attempt_cases track flux l retry st h :
  attempt_case usb args track flux l retry st h
    (attempt usb args track flux l retry st h).
Proof.
  unfold attempt, write_track. rewrite bind_call.
  destruct (usb_write_track usb h l (terminate_at_index flux)) as [[]|code]
    eqn:W.
  2:{ eapply AC_write_failed; eauto. }
  rewrite bind_lift, compute_no_verify_value. simpl.
  destruct (no_verify args) eqn:NV; simpl.
  { eapply AC_no_verify; unfold unverifiable; eauto. }
  destruct (verify track) as [| |vt] eqn:V; simpl.
  1,2: eapply AC_no_verify; unfold unverifiable; eauto.
  fold (v_revs_of track).
  unfold read_track. rewrite bind_call.
  destruct (usb_read_track usb _ (v_revs_of track)) as [v|code] eqn:R; simpl.
  2:{ eapply AC_read_failed; eauto. }
  rewrite bind_lift.
  destruct (PyFloat.truediv (mean_index_time flux) (mean_index_time v))
    as [e|f] eqn:T.
  { unfold PyFloat.truediv in T.
    destruct (PyFloat.is_zero (mean_index_time v)) eqn:Z; [|discriminate].
    injection T as <-. eapply AC_scale_failed; eauto. }
  rewrite bind_lift. unfold get_verify. rewrite V. simpl.
  unfold bind at 1, verify_track. simpl.
  destruct (vt (scale v f)) eqn:VT; simpl.
  - eapply AC_match; eauto.
  - eapply AC_mismatch; eauto.
Qed.

(** *** The retry loop *)

Lemma retry_loop_cons track flux l retry rest st h :
  retry_loop usb args track flux l (retry :: rest) st h
  = let o := attempt usb args track flux l retry st h in
    match res o with
    | inl e => Build_outcome (inl e) (evs o) (out o)
    | inr st' =>
        if broke st' then Build_outcome (ok st') (evs o) (out o)
        else
          let o' := retry_loop usb args track flux l rest st' (h ++ evs o) in
          Build_outcome (res o') (evs o ++ evs o') (out o ++ out o')
    end.
Proof.
  simpl. unfold bind at 1.
  destruct (res (attempt usb args track flux l retry st h)) as [e|st'];
    [reflexivity|].
  destruct (broke st'); [|reflexivity].
  unfold ret. simpl. now rewrite app_nil_r, append_nil_r.
Qed.

(** Case analysis on the first turn of a non-empty retry loop. *)
Ltac first_turn track flux l retry st h :=
  rewrite retry_loop_cons;
  let AC := fresh "AC" in
  pose proof (attempt_cases track flux l retry st h) as AC;
  cbv zeta;
  destruct AC as [code o W R E O | o W NV R E O | vt code o NV V RD R E O
                 | vt v o NV V Z R E O | vt v f o NV V RD T VT R E O
                 | vt v f o NV V RD T VT R E];
  rewrite R;
  cbn [broke after_no_verify after_match after_mismatch res evs out];
  rewrite ?E.

Lemma retry_loop_writes track flux l retries st h :
  (count is_write
     (evs (retry_loop usb args track flux l retries st h))
   <= List.length retries)%nat.
Proof.
  revert st h. induction retries as [|retry rest IH]; intros st h.
  - cbn. lia.
  - first_turn track flux l retry st h; try (cbn; lia).
    rewrite count_app. specialize (IH (after_mismatch retry st)
      (h ++ [EvWriteTrack l (terminate_at_index flux) (Done tt);
             EvReadTrack (v_revs_of track) (Done v);
             EvVerifyTrack (scale v f) false])).
    cbn in *. lia.
Qed.

Lemma retry_loop_events track flux l retries st h :
  Forall (loop_event_ok args track flux l)
    (evs (retry_loop usb args track flux l retries st h)).
Proof.
  revert st h. induction retries as [|retry rest IH]; intros st h.
  - cbn. constructor.
  - first_turn track flux l retry st h;
      repeat (try apply Forall_app; try split; try apply IH;
              try constructor; cbn; eauto).
Qed.

Lemma retry_loop_reads_follow_writes track flux l retries st h b :
  reads_follow_writes b
    (evs (retry_loop usb args track flux l retries st h)) = true.
Proof.
  revert st h b. induction retries as [|retry rest IH]; intros st h b.
  - reflexivity.
  - first_turn track flux l retry st h; try reflexivity.
    cbn. apply IH.
Qed.

(** A loop that ends unverified has used every turn on a mismatch. *)
Lemma retry_loop_unverified track flux l retries st h st' :
  res (retry_loop usb args track flux l retries st h) = ok st' ->
  verified st' = false ->
  verified_count st' = verified_count st
  /\ not_verified_count st' = not_verified_count st
  /\ count is_failed_verify
       (evs (retry_loop usb args track flux l retries st h))
     = List.length retries
  /\ count is_write
       (evs (retry_loop usb args track flux l retries st h))
     = List.length retries.
Proof.
  revert st h. induction retries as [|retry rest IH]; intros st h.
  - cbn. intros [= <-] _. auto.
  - first_turn track flux l retry st h; intros R' V'; try discriminate;
      try (injection R' as <-; discriminate).
    apply IH in R'; [|assumption]. cbn in R'.
    rewrite !count_app. cbn. intuition lia.
Qed.

Lemma retry_loop_failed_verifies track flux l retries st h :
  (count is_failed_verify
     (evs (retry_loop usb args track flux l retries st h))
   <= List.length retries)%nat.
Proof.
  revert st h. induction retries as [|retry rest IH]; intros st h.
  - cbn. lia.
  - first_turn track flux l retry st h; try (cbn; lia).
    rewrite count_app. specialize (IH (after_mismatch retry st)
      (h ++ [EvWriteTrack l (terminate_at_index flux) (Done tt);
             EvReadTrack (v_revs_of track) (Done v);
             EvVerifyTrack (scale v f) false])).
    cbn in *. lia.
Qed.

(** Mismatches on every turn leave the loop unverified. *)
Lemma retry_loop_all_mismatch track flux l retries st h :
  verified st = false ->
  count is_failed_verify
    (evs (retry_loop usb args track flux l retries st h))
  = List.length retries ->
  exists st',
    res (retry_loop usb args track flux l retries st h) = ok st'
    /\ verified st' = false.
Proof.
  revert st h. induction retries as [|retry rest IH]; intros st h V0.
  - cbn. eauto.
  - first_turn track flux l retry st h; try (cbn; discriminate).
    rewrite count_app. cbn. intros C. apply IH; [reflexivity|].
    cbn in C. lia.
Qed.

(** The loop raises only what the device or the scale division raised. *)
Lemma retry_loop_raises track flux l retries st h e :
  res (retry_loop usb args track flux l retries st h) = inl e ->
  (exists code, e = CmdError code) \/ e = ZeroDivisionError.
Proof.
  revert st h. induction retries as [|retry rest IH]; intros st h.
  - cbn. discriminate.
  - first_turn track flux l retry st h; try (intros [= <-]; eauto);
      try discriminate.
    apply IH.
Qed.

(** A loop that ends verified counted the track once, on the side the
    verification switch chose. *)
Lemma retry_loop_verified track flux l retries st h st' :
  verified st = false ->
  res (retry_loop usb args track flux l retries st h) = ok st' ->
  verified st' = true ->
  (unverifiable args track
   /\ verified_count st' = verified_count st
   /\ not_verified_count st' = not_verified_count st + 1)
  \/ (~ unverifiable args track
      /\ verified_count st' = verified_count st + 1
      /\ not_verified_count st' = not_verified_count st).
Proof.
  revert st h. induction retries as [|retry rest IH]; intros st h V0.
  - cbn. intros [= <-]. congruence.
  - first_turn track flux l retry st h; try discriminate.
    + intros [= <-] _. left. auto.
    + intros [= <-] _. right. repeat split; try reflexivity.
      unfold unverifiable. intros [U|[U|U]]; congruence.
    + intros R' V'. apply IH in R'; auto.
Qed.

(** Every turn of the loop starts with a write. *)
Lemma retry_loop_head track flux l retries st h :
  (retries = []
   /\ retry_loop usb args track flux l retries st h
      = Build_outcome (ok st) [] EmptyString)
  \/ exists r tl,
       evs (retry_loop usb args track flux l retries st h)
       = EvWriteTrack l (terminate_at_index flux) r :: tl.
Proof.
  destruct retries as [|retry rest]; [left; split; reflexivity|right].
  first_turn track flux l retry st h; cbn; eauto.
Qed.

(** Where a verification stands in the trace of the loop, what it was given
    and what follows from its verdict. *)
Lemma retry_loop_verifications track flux l retries st h pre x b post :
  evs (retry_loop usb args track flux l retries st h)
  = pre ++ EvVerifyTrack x b :: post ->
  (exists pre' v f vt,
      pre = pre' ++ [EvReadTrack (v_revs_of track) (Done v)]
      /\ usb_read_track usb (h ++ pre') (v_revs_of track) = Done v
      /\ verify track = Verifier vt
      /\ PyFloat.truediv (mean_index_time flux) (mean_index_time v) = ok f
      /\ x = scale v f
      /\ b = vt x)
  /\ (b = true ->
      post = []
      /\ exists st',
           res (retry_loop usb args track flux l retries st h) = ok st'
           /\ verified st' = true
           /\ verified_count st' = verified_count st + 1
           /\ not_verified_count st' = not_verified_count st)
  /\ (b = false ->
      (post = []
       /\ exists st',
            res (retry_loop usb args track flux l retries st h) = ok st'
            /\ verified st' = false
            /\ verified_count st' = verified_count st
            /\ not_verified_count st' = not_verified_count st)
      \/ exists r post',
           post = EvWriteTrack l (terminate_at_index flux) r :: post').
Proof.
  revert st h pre. induction retries as [|retry rest IH]; intros st h pre.
  - cbn. destruct pre; discriminate.
  - first_turn track flux l retry st h; intros S.
    1-4: do 3 (destruct pre as [|? pre]; try discriminate S).
    + (* verified on this turn *)
      do 2 (destruct pre as [|? pre]; try discriminate S).
      destruct pre as [|? pre]; [|destruct pre; discriminate S].
      inversion S; subst; clear S. split; [|split].
      * exists [EvWriteTrack l (terminate_at_index flux) (Done tt)], v, f, vt.
        cbn. auto 10.
      * intros _. split; [reflexivity|]. eexists. split; [reflexivity|].
        cbn. auto.
      * congruence.
    + (* mismatch on this turn *)
      do 2 (destruct pre as [|? pre]; try discriminate S).
      destruct pre as [|e3 pre].
      * inversion S; subst; clear S. split; [|split].
        -- exists [EvWriteTrack l (terminate_at_index flux) (Done tt)], v, f,
             vt. cbn. auto 10.
        -- congruence.
        -- intros _.
           destruct (retry_loop_head track flux l rest
                       (after_mismatch retry st)
                       (h ++ [EvWriteTrack l (terminate_at_index flux)
                                (Done tt);
                              EvReadTrack (v_revs_of track) (Done v);
                              EvVerifyTrack (scale v f) false]))
             as [[-> ->]|(r & tl & ->)].
           ++ left. split; [reflexivity|]. eexists. split; [reflexivity|].
              cbn. auto.
           ++ right. eauto.
      * cbn in S. injection S as E1 E2 E3 S. subst e e0 e3.
        destruct (IH _ _ _ S) as ((pre' & v' & f' & vt' & -> & RD' & HH)
                                  & Ht & Hf).
        split; [|split].
        -- exists ([EvWriteTrack l (terminate_at_index flux) (Done tt);
                    EvReadTrack (v_revs_of track) (Done v);
                    EvVerifyTrack (scale v f) false] ++ pre'), v', f', vt'.
           rewrite <- app_assoc in RD'. cbn in RD'. cbn. auto 10.
        -- intros B. destruct (Ht B) as (-> & st' & R' & HH').
           split; [reflexivity|]. exists st'. cbn in HH'. auto.
        -- intros B. destruct (Hf B) as [(-> & st' & R' & HH')|HH'].
           ++ left. split; [reflexivity|]. exists st'. cbn in HH'. auto.
           ++ right. auto.
Qed.

(** With no verification to do, the first turn is the only one. *)
Lemma retry_loop_unverifiable track flux l retry rest st h :
  unverifiable args track ->
  retry_loop usb args track flux l (retry :: rest) st h
  = match usb_write_track usb h l (terminate_at_index flux) with
    | Done _ =>
        Build_outcome (ok (after_no_verify st))
          [EvWriteTrack l (terminate_at_index flux) (Done tt)] EmptyString
    | Failed code =>
        Build_outcome (inl (CmdError code))
          [EvWriteTrack l (terminate_at_index flux) (Failed code)]
          EmptyString
    end.
Proof.
  intros U. rewrite retry_loop_cons. cbv zeta.
  unfold attempt, write_track. rewrite bind_call.
  destruct (usb_write_track usb h l (terminate_at_index flux)) as [[]|code];
    [|reflexivity].
  rewrite bind_lift, compute_no_verify_value.
  assert (E : no_verify args
              || match verify track with Verifier _ => false | _ => true end
              = true).
  { destruct U as [->|[->| ->]]; [reflexivity| |]; apply orb_true_r. }
  rewrite E. reflexivity.
Qed.

(** *** One track *)

Lemma write_and_verify_unfold dt cyl side track c h :
  write_and_verify usb args dt cyl side track c h
  = match writeout_list dt (flux_for_writeout track) with
    | inl e => Build_outcome (inl e) [] EmptyString
    | inr l =>
        let o := retry_loop usb args track (flux_for_writeout track) l
                   [0; 1; 2] (initial_state c) h in
        match res o with
        | inl e => Build_outcome (inl e) (evs o) (out o)
        | inr st =>
            Build_outcome
              (if verified st
               then ok (verified_count st, not_verified_count st)
               else raise (Fatal (failure_message cyl side)))
              (evs o) (out o ++ erase_text (formatter st))
        end
    end.
Proof.
  unfold write_and_verify. rewrite bind_lift.
  destruct (writeout_list dt (flux_for_writeout track)) as [e|l];
    [reflexivity|].
  change (range 0 3) with [0; 1; 2]. fold (initial_state c).
  unfold bind at 1. cbv zeta.
  destruct (res (retry_loop usb args track (flux_for_writeout track) l
                   [0; 1; 2] (initial_state c) h)) as [e|st]; [reflexivity|].
  unfold Formatter_erase, erase_text, error_check, bind, print, ret, lift.
  destruct (verified st); cbn; rewrite ?app_nil_r, ?append_nil_r;
    reflexivity.
Qed.

Lemma process_track_unfold dt cyl side c h :
  process_track usb image args dt cyl side c h
  = let gt := EvGetTrack cyl side in
    let sk := EvSeek (target_cyl args cyl) side in
    let text := progress_message (image cyl side) cyl side in
    match image cyl side, erase_empty args with
    | None, false => Build_outcome (ok c) [gt] EmptyString
    | track, _ =>
        match usb_seek usb (h ++ [gt]) (target_cyl args cyl) side with
        | Failed code =>
            Build_outcome (inl (CmdError code)) [gt; sk (Failed code)] text
        | Done _ =>
            match track with
            | None =>
                match usb_erase_track usb (h ++ [gt; sk (Done tt)])
                        (erase_ticks dt) with
                | Failed code =>
                    Build_outcome (inl (CmdError code))
                      [gt; sk (Done tt);
                       EvEraseTrack (erase_ticks dt) (Failed code)] text
                | Done _ =>
                    Build_outcome (ok c)
                      [gt; sk (Done tt);
                       EvEraseTrack (erase_ticks dt) (Done tt)] text
                end
            | Some t =>
                let o := write_and_verify usb args dt cyl side t c
                           (h ++ [gt; sk (Done tt)]) in
                Build_outcome (res o) (gt :: sk (Done tt) :: evs o)
                  (text ++ out o)
            end
        end
    end.
Proof.
  unfold process_track. cbv zeta. unfold bind at 1, get_track.
  cbn [res evs out].
  assert (S : forall (track : option (Track Flux)) (k : M Flux counts),
    bind (print (progress_message track cyl side))
      (fun _ => bind (seek usb (if double_step args then cyl * 2 else cyl)
                        side) (fun _ => k))
      (h ++ [EvGetTrack cyl side])
    = match usb_seek usb (h ++ [EvGetTrack cyl side]) (target_cyl args cyl)
              side with
      | Failed code =>
          Build_outcome (inl (CmdError code))
            [EvSeek (target_cyl args cyl) side (Failed code)]
            (progress_message track cyl side)
      | Done _ =>
          let o := k (h ++ [EvGetTrack cyl side;
                            EvSeek (target_cyl args cyl) side (Done tt)]) in
          Build_outcome (res o)
            (EvSeek (target_cyl args cyl) side (Done tt) :: evs o)
            (progress_message track cyl side ++ out o)
      end).
  { intros track k. rewrite bind_print. unfold seek. rewrite bind_call.
    fold (target_cyl args cyl).
    destruct (usb_seek usb _ (target_cyl args cyl) side) as [[]|code];
      cbn [res evs out]; rewrite ?append_nil_r, <- ?app_assoc; reflexivity. }
  destruct (image cyl side) as [t|]; cbv beta iota.
  - rewrite S. cbn.
    destruct (usb_seek usb _ (target_cyl args cyl) side) as [[]|code];
      destruct (erase_empty args); reflexivity.
  - destruct (erase_empty args); cbv beta iota delta [negb]; [|reflexivity].
    rewrite S. cbn.
    destruct (usb_seek usb _ (target_cyl args cyl) side) as [[]|code];
      [|reflexivity].
    unfold erase_track. fold (erase_ticks dt). rewrite bind_call.
    destruct (usb_erase_track usb _ (erase_ticks dt)) as [[]|code];
      cbn; rewrite ?append_nil_r; reflexivity.
Qed.

Lemma process_track_present dt cyl side c h t :
  image cyl side = Some t ->
  process_track usb image args dt cyl side c h
  = match usb_seek usb (h ++ [EvGetTrack cyl side]) (target_cyl args cyl)
            side with
    | Failed code =>
        Build_outcome (inl (CmdError code))
          [EvGetTrack cyl side;
           EvSeek (target_cyl args cyl) side (Failed code)]
          (progress_message (Some t) cyl side)
    | Done _ =>
        let o := write_and_verify usb args dt cyl side t c
                   (h ++ [EvGetTrack cyl side;
                          EvSeek (target_cyl args cyl) side (Done tt)]) in
        Build_outcome (res o)
          (EvGetTrack cyl side
           :: EvSeek (target_cyl args cyl) side (Done tt) :: evs o)
          (progress_message (Some t) cyl side ++ out o)
    end.
Proof.
  intros IM. rewrite process_track_unfold. cbv zeta. rewrite IM.
  destruct (erase_empty args); reflexivity.
Qed.

(** Case analysis on the processing of one position. *)
Ltac track_cases dt cyl side c h :=
  rewrite (process_track_unfold dt cyl side c h); cbv zeta;
  let IM := fresh "IM" in
  let EE := fresh "EE" in
  let SK := fresh "SK" in
  let ER := fresh "ER" in
  destruct (image cyl side) as [?t|] eqn:IM;
  [ destruct (erase_empty args) eqn:EE;
    (destruct (usb_seek usb (h ++ [EvGetTrack cyl side])
                 (target_cyl args cyl) side) as [[]|?code] eqn:SK;
     [|])
  | destruct (erase_empty args) eqn:EE;
    [ destruct (usb_seek usb (h ++ [EvGetTrack cyl side])
                  (target_cyl args cyl) side) as [[]|?code] eqn:SK;
      [ destruct (usb_erase_track usb
                    (h ++ [EvGetTrack cyl side;
                           EvSeek (target_cyl args cyl) side (Done tt)])
                    (erase_ticks dt)) as [[]|?code] eqn:ER | ]
    | ] ];
  cbn [res evs out].

Lemma write_and_verify_events dt cyl side t c h :
  image cyl side = Some t ->
  Forall (track_event_ok args image dt cyl side)
    (evs (write_and_verify usb args dt cyl side t c h)).
Proof.
  intros IM. rewrite write_and_verify_unfold.
  destruct (writeout_list dt (flux_for_writeout t)) as [e|l] eqn:WL;
    [constructor|].
  cbv zeta.
  assert (F : Forall (track_event_ok args image dt cyl side)
                (evs (retry_loop usb args t (flux_for_writeout t) l
                        [0; 1; 2] (initial_state c) h))).
  { eapply Forall_impl; [|apply retry_loop_events].
    intros [] E; cbn in *; try contradiction.
    - destruct E as (-> & NV & vt & V). eauto 10.
    - destruct E as (-> & ->). eauto.
    - destruct E as (NV & vt & V & ->). eauto 10. }
  destruct (res _); exact F.
Qed.

Lemma process_track_events dt cyl side c h :
  Forall (track_event_ok args image dt cyl side)
    (evs (process_track usb image args dt cyl side c h)).
Proof.
  track_cases dt cyl side c h.
  1,3: constructor; [cbn; auto|]; constructor;
       [cbn; repeat split; congruence|];
       now apply write_and_verify_events.
  all: repeat constructor; cbn; auto; congruence.
Qed.

Lemma write_and_verify_evs dt cyl side t c h :
  evs (write_and_verify usb args dt cyl side t c h) = []
  \/ exists l,
       writeout_list dt (flux_for_writeout t) = ok l
       /\ evs (write_and_verify usb args dt cyl side t c h)
          = evs (retry_loop usb args t (flux_for_writeout t) l [0; 1; 2]
                   (initial_state c) h).
Proof.
  rewrite write_and_verify_unfold.
  destruct (writeout_list dt (flux_for_writeout t)) as [e|l]; [now left|].
  right. exists l. split; [reflexivity|]. cbv zeta.
  now destruct (res _).
Qed.

Lemma process_track_shape dt cyl side c h :
  exists tl,
    evs (process_track usb image args dt cyl side c h)
    = EvGetTrack cyl side :: tl
    /\ Forall (fun e => is_get_track e = false) tl.
Proof.
  track_cases dt cyl side c h.
  1,3: eexists; split; [reflexivity|]; constructor; [reflexivity|];
       destruct (write_and_verify_evs dt cyl side t c
                   (h ++ [EvGetTrack cyl side;
                          EvSeek (target_cyl args cyl) side (Done tt)]))
         as [->|(l & _ & ->)]; [constructor|];
       (eapply Forall_impl; [|apply retry_loop_events]);
       intros []; cbn; tauto.
  all: eexists; split; [reflexivity|]; repeat constructor.
Qed.

Lemma process_track_writes dt cyl side c h :
  (count is_write (evs (process_track usb image args dt cyl side c h))
   <= 3)%nat.
Proof.
  track_cases dt cyl side c h; try (cbn; lia).
  all: change (count is_write
                 (?a :: ?b :: ?tl)) with (count is_write tl);
       match goal with
       | |- context [write_and_verify _ _ ?d ?cy ?si ?t ?c' ?h'] =>
           destruct (write_and_verify_evs d cy si t c' h')
             as [->|(l & _ & ->)]; [cbn; lia|];
           apply (retry_loop_writes t (flux_for_writeout t) l [0; 1; 2])
       end.
Qed.

Lemma process_track_reads_follow_writes dt cyl side c h b :
  reads_follow_writes b
    (evs (process_track usb image args dt cyl side c h)) = true.
Proof.
  track_cases dt cyl side c h; try reflexivity.
  all: cbn [reads_follow_writes is_read andb];
       match goal with
       | |- context [write_and_verify _ _ ?d ?cy ?si ?t ?c' ?h'] =>
           destruct (write_and_verify_evs d cy si t c' h')
             as [->|(l & _ & ->)]; [reflexivity|];
           apply retry_loop_reads_follow_writes
       end.
Qed.

(** *** The loops over the positions *)

Lemma for_each_evs {A S} (P : list (event Flux) -> Prop) (xs : list A)
  (body : A -> S -> M Flux S) :
  P [] ->
  (forall a b, P a -> P b -> P (a ++ b)) ->
  (forall x s h, P (evs (body x s h))) ->
  forall s h, P (evs (for_each xs body s h)).
Proof.
  intros P0 Papp Pbody. induction xs as [|x xs IH]; intros s h.
  - exact P0.
  - simpl. unfold bind.
    destruct (res (body x s h)) as [e|s'] eqn:R; cbn [evs].
    + apply Pbody.
    + apply Papp; [apply Pbody|apply IH].
Qed.

Lemma write_tracks_evs (P : list (event Flux) -> Prop) dt :
  P [] ->
  (forall a b, P a -> P b -> P (a ++ b)) ->
  (forall cyl side c h,
      P (evs (process_track usb image args dt cyl side c h))) ->
  forall c h, P (evs (write_tracks usb image args dt c h)).
Proof.
  intros P0 Papp Pbody c h. unfold write_tracks.
  apply for_each_evs; auto. intros cyl c' h'.
  apply for_each_evs; auto.
Qed.

Lemma outcome_eq {A} (o o' : outcome Flux A) :
  res o = res o' -> evs o = evs o' -> out o = out o' -> o = o'.
Proof.
  destruct o, o'. cbn. intros -> -> ->. reflexivity.
Qed.

Lemma bind_assoc {A B C} (m : M Flux A) (k1 : A -> M Flux B)
  (k2 : B -> M Flux C) h :
  bind (bind m k1) k2 h = bind m (fun a => bind (k1 a) k2) h.
Proof.
  unfold bind. destruct (res (m h)) as [e|a]; cbn [res evs out];
    [reflexivity|].
  destruct (res (k1 a (h ++ evs (m h)))) as [e|b]; cbn [res evs out];
    [reflexivity|].
  rewrite <- !app_assoc, append_assoc. reflexivity.
Qed.

Lemma bind_ext {A B} (m : M Flux A) (k k' : A -> M Flux B) h :
  (forall a h', k a h' = k' a h') -> bind m k h = bind m k' h.
Proof.
  intros E. unfold bind. destruct (res (m h)); [reflexivity|].
  now rewrite E.
Qed.

Lemma for_each_app {A S} (xs ys : list A) (body : A -> S -> M Flux S) s h :
  for_each (xs ++ ys) body s h
  = bind (for_each xs body s) (for_each ys body) h.
Proof.
  revert s h. induction xs as [|x xs IH]; intros s h.
  - cbn [app for_each]. now rewrite bind_ret.
  - cbn [app for_each]. rewrite bind_assoc. apply bind_ext. apply IH.
Qed.

Lemma for_each_map {A B S} (f : A -> B) (xs : list A)
  (body : B -> S -> M Flux S) s h :
  for_each (map f xs) body s h = for_each xs (fun x => body (f x)) s h.
Proof.
  revert s h. induction xs as [|x xs IH]; intros s h; [reflexivity|].
  cbn [map for_each]. unfold bind.
  destruct (res (body (f x) s h)); [reflexivity|]. now rewrite IH.
Qed.

Lemma for_each_flat_map {A B S} (f : A -> list B) (xs : list A)
  (body : B -> S -> M Flux S) s h :
  for_each (flat_map f xs) body s h
  = for_each xs (fun x => for_each (f x) body) s h.
Proof.
  revert s h. induction xs as [|x xs IH]; intros s h; [reflexivity|].
  cbn [flat_map for_each]. rewrite for_each_app. unfold bind.
  destruct (res (for_each (f x) body s h)); [reflexivity|]. now rewrite IH.
Qed.

(** The two loops visit [positions] one after the other. *)
Lemma write_tracks_flat dt c h :
  write_tracks usb image args dt c h
  = for_each (positions args)
      (fun p => process_track usb image args dt (fst p) (snd p)) c h.
Proof.
  unfold write_tracks, positions. rewrite for_each_flat_map.
  revert c h. generalize (range (scyl args) (ecyl args + 1)).
  induction l as [|cyl l IH]; intros c h; [reflexivity|].
  cbn [for_each]. unfold bind. rewrite for_each_map. cbn [fst snd].
  destruct (res _); [reflexivity|]. now rewrite IH.
Qed.

Lemma write_from_image_unfold h :
  write_from_image usb image args h
  = match usb_read_track usb h 2 with
    | Failed code =>
        Build_outcome (inl (CmdError code)) [EvReadTrack 2 (Failed code)]
          EmptyString
    | Done flux =>
        match drive_ticks_of flux with
        | inl e =>
            Build_outcome (inl e) [EvReadTrack 2 (Done flux)] EmptyString
        | inr dt =>
            let o := write_tracks usb image args dt (0, 0)
                       (h ++ [EvReadTrack 2 (Done flux)]) in
            Build_outcome (res o) (EvReadTrack 2 (Done flux) :: evs o)
              (out o ++ match res o with
                        | inl _ => EmptyString
                        | inr c => LF ++ summary args c ++ LF
                        end)
        end
    end.
Proof.
  unfold write_from_image, calibrate, read_track.
  rewrite bind_assoc, bind_call.
  destruct (usb_read_track usb h 2) as [flux|code]; [|reflexivity].
  rewrite bind_lift.
  destruct (drive_ticks_of flux) as [e|dt]; [reflexivity|].
  cbv zeta.
  destruct (res (write_tracks usb image args dt (0, 0)
                   (h ++ [EvReadTrack 2 (Done flux)]))) as [e|c] eqn:R.
  - rewrite (bind_raise _ _ _ _ R). cbn [res evs out].
    now rewrite append_nil_r.
  - rewrite (bind_ok _ _ _ _ R). cbn [res evs out].
    unfold bind, print, ret. cbn [res evs out app].
    rewrite !app_nil_r, !append_nil_r. reflexivity.
Qed.

Lemma by_position_nil Q : by_position (Flux := Flux) Q [].
Proof. intros cur. constructor. Qed.

Lemma by_position_app Q (a b : list (event Flux)) :
  by_position Q a -> by_position Q b -> by_position Q (a ++ b).
Proof.
  intros Ha Hb cur. destruct (annotate_app cur a b) as [cur' ->].
  apply Forall_app. split; [apply Ha|apply Hb].
Qed.

Lemma process_track_by_position dt cyl side c h :
  by_position (track_event_ok args image dt)
    (evs (process_track usb image args dt cyl side c h)).
Proof.
  intros cur.
  destruct (process_track_shape dt cyl side c h) as (tl & E & NG).
  pose proof (process_track_events dt cyl side c h) as F.
  rewrite E in *. cbn [annotate]. inversion F as [|? ? F1 F2]; subst.
  constructor; [cbn; eauto|].
  rewrite annotate_no_get_track by assumption.
  apply Forall_map. eapply Forall_impl; [|exact F2]. cbn. eauto.
Qed.

Lemma write_tracks_by_position dt c h :
  by_position (track_event_ok args image dt)
    (evs (write_tracks usb image args dt c h)).
Proof.
  apply write_tracks_evs.
  - apply by_position_nil.
  - apply by_position_app.
  - intros. apply process_track_by_position.
Qed.

Lemma write_tracks_reads_follow_writes dt c h b :
  reads_follow_writes b (evs (write_tracks usb image args dt c h)) = true.
Proof.
  revert b.
  apply (write_tracks_evs (fun tr => forall b, reads_follow_writes b tr = true)).
  - reflexivity.
  - intros a b' Ha Hb b. now apply reads_follow_writes_app.
  - intros. apply process_track_reads_follow_writes.
Qed.

(** *** Tracks that cannot be verified *)

Lemma write_and_verify_unverifiable dt cyl side t c h :
  unverifiable args t ->
  write_and_verify usb args dt cyl side t c h
  = match writeout_list dt (flux_for_writeout t) with
    | inl e => Build_outcome (inl e) [] EmptyString
    | inr l =>
        match usb_write_track usb h l
                (terminate_at_index (flux_for_writeout t)) with
        | Done _ =>
            Build_outcome (ok (fst c, snd c + 1))
              [EvWriteTrack l (terminate_at_index (flux_for_writeout t))
                 (Done tt)]
              (erase_text O)
        | Failed code =>
            Build_outcome (inl (CmdError code))
              [EvWriteTrack l (terminate_at_index (flux_for_writeout t))
                 (Failed code)]
              EmptyString
        end
    end.
Proof.
  intros U. rewrite write_and_verify_unfold.
  destruct (writeout_list dt (flux_for_writeout t)) as [e|l]; [reflexivity|].
  cbv zeta. rewrite retry_loop_unverifiable by assumption.
  destruct (usb_write_track usb h l _) as [[]|code]; reflexivity.
Qed.

(** *** Verifications within a track *)

Lemma write_and_verify_verifications dt cyl side t c h pre x b post :
  evs (write_and_verify usb args dt cyl side t c h)
  = pre ++ EvVerifyTrack x b :: post ->
  (exists pre' v f vt,
      pre = pre' ++ [EvReadTrack (v_revs_of t) (Done v)]
      /\ usb_read_track usb (h ++ pre') (v_revs_of t) = Done v
      /\ verify t = Verifier vt
      /\ PyFloat.truediv (mean_index_time (flux_for_writeout t))
           (mean_index_time v) = ok f
      /\ x = scale v f
      /\ b = vt x)
  /\ (b = true ->
      post = []
      /\ res (write_and_verify usb args dt cyl side t c h)
         = ok (fst c + 1, snd c))
  /\ (b = false ->
      (post = []
       /\ res (write_and_verify usb args dt cyl side t c h)
          = inl (Fatal (failure_message cyl side)))
      \/ exists l r post',
           post = EvWriteTrack l (terminate_at_index (flux_for_writeout t)) r
                  :: post').
Proof.
  rewrite write_and_verify_unfold.
  destruct (writeout_list dt (flux_for_writeout t)) as [e|l].
  { destruct pre; discriminate. }
  cbv zeta. intros S.
  assert (S' : evs (retry_loop usb args t (flux_for_writeout t) l [0; 1; 2]
                      (initial_state c) h)
               = pre ++ EvVerifyTrack x b :: post).
  { destruct (res _) in S; exact S. }
  clear S.
  destruct (retry_loop_verifications _ _ _ _ _ _ _ _ _ _ S')
    as (Hpre & Ht & Hf).
  split; [exact Hpre|]. split.
  - intros B. destruct (Ht B) as (-> & st' & -> & V & VC & NVC).
    rewrite V, VC, NVC. auto.
  - intros B. destruct (Hf B) as [(-> & st' & -> & V & _)|(r & post' & ->)].
    + left. rewrite V. auto.
    + right. eauto.
Qed.

(** *** Three mismatches *)

Lemma retry_loop_ends_failed track flux l retries st h :
  count is_failed_verify
    (evs (retry_loop usb args track flux l retries st h))
  = List.length retries ->
  retries = []
  \/ exists pre x,
       evs (retry_loop usb args track flux l retries st h)
       = pre ++ [EvVerifyTrack x false].
Proof.
  revert st h. induction retries as [|retry rest IH]; intros st h;
    [now left|right].
  revert H0. first_turn track flux l retry st h; try (cbn; discriminate).
  rewrite count_app. cbn -[retry_loop]. intros C. injection C as C.
  destruct (IH _ _ C) as [->|(pre & x & ->)].
  - cbn. eexists [_; _], _. reflexivity.
  - eexists (_ :: _ :: _ :: pre), x. reflexivity.
Qed.

Lemma process_track_failed_verifies dt cyl side c h :
  (count is_failed_verify
     (evs (process_track usb image args dt cyl side c h)) <= 3)%nat.
Proof.
  track_cases dt cyl side c h; try (cbn; lia).
  all: change (count is_failed_verify
                 (?a :: ?b :: ?tl)) with (count is_failed_verify tl);
       match goal with
       | |- context [write_and_verify _ _ ?d ?cy ?si ?t ?c' ?h'] =>
           destruct (write_and_verify_evs d cy si t c' h')
             as [->|(l & _ & ->)]; [cbn; lia|];
           apply (retry_loop_failed_verifies t (flux_for_writeout t) l
                    [0; 1; 2])
       end.
Qed.

Lemma write_and_verify_three_failures dt cyl side t c h e0 seg post :
  e0 :: evs (write_and_verify usb args dt cyl side t c h) = seg ++ post ->
  is_failed_verify e0 = false ->
  count is_failed_verify seg = 3%nat ->
  post = []
  /\ res (write_and_verify usb args dt cyl side t c h)
     = inl (Fatal (failure_message cyl side)).
Proof.
  intros E F0 C.
  assert (B : (count is_failed_verify seg
               <= count is_failed_verify
                    (evs (write_and_verify usb args dt cyl side t c h)))%nat).
  { pose proof (count_le_app_l is_failed_verify seg post) as B.
    rewrite <- E in B. unfold count in B at 2. cbn [filter] in B.
    rewrite F0 in B. exact B. }
  revert E B. rewrite write_and_verify_unfold.
  destruct (writeout_list dt (flux_for_writeout t)) as [e|l].
  { cbn. lia. }
  cbv zeta.
  set (o := retry_loop usb args t (flux_for_writeout t) l [0; 1; 2]
              (initial_state c) h).
  assert (Ev : forall r1 r2 s1 s2,
             evs match res o with
                 | inl e => Build_outcome (A := counts) (r1 e) (evs o) (s1 e)
                 | inr st => Build_outcome (r2 st) (evs o) (s2 st)
                 end = evs o).
  { intros. now destruct (res o). }
  rewrite Ev. intros E B.
  pose proof (retry_loop_failed_verifies t (flux_for_writeout t) l
                [0; 1; 2] (initial_state c) h) as U. fold o in U.
  cbn [List.length] in U.
  assert (C3 : count is_failed_verify (evs o) = List.length [0; 1; 2])
    by (cbn [List.length]; lia).
  destruct (retry_loop_all_mismatch t (flux_for_writeout t) l [0; 1; 2]
              (initial_state c) h eq_refl C3) as (st' & R & V).
  fold o in R. rewrite R, V. split; [|reflexivity].
  destruct (retry_loop_ends_failed t (flux_for_writeout t) l [0; 1; 2]
              (initial_state c) h C3) as [N|(pre & x & L)]; [discriminate|].
  fold o in L. rewrite L in E.
  eapply (count_all_then_whole is_failed_verify seg post (e0 :: pre));
    [symmetry; exact E|reflexivity|].
  rewrite <- E. unfold count at 2. cbn [filter]. rewrite F0.
  fold (count is_failed_verify (pre ++ [EvVerifyTrack x false])).
  rewrite <- L. cbn [List.length] in C3. lia.
Qed.

(** A track with three failed verifications ends there, fatally. *)
Lemma process_track_three_failures dt cyl side c h seg post :
  evs (process_track usb image args dt cyl side c h)
  = EvGetTrack cyl side :: seg ++ post ->
  count is_failed_verify seg = 3%nat ->
  post = []
  /\ res (process_track usb image args dt cyl side c h)
     = inl (Fatal (failure_message cyl side)).
Proof.
  intros E C.
  assert (B : (3 <= count is_failed_verify
                      (evs (process_track usb image args dt cyl side c h)))
              %nat).
  { rewrite E. change (EvGetTrack cyl side :: seg ++ post)
      with ([EvGetTrack cyl side] ++ seg ++ post).
    rewrite !count_app. lia. }
  revert E B.
  destruct (image cyl side) as [t|] eqn:IM.
  - rewrite (process_track_present dt cyl side c h t IM).
    destruct (usb_seek usb _ (target_cyl args cyl) side) as [[]|code];
      cbv zeta; cbn [res evs out]; [|cbn; lia].
    intros E _. injection E as E.
    eapply write_and_verify_three_failures; eauto.
  - rewrite process_track_unfold. cbv zeta. rewrite IM.
    destruct (erase_empty args); [|cbn; lia].
    destruct (usb_seek usb _ (target_cyl args cyl) side) as [[]|code];
      [|cbn; lia].
    destruct (usb_erase_track usb _ _) as [[]|code]; cbn; lia.
Qed.

(** The trace of the loops is empty or starts with a [get_track]. *)
Lemma for_each_head (ps : list (Z * Z)) dt c h :
  let tr := evs (for_each ps
                   (fun p => process_track usb image args dt (fst p) (snd p))
                   c h) in
  tr = [] \/ exists cyl side tl, tr = EvGetTrack cyl side :: tl.
Proof.
  destruct ps as [|p ps]; [now left|right].
  cbn [for_each]. unfold bind.
  destruct (process_track_shape dt (fst p) (snd p) c h) as (tl & E & _).
  destruct (res _); cbn [evs]; rewrite E; cbn [app]; eauto.
Qed.

Lemma for_each_three_failures (ps : list (Z * Z)) dt :
  forall c h pre cyl side seg post,
    evs (for_each ps
           (fun p => process_track usb image args dt (fst p) (snd p)) c h)
    = pre ++ EvGetTrack cyl side :: seg ++ post ->
    Forall (fun e => is_get_track e = false) seg ->
    count is_failed_verify seg = 3%nat ->
    post = []
    /\ res (for_each ps
              (fun p => process_track usb image args dt (fst p) (snd p)) c h)
       = inl (Fatal (failure_message cyl side)).
Proof.
  induction ps as [|p ps IH]; intros c h pre cyl side seg post E NG C.
  - destruct pre; discriminate.
  - revert E. cbn [for_each]. unfold bind.
    destruct (process_track_shape dt (fst p) (snd p) c h) as (tl & Ea & NGtl).
    destruct (res (process_track usb image args dt (fst p) (snd p) c h))
      as [e|c'] eqn:R; cbn [res evs]; rewrite Ea; intros E.
    + destruct pre as [|e1 pre]; cbn [app] in E.
      * injection E as E1 E2 E. rewrite E1, E2, E in Ea.
        rewrite E1, E2 in R.
        destruct (process_track_three_failures _ _ _ _ _ _ _ Ea C)
          as [-> R']. split; [reflexivity|]. congruence.
      * injection E as _ E. exfalso.
        rewrite E in NGtl. apply Forall_app in NGtl as [_ NGtl].
        inversion NGtl; discriminate.
    + destruct pre as [|e1 pre]; cbn [app] in E.
      * injection E as E1 E2 E. exfalso. rewrite E1, E2 in Ea, R.
        destruct (prefix_no_get_track seg post tl _ NG
                    (for_each_head ps dt c' _) E)
          as (post' & ->).
        destruct (process_track_three_failures _ _ _ _ _ _ _ Ea C)
          as [_ R']. congruence.
      * injection E as _ E.
        destruct (split_after_no_get_track tl _ pre (seg ++ post)
                    (EvGetTrack cyl side) NGtl eq_refl E)
          as (pre' & _ & E').
        exact (IH _ _ _ _ _ _ _ E' NG C).
Qed.

(** *** No track is written more than three times *)

Lemma writes_per_track_le_tail n seen (tl : list (event Flux)) :
  Forall (fun e => is_get_track e = false) tl ->
  (seen + count is_write tl <= n)%nat ->
  writes_per_track_le n seen tl = true.
Proof.
  intros F. revert seen. induction F as [|e tl He _ IH]; intros seen B;
    [reflexivity|].
  unfold count in B. cbn [filter] in B.
  destruct e; cbn in *; try discriminate; try (apply IH; exact B).
  apply andb_true_iff. split; [apply Nat.ltb_lt; lia|].
  apply IH. unfold count. lia.
Qed.

Lemma writes_per_track_le_app n seen (a b : list (event Flux)) :
  writes_per_track_le n seen a = true ->
  (forall s, writes_per_track_le n s b = true) ->
  writes_per_track_le n seen (a ++ b) = true.
Proof.
  revert seen. induction a as [|e a IH]; intros seen Ha Hb; cbn [app];
    [apply Hb|].
  destruct e; cbn in *; auto.
  apply andb_true_iff in Ha as [-> Ha]. cbn. auto.
Qed.

Lemma write_tracks_writes_per_track dt c h seen :
  writes_per_track_le 3 seen (evs (write_tracks usb image args dt c h))
  = true.
Proof.
  revert seen.
  apply (write_tracks_evs
           (fun tr => forall seen, writes_per_track_le 3 seen tr = true)).
  - reflexivity.
  - intros a b Ha Hb seen. now apply writes_per_track_le_app.
  - intros cyl side c' h' seen.
    destruct (process_track_shape dt cyl side c' h') as (tl & E & NG).
    pose proof (process_track_writes dt cyl side c' h') as B.
    rewrite E in *. cbn [writes_per_track_le].
    apply writes_per_track_le_tail; [exact NG|].
    unfold count in B. cbn in B. unfold count. lia.
Qed.

(** ** The claims about the job *)

(** C3.  A job starts by capturing two revolutions, before it seeks or writes
    anything; [drive_ticks] is the (correctly rounded) half of the sum of the
    first two index entries of that capture.  The calibration happens once:
    every later read of the job is a read-back that follows an accepted write.
    The value is used unchanged for every track: each erase lasts
    [drive_ticks * 1.1] and each list written is the track's intervals
    rescaled by [drive_ticks / index_list[0]].  A failed calibration ends the
    job before any track is touched. *)
Theorem calibration_once_per_job h :
  exists r rest,
    evs (write_from_image usb image args h) = EvReadTrack 2 r :: rest
    /\ reads_follow_writes false rest = true
    /\ (forall flux a b dt,
           r = Done flux ->
           nth_error (index_list flux) 0 = Some a ->
           nth_error (index_list flux) 1 = Some b ->
           PyFloat.int_truediv (a + b) 2 = ok dt ->
           by_position (track_event_ok args image dt) rest)
    /\ (forall e,
           (flux <-? reply_result r ; drive_ticks_of flux) = inl e ->
           rest = [] /\ res (write_from_image usb image args h) = inl e).
Proof.
  rewrite write_from_image_unfold.
  destruct (usb_read_track usb h 2) as [flux|code]; cbn [evs res].
  - destruct (drive_ticks_of flux) as [e|dt] eqn:D; cbn [evs res].
    + exists (Done flux), []. split; [reflexivity|]. split; [reflexivity|].
      split.
      * intros flux' a b dt E A B T. injection E as <-.
        unfold drive_ticks_of, subscript in D.
        rewrite A, B in D. cbn in D. congruence.
      * intros e' E. cbn in E. split; congruence.
    + eexists (Done flux), _. split; [reflexivity|]. split; [|split].
      * apply write_tracks_reads_follow_writes.
      * intros flux' a b dt' E A B T. injection E as <-.
        unfold drive_ticks_of, subscript in D. rewrite A, B in D. cbn in D.
        assert (dt' = dt) as -> by congruence.
        apply write_tracks_by_position.
      * intros e' E. cbn in E. congruence.
  - exists (Failed code), []. split; [reflexivity|]. split; [reflexivity|].
    split.
    + discriminate.
    + intros e' E. cbn in E. split; congruence.
Qed.

(** C4.  Whatever list a track's processing hands to the device was produced
    by the rate converter from the track's own intervals, with the factor
    [drive_ticks / index_list[0]] of the track's own capture. *)
Theorem rescale_factor_from_first_index dt cyl side c h l tai r :
  In (EvWriteTrack l tai r)
     (evs (process_track usb image args dt cyl side c h)) ->
  exists t i fi factor,
    image cyl side = Some t
    /\ nth_error (index_list (flux_for_writeout t)) 0 = Some i
    /\ PyFloat.of_int i = ok fi
    /\ PyFloat.truediv dt fi = ok factor
    /\ rate_convert factor (list' (flux_for_writeout t)) = ok l
    /\ tai = terminate_at_index (flux_for_writeout t).
Proof.
  intros I.
  pose proof (process_track_events dt cyl side c h) as F.
  rewrite Forall_forall in F. apply F in I. cbn in I.
  destruct I as (t & IM & WL & ->). exists t.
  unfold writeout_list, rescale_factor, subscript in WL.
  destruct (nth_error (index_list (flux_for_writeout t)) 0) as [i|] eqn:I0;
    [|discriminate].
  cbn in WL. destruct (PyFloat.of_int i) as [e|fi] eqn:FI; [discriminate|].
  cbn in WL.
  destruct (PyFloat.truediv dt fi) as [e|factor] eqn:TD; [discriminate|].
  cbn in WL. exists i, fi, factor. repeat split; auto.
Qed.

(** C6.  Every read-back of a track asks for one revolution when the track's
    splice count is 0 and for two otherwise. *)
Theorem verify_revolutions_from_splice dt cyl side c h revs r :
  In (EvReadTrack revs r)
     (evs (process_track usb image args dt cyl side c h)) ->
  exists t,
    image cyl side = Some t
    /\ revs = if splice t =? 0 then 1 else 2.
Proof.
  intros I.
  pose proof (process_track_events dt cyl side c h) as F.
  rewrite Forall_forall in F. apply F in I. cbn in I.
  destruct I as (t & IM & -> & _). eauto.
Qed.

(** C5.  A position the image has nothing for: with erase-empty off, nothing
    is done to the drive and the counts stay; with erase-empty on, the head
    is sent there and, if the seek is accepted, one erase of
    [drive_ticks * 1.1] is issued; nothing is written, read back or verified
    and the counts stay. *)
Theorem absent_track_skipped_or_erased dt cyl side c h :
  image cyl side = None ->
  (erase_empty args = false ->
   process_track usb image args dt cyl side c h
   = Build_outcome (ok c) [EvGetTrack cyl side] EmptyString)
  /\ (erase_empty args = true ->
      exists r1,
        r1 = usb_seek usb (h ++ [EvGetTrack cyl side])
               (if double_step args then cyl * 2 else cyl) side
        /\ match r1 with
           | Failed code =>
               evs (process_track usb image args dt cyl side c h)
               = [EvGetTrack cyl side;
                  EvSeek (if double_step args then cyl * 2 else cyl) side r1]
               /\ res (process_track usb image args dt cyl side c h)
                  = inl (CmdError code)
           | Done _ =>
               exists r2,
                 evs (process_track usb image args dt cyl side c h)
                 = [EvGetTrack cyl side;
                    EvSeek (if double_step args then cyl * 2 else cyl) side
                      r1;
                    EvEraseTrack (PyFloat.mul dt (PyFloat.literal 11 10)) r2]
                 /\ res (process_track usb image args dt cyl side c h)
                    = (_ <-? reply_result r2 ; ok c)
           end).
Proof.
  intros IM. split; intros EE.
  - rewrite process_track_unfold. cbv zeta. now rewrite IM, EE.
  - eexists. split; [reflexivity|]. fold (target_cyl args cyl).
    rewrite process_track_unfold. cbv zeta. rewrite IM, EE.
    destruct (usb_seek usb _ (target_cyl args cyl) side) as [[]|code].
    + fold (erase_ticks dt).
      destruct (usb_erase_track usb _ (erase_ticks dt)) as [[]|code];
        eexists; split; reflexivity.
    + split; reflexivity.
Qed.

(** C7.  A verifier is only ever handed the capture just read back, rescaled
    by the mean index time of the track's capture over that of the
    read-back; its verdict alone settles the attempt: on [true] the track is
    done and counted verified, on [false] the track is written again or, the
    turns being used up, the job fails. *)
Theorem readback_rescaled_before_verify dt cyl side c h pre x b post :
  evs (process_track usb image args dt cyl side c h)
  = pre ++ EvVerifyTrack x b :: post ->
  exists t vt pre' revs v f,
    image cyl side = Some t
    /\ verify t = Verifier vt
    /\ pre = pre' ++ [EvReadTrack revs (Done v)]
    /\ PyFloat.truediv (mean_index_time (flux_for_writeout t))
         (mean_index_time v) = ok f
    /\ x = scale v f
    /\ b = vt x
    /\ (b = true ->
        post = []
        /\ res (process_track usb image args dt cyl side c h)
           = ok (fst c + 1, snd c))
    /\ (b = false ->
        (post = []
         /\ res (process_track usb image args dt cyl side c h)
            = inl (Fatal (failure_message cyl side)))
        \/ exists l tai r post', post = EvWriteTrack l tai r :: post').
Proof.
  track_cases dt cyl side c h; intros S;
    try (do 4 (destruct pre as [|? pre]; try discriminate S); fail).
  all: destruct pre as [|e1 pre]; try discriminate S;
       destruct pre as [|e2 pre]; try discriminate S;
       cbn [app] in S; injection S as E1 E2 S; subst e1 e2;
       destruct (write_and_verify_verifications _ _ _ _ _ _ _ _ _ _ S)
         as ((pre' & v & f & vt & -> & _ & V & T & -> & ->) & Ht & Hf);
       exists t, vt, (EvGetTrack cyl side
                      :: EvSeek (target_cyl args cyl) side (Done tt) :: pre'),
         (v_revs_of t), v, f;
       do 6 (split; [reflexivity || assumption|]);
       (split; [exact Ht|]);
       intros B; destruct (Hf B) as [?|(l & r & post' & ->)];
       [left; assumption|right; eauto].
Qed.

(** C9.  With verification switched off, or a track whose verifier is [None],
    the track is written at most once and never read back or verified; its
    processing never raises the fatal track-write failure; and when the seek,
    the conversion and the write go through, exactly one write is issued and
    the track counts as not verified, the verified count unchanged. *)
Theorem unverified_track_counted_not_verified dt cyl side c h t :
  image cyl side = Some t ->
  no_verify args = true \/ verify t = VerifyNone ->
  ((count is_write (evs (process_track usb image args dt cyl side c h))
    <= 1)%nat
   /\ count is_read (evs (process_track usb image args dt cyl side c h)) = O
   /\ count is_verify (evs (process_track usb image args dt cyl side c h))
      = O)
  /\ (forall d,
         res (process_track usb image args dt cyl side c h)
         <> inl (Fatal d))
  /\ (forall l,
         usb_seek usb (h ++ [EvGetTrack cyl side])
           (if double_step args then cyl * 2 else cyl) side = Done tt ->
         writeout_list dt (flux_for_writeout t) = ok l ->
         usb_write_track usb
           (h ++ [EvGetTrack cyl side;
                  EvSeek (if double_step args then cyl * 2 else cyl) side
                    (Done tt)])
           l (terminate_at_index (flux_for_writeout t)) = Done tt ->
         res (process_track usb image args dt cyl side c h)
         = ok (fst c, snd c + 1)
         /\ evs (process_track usb image args dt cyl side c h)
            = [EvGetTrack cyl side;
               EvSeek (if double_step args then cyl * 2 else cyl) side
                 (Done tt);
               EvWriteTrack l (terminate_at_index (flux_for_writeout t))
                 (Done tt)]).
Proof.
  intros IM NV.
  assert (U : unverifiable args t) by (unfold unverifiable; tauto).
  fold (target_cyl args cyl).
  rewrite (process_track_present dt cyl side c h t IM).
  destruct (usb_seek usb _ (target_cyl args cyl) side) as [[]|code];
    cbv zeta; cbn [res evs out].
  2:{ repeat split; try (cbn; lia); try discriminate. }
  rewrite write_and_verify_unverifiable by assumption.
  destruct (writeout_list dt (flux_for_writeout t)) as [e|l] eqn:WL.
  { split; [repeat split; cbn; lia|]. split; [|discriminate].
    intros d [= ->]. apply writeout_list_raises in WL.
    destruct WL as [W|[W|[W|W]]]; discriminate W. }
  destruct (usb_write_track usb _ l _) as [[]|code] eqn:WR;
    cbn [res evs out].
  - split; [repeat split; cbn; lia|]. split; [discriminate|].
    intros l' _ [= <-] _. auto.
  - split; [repeat split; cbn; lia|]. split; [discriminate|].
    intros l' _ [= <-]. congruence.
Qed.

(** C8.  No track is written more than three times, whatever the device and
    the verifier answer.  A track whose three verifications fail ends the
    job: the third mismatch is the last thing the job does (no later seek,
    write or erase), and the job fails fatally with the message naming that
    cylinder and side. *)
Theorem three_attempts_then_fatal h :
  (forall dt cyl side c h',
      (count is_write (evs (process_track usb image args dt cyl side c h'))
       <= 3)%nat)
  /\ writes_per_track_le 3 0 (evs (write_from_image usb image args h)) = true
  /\ (forall pre cyl side seg post,
         evs (write_from_image usb image args h)
         = pre ++ EvGetTrack cyl side :: seg ++ post ->
         Forall (fun e => is_get_track e = false) seg ->
         count is_failed_verify seg = 3%nat ->
         post = []
         /\ res (write_from_image usb image args h)
            = inl (Fatal ("Failed to write Track " ++ decimal cyl ++ "."
                          ++ decimal side))).
Proof.
  split; [intros; apply process_track_writes|].
  rewrite write_from_image_unfold.
  destruct (usb_read_track usb h 2) as [flux|code].
  2:{ split; [reflexivity|]. intros pre cyl side seg post E.
      do 2 (destruct pre as [|? pre]; try discriminate E). }
  destruct (drive_ticks_of flux) as [e|dt].
  { split; [reflexivity|]. intros pre cyl side seg post E.
    do 2 (destruct pre as [|? pre]; try discriminate E). }
  cbv zeta. cbn [res evs]. split.
  - cbn [writes_per_track_le]. apply write_tracks_writes_per_track.
  - intros pre cyl side seg post E NG C.
    destruct pre as [|e1 pre]; [discriminate E|].
    cbn [app] in E. injection E as _ E.
    rewrite write_tracks_flat in *.
    exact (for_each_three_failures _ _ _ _ _ _ _ _ _ E NG C).
Qed.

End JobFacts.

(** C10.  A track object without a [verify] attribute is processed exactly as
    the same track with [verify = None]: the [AttributeError] never leaves
    the job, nothing is read back, and once written the track counts as not
    verified. *)
Theorem undefined_verify_attribute_swallowed {Flux : Type} `{FluxLike Flux}
  (usb : Usb Flux) (image image' : Image Flux) (args : Args)
  dt cyl side c h t :
  image cyl side = Some t ->
  verify t = VerifyUndefined ->
  image' cyl side
  = Some {| flux_for_writeout := flux_for_writeout t;
            verify := VerifyNone;
            splice := splice t |} ->
  process_track usb image args dt cyl side c h
  = process_track usb image' args dt cyl side c h
  /\ compute_no_verify args t = ok true
  /\ res (process_track usb image args dt cyl side c h) <> inl AttributeError
  /\ count is_read (evs (process_track usb image args dt cyl side c h)) = O
  /\ (forall l,
         In (EvWriteTrack l (terminate_at_index (flux_for_writeout t))
               (Done tt))
            (evs (process_track usb image args dt cyl side c h)) ->
         res (process_track usb image args dt cyl side c h)
         = ok (fst c, snd c + 1)).
Proof.
  intros IM V IM'.
  assert (U : unverifiable args t) by (unfold unverifiable; auto).
  assert (U' : unverifiable args
                 {| flux_for_writeout := flux_for_writeout t;
                    verify := VerifyNone;
                    splice := splice t |})
    by (unfold unverifiable; auto).
  rewrite (process_track_present usb image args dt cyl side c h t IM).
  rewrite (process_track_present usb image' args dt cyl side c h _ IM').
  split; [|split].
  - destruct (usb_seek usb _ (target_cyl args cyl) side) as [[]|code];
      [|reflexivity].
    cbv zeta.
    rewrite !write_and_verify_unverifiable by assumption. reflexivity.
  - rewrite compute_no_verify_value, V. now rewrite orb_true_r.
  - destruct (usb_seek usb _ (target_cyl args cyl) side) as [[]|code];
      cbv zeta; cbn [res evs].
    2:{ repeat split; try discriminate.
        intros l [I|[I|[]]]; discriminate I. }
    rewrite write_and_verify_unverifiable by assumption.
    destruct (writeout_list dt (flux_for_writeout t)) as [e|l] eqn:WL.
    { cbn [res evs]. split; [|split; [reflexivity|]].
      - intros [= ->]. apply writeout_list_raises in WL.
        destruct WL as [W|[W|[W|W]]]; discriminate W.
      - intros l [I|[I|[]]]; discriminate I. }
    destruct (usb_write_track usb _ l _) as [[]|code]; cbn [res evs].
    + repeat split; try discriminate.
    + repeat split; try discriminate.
      intros l' [I|[I|[I|[]]]]; discriminate I.
Qed.

(** ** The claims about the rate converter *)

(** C2, as the code behaves.  The double nearest 1.15 lies below 1.15, every
    operation of the ten turns is exact, and the tenth sum is
    [10 * 1.15 - 10], just under 1.5: it rounds to 1.  The code emits
    [1,1,1,2,1,1,1,1,1,1], whose sum is 11. *)
Theorem ten_ones_at_1_15 :
  rate_convert (PyFloat.literal 115 100) [1; 1; 1; 1; 1; 1; 1; 1; 1; 1]
  = ok [1; 1; 1; 2; 1; 1; 1; 1; 1; 1]
  /\ sum [1; 1; 1; 2; 1; 1; 1; 1; 1; 1] = 11
  /\ (PyFloat.to_Q (PyFloat.literal 115 100) < 115 # 100)%Q
  /\ drift_below_one (PyFloat.literal 115 100)
       [1; 1; 1; 1; 1; 1; 1; 1; 1; 1] [1; 1; 1; 2; 1; 1; 1; 1; 1; 1].
Proof.
  split; [vm_compute; reflexivity|].
  split; [reflexivity|].
  split; [vm_compute; reflexivity|].
  intros k Hk. cbn [List.length] in Hk.
  do 11 (destruct k as [|k]; [vm_compute; reflexivity|]). lia.
Qed.

(** C2 as stated does not hold of the code: the last sample comes out as 1,
    not 2. *)
Lemma ten_ones_at_1_15_not_as_stated :
  exists out,
    rate_convert (PyFloat.literal 115 100) [1; 1; 1; 1; 1; 1; 1; 1; 1; 1]
    = ok out
    /\ out <> [1; 1; 1; 2; 1; 1; 1; 1; 1; 2]
    /\ sum out <> 12.
Proof.
  exists [1; 1; 1; 2; 1; 1; 1; 1; 1; 1].
  split; [vm_compute; reflexivity|]. split; discriminate.
Qed.

(** C1 as stated does not hold of the code: at factor 1.0 the single interval
    [2^54 + 2] is first converted to the double [2^54], and the output is two
    ticks short. *)
Lemma drift_of_two_at_factor_one :
  positive_finite (PyFloat.literal 1 1) = true
  /\ rate_convert (PyFloat.literal 1 1) [2 ^ 54 + 2] = ok [2 ^ 54]
  /\ Qeq (drift (PyFloat.literal 1 1) [2 ^ 54 + 2] [2 ^ 54] 1) (-2 # 1)
  /\ ~ drift_below_one (PyFloat.literal 1 1) [2 ^ 54 + 2] [2 ^ 54].
Proof.
  split; [reflexivity|]. split; [vm_compute; reflexivity|].
  split; [vm_compute; reflexivity|].
  intros D. specialize (D 1%nat (le_n _)). vm_compute in D. discriminate D.
Qed.

(** ** Rounding to a double *)

Lemma digits2_pos_size p : digits2_pos p = Pos.size p.
Proof. induction p; simpl; congruence. Qed.

Lemma digits2_lower p : 2 ^ (Zpos (digits2_pos p) - 1) <= Zpos p.
Proof.
  rewrite digits2_pos_size.
  pose proof (Pos.size_le p) as L.
  assert (E : Zpos (2 ^ Pos.size p) = 2 ^ Zpos (Pos.size p))
    by apply Pos2Z.inj_pow.
  assert (2 ^ Zpos (Pos.size p) = 2 * 2 ^ (Zpos (Pos.size p) - 1)).
  { rewrite <- Z.pow_succ_r by lia. f_equal. lia. }
  lia.
Qed.

Lemma digits2_upper p : Zpos p < 2 ^ Zpos (digits2_pos p).
Proof.
  rewrite digits2_pos_size.
  pose proof (Pos.size_gt p) as L.
  assert (E : Zpos (2 ^ Pos.size p) = 2 ^ Zpos (Pos.size p))
    by apply Pos2Z.inj_pow.
  lia.
Qed.

Lemma shr_1_spec m r s :
  0 <= m ->
  shr_1 (Build_shr_record m r s)
  = Build_shr_record (Z.div2 m) (Z.odd m) (r || s).
Proof.
  intros Hm. destruct m as [|[p|p|]|p]; try reflexivity. lia.
Qed.

Lemma shr_inv_step V k mrs :
  0 <= k -> shr_inv V k mrs -> shr_inv V (k + 1) (shr_1 mrs).
Proof.
  intros Hk (low & Hm & HV & Hlow & Hs).
  destruct mrs as [m r s]. cbn [shr_m shr_r shr_s] in *.
  rewrite shr_1_spec by assumption. unfold shr_inv. cbn [shr_m shr_r shr_s].
  exists (Z.b2z r * 2 ^ k + low).
  pose proof (Z.div2_odd m) as D.
  assert (P : 0 < 2 ^ k) by (apply Z.pow_pos_nonneg; lia).
  rewrite Z.pow_add_r, Z.pow_1_r by lia.
  split; [|split; [|split]].
  - rewrite Z.div2_div. apply Z.div_pos; lia.
  - rewrite HV. rewrite D at 1. ring.
  - destruct r; cbn [Z.b2z]; lia.
  - destruct r, s; cbn [Z.b2z orb] in *; split; intros; try lia;
      try reflexivity; apply Hs; lia.
Qed.

Lemma shr_inv_iter V p : forall k mrs,
  0 <= k -> shr_inv V k mrs -> shr_inv V (k + Zpos p) (iter_pos shr_1 p mrs).
Proof.
  induction p as [p IH|p IH|]; intros k mrs Hk I; cbn [iter_pos].
  - replace (k + Zpos p~1) with (k + 1 + Zpos p + Zpos p) by lia.
    apply IH; [lia|]. apply IH; [lia|]. now apply shr_inv_step.
  - replace (k + Zpos p~0) with (k + Zpos p + Zpos p) by lia.
    apply IH; [lia|]. now apply IH.
  - now apply shr_inv_step.
Qed.

Lemma shr_inv_start m : 0 <= m -> shr_inv (2 * m) 0 (Build_shr_record m false false).
Proof.
  intros Hm. exists 0. cbn. repeat split; try lia; discriminate.
Qed.

(** Rounding the register to nearest moves the number by at most half a unit
    of the last place kept. *)
Lemma round_nearest_even_bound V n mrs :
  0 <= n ->
  shr_inv V n mrs ->
  let mr := round_nearest_even (shr_m mrs) (loc_of_shr_record mrs) in
  Z.abs (2 * mr * 2 ^ n - V) <= 2 ^ n
  /\ shr_m mrs <= mr <= shr_m mrs + 1
  /\ shr_m mrs * 2 ^ n <= V / 2.
Proof.
  intros Hn (low & Hm & HV & Hlow & Hs).
  destruct mrs as [m r s]. cbn [shr_m shr_r shr_s] in *.
  assert (P : 0 < 2 ^ n) by (apply Z.pow_pos_nonneg; lia).
  assert (Hdiv : m * 2 ^ n <= V / 2).
  { apply Z.div_le_lower_bound; [lia|]. destruct r; cbn [Z.b2z] in HV; nia. }
  destruct r, s; cbn [loc_of_shr_record round_nearest_even Z.b2z] in *.
  - assert (0 < low) by (apply Hs; reflexivity).
    split; [|split; [lia|exact Hdiv]]. apply Z.abs_le. nia.
  - assert (low = 0).
    { destruct (Z.eq_dec low 0); [assumption|].
      assert (false = true) by (apply Hs; lia). discriminate. }
    subst low. destruct (Z.even m); (split; [|split; [lia|exact Hdiv]]);
      apply Z.abs_le; nia.
  - split; [|split; [lia|exact Hdiv]]. apply Z.abs_le. nia.
  - assert (low = 0).
    { destruct (Z.eq_dec low 0); [assumption|].
      assert (false = true) by (apply Hs; lia). discriminate. }
    subst low. split; [|split; [lia|exact Hdiv]]. apply Z.abs_le. nia.
Qed.

Lemma fexp_value e : fexp 53 1024 e = Z.max (e - 53) (-1074).
Proof. reflexivity. Qed.

(** What [binary_round_aux] returns on an exact [m * 2^e]: the number itself
    when it fits, else a mantissa within half a unit of the last place. *)
Lemma binary_round_aux_spec s m e :
  let fe := fexp 53 1024 (Zpos (digits2_pos m) + e) in
  exists mr er,
    binary_round_aux 53 1024 s (Zpos m) e loc_Exact
    = match mr with
      | Z0 => S754_zero s
      | Zpos p => if er <=? 971 then S754_finite s p er else S754_infinity s
      | Zneg _ => S754_nan
      end
    /\ 0 <= mr
    /\ ((fe <= e /\ mr = Zpos m /\ er = e)
        \/ (e < fe /\ fe <= er <= fe + 1
            /\ Z.abs (2 * mr * 2 ^ (er - e) - 2 * Zpos m) <= 2 ^ (fe - e))).
Proof.
  intros fe. unfold binary_round_aux, shr_fexp at 1.
  cbn [Zdigits2 shr_record_of_loc]. fold fe.
  change (1024 - 53) with 971.
  destruct (fe - e) as [|p|p] eqn:N; cbn [shr].
  1,3: exists (Zpos m), e; cbn [shr_m loc_of_shr_record round_nearest_even];
       unfold shr_fexp; cbn [Zdigits2 shr_record_of_loc]; fold fe;
       rewrite N; cbn [shr shr_m];
       (split; [reflexivity|]); (split; [lia|]); left; lia.
  (* a real shift by [p] *)
  pose proof (shr_inv_iter (2 * Zpos m) p 0 _ (Z.le_refl 0)
                (shr_inv_start (Zpos m) ltac:(lia))) as I.
  cbn [Z.add] in I.
  set (mrs := iter_pos shr_1 p
                {| shr_m := Zpos m; shr_r := false; shr_s := false |}) in *.
  destruct (round_nearest_even_bound (2 * Zpos m) (Zpos p) mrs
              (Pos2Z.is_nonneg p) I) as (B & R & D).
  set (mr := round_nearest_even (shr_m mrs) (loc_of_shr_record mrs)) in *.
  replace (2 * Zpos m / 2) with (Zpos m) in D
    by (rewrite Z.mul_comm, Z.div_mul; lia).
  assert (Hfe : fe = e + Zpos p) by lia.
  assert (Hmrs : 0 <= shr_m mrs) by (destruct I as (? & ? & _); assumption).
  pose proof (digits2_upper m) as U.
  assert (Hlt : shr_m mrs < 2 ^ 53).
  { destruct (Z_lt_le_dec (shr_m mrs) (2 ^ 53)) as [|G]; [assumption|].
    exfalso.
    assert (2 ^ Zpos (digits2_pos m) <= 2 ^ (53 + Zpos p)).
    { apply Z.pow_le_mono_r; [lia|]. unfold fe in Hfe.
      rewrite fexp_value in Hfe. lia. }
    rewrite Z.pow_add_r in * by lia.
    assert (0 < 2 ^ Zpos p) by (apply Z.pow_pos_nonneg; lia).
    nia. }
  rewrite <- Hfe.
  unfold shr_fexp.
  destruct mr as [|q|q] eqn:Emr; [| |lia].
  - (* rounded to zero *)
    exists 0, fe. cbn [Zdigits2 shr_record_of_loc Z.add].
    replace (fexp 53 1024 fe - fe) with (Z.max (fe - 53) (-1074) - fe)
      by reflexivity.
    assert (-1074 <= fe) by (unfold fe; rewrite fexp_value; lia).
    destruct (Z.max (fe - 53) (-1074) - fe) as [|p'|p'] eqn:N2; try lia.
    all: cbn [shr shr_m]; (split; [reflexivity|]); (split; [lia|]); right;
         (split; [lia|]); (split; [lia|]);
         replace (fe - e) with (Zpos p) by lia; exact B.
  - cbn [Zdigits2 shr_record_of_loc].
    assert (-1074 <= fe) by (unfold fe; rewrite fexp_value; lia).
    destruct (Z.eq_dec (Zpos q) (2 ^ 53)) as [E53|NE].
    + (* the mantissa overflowed to [2^53]: one more shift *)
      injection E53 as ->.
      exists (2 ^ 52), (fe + 1).
      replace (fexp 53 1024 (Zpos (digits2_pos 9007199254740992) + fe) - fe)
        with 1 by (cbn [digits2_pos Pos.succ]; rewrite fexp_value; lia).
      cbn [shr iter_pos shr_1 shr_m].
      split; [reflexivity|]. split; [lia|]. right.
      split; [lia|]. split; [lia|].
      replace (fe + 1 - e) with (Zpos p + 1) by lia.
      replace (fe - e) with (Zpos p) by lia.
      rewrite Z.pow_add_r by lia.
      replace (2 * 2 ^ 52 * (2 ^ Zpos p * 2 ^ 1))
        with (2 * Zpos 9007199254740992 * 2 ^ Zpos p)
        by (change (Zpos 9007199254740992) with (2 * 2 ^ 52);
            change (2 ^ 1) with 2; ring).
      exact B.
    + exists (Zpos q), fe.
      assert (Hq : Zpos q < 2 ^ 53) by lia.
      assert (Hd : Zpos (digits2_pos q) <= 53).
      { pose proof (digits2_lower q) as L.
        destruct (Z_le_gt_dec (Zpos (digits2_pos q)) 53); [assumption|].
        exfalso.
        assert (2 ^ 53 <= 2 ^ (Zpos (digits2_pos q) - 1))
          by (apply Z.pow_le_mono_r; lia).
        lia. }
      replace (fexp 53 1024 (Zpos (digits2_pos q) + fe) - fe)
        with (Z.max (Zpos (digits2_pos q) + fe - 53) (-1074) - fe)
        by reflexivity.
      destruct (Z.max (Zpos (digits2_pos q) + fe - 53) (-1074) - fe)
        as [|p'|p'] eqn:N2; try lia;
        cbn [shr shr_m]; (split; [reflexivity|]); (split; [lia|]); right;
        (split; [lia|]); (split; [lia|]);
        replace (fe - e) with (Zpos p) by lia; exact B.
Qed.

(** ** The rational value of a double *)

Lemma pow2_pos e : (0 < pow2 e)%Q.
Proof. apply Qpower_0_lt. reflexivity. Qed.

Lemma pow2_add a b : (pow2 (a + b) == pow2 a * pow2 b)%Q.
Proof. apply Qpower_plus. discriminate. Qed.

Lemma pow2_nonneg e : 0 <= e -> (pow2 e == inject_Z (2 ^ e))%Q.
Proof. intros He. unfold pow2. now rewrite Zpower_Qpower. Qed.

Lemma pow2_le a b : a <= b -> (pow2 a <= pow2 b)%Q.
Proof. intros L. apply Qpower_le_compat_l; [assumption|discriminate]. Qed.

Lemma pow2_lt a b : a < b -> (pow2 a < pow2 b)%Q.
Proof. intros L. apply Qpower_lt_compat_l; [assumption|reflexivity]. Qed.

Lemma pow2_lt_inv a b : (pow2 a < pow2 b)%Q -> a < b.
Proof. intros L. eapply Qpower_lt_compat_l_inv; [exact L|reflexivity]. Qed.

Lemma pow2_half e : (pow2 (e - 1) == pow2 e * (1 # 2))%Q.
Proof.
  unfold pow2. rewrite Qpower_minus by discriminate. reflexivity.
Qed.

Lemma u_pow2 : (u == pow2 (-53))%Q.
Proof. reflexivity. Qed.

Lemma to_Q_finite s m e :
  (PyFloat.to_Q (S754_finite s m e)
   == inject_Z (cond_Zopp s (Zpos m)) * pow2 e)%Q.
Proof.
  cbn [PyFloat.to_Q]. destruct e as [|p|p].
  - unfold pow2. cbn [Qpower]. rewrite Z.pow_0_r, Z.mul_1_r. ring.
  - rewrite pow2_nonneg by lia.
    destruct s; cbn [cond_Zopp];
      rewrite ?inject_Z_opp, inject_Z_mult, ?inject_Z_opp; ring.
  - rewrite Qmake_Qdiv. unfold pow2.
    change (Zneg p) with (- Zpos p). rewrite Qpower_opp.
    assert (E : (2 ^ Zpos p == inject_Z (Zpos (2 ^ p)))%Q).
    { rewrite Pos2Z.inj_pow. symmetry. apply Zpower_Qpower. lia. }
    rewrite E. reflexivity.
Qed.

Lemma inject_Z_cond_Zopp s z :
  (inject_Z (cond_Zopp s z) == (if s then - inject_Z z else inject_Z z))%Q.
Proof.
  destruct s; cbn [cond_Zopp]; [rewrite inject_Z_opp|]; reflexivity.
Qed.

Lemma digits2_value_lower m e :
  (pow2 (Zpos (digits2_pos m) - 1 + e) <= inject_Z (Zpos m) * pow2 e)%Q.
Proof.
  rewrite pow2_add.
  apply Qmult_le_compat_r; [|apply Qlt_le_weak, pow2_pos].
  rewrite pow2_nonneg by lia. rewrite <- Zle_Qle. apply digits2_lower.
Qed.

Lemma digits2_value_upper m e :
  (inject_Z (Zpos m) * pow2 e < pow2 (Zpos (digits2_pos m) + e))%Q.
Proof.
  rewrite pow2_add.
  apply Qmult_lt_compat_r; [apply pow2_pos|].
  rewrite pow2_nonneg by lia. rewrite <- Zlt_Qlt. apply digits2_upper.
Qed.

(** From an integer bound on the doubled distance to a rational bound. *)
Lemma scaled_distance mr m K N e :
  0 <= K -> 0 < N ->
  Z.abs (2 * mr * 2 ^ K - 2 * m) <= 2 ^ N ->
  (Qabs (inject_Z mr * pow2 (e + K) - inject_Z m * pow2 e)
   <= pow2 (e + N - 1))%Q.
Proof.
  intros HK HN B. apply Z.abs_le in B.
  rewrite pow2_half, !pow2_add, (pow2_nonneg K), (pow2_nonneg N) by lia.
  pose proof (pow2_pos e) as Pe.
  assert (B1 : (- inject_Z (2 ^ N)
                <= 2 * inject_Z mr * inject_Z (2 ^ K) - 2 * inject_Z m)%Q).
  { change 2%Q with (inject_Z 2). rewrite <- !inject_Z_mult, <- inject_Z_opp.
    unfold Qminus. rewrite <- inject_Z_opp, <- inject_Z_plus, <- Zle_Qle.
    lia. }
  assert (B2 : (2 * inject_Z mr * inject_Z (2 ^ K) - 2 * inject_Z m
                <= inject_Z (2 ^ N))%Q).
  { change 2%Q with (inject_Z 2). rewrite <- !inject_Z_mult.
    unfold Qminus. rewrite <- inject_Z_opp, <- inject_Z_plus, <- Zle_Qle.
    lia. }
  set (a := inject_Z mr) in *. set (b := inject_Z m) in *.
  set (k := inject_Z (2 ^ K)) in *. set (n := inject_Z (2 ^ N)) in *.
  set (p := pow2 e) in *. clearbody a b k n p.
  apply Qabs_Qle_condition. split.
  - setoid_replace (a * (p * k) - b * p)%Q
      with (p * ((2 * a * k - 2 * b) * (1 # 2)))%Q by ring.
    setoid_replace (- (p * n * (1 # 2)))%Q with (p * (- n * (1 # 2)))%Q
      by ring.
    apply Qmult_le_l; [exact Pe|]. lra.
  - setoid_replace (a * (p * k) - b * p)%Q
      with (p * ((2 * a * k - 2 * b) * (1 # 2)))%Q by ring.
    setoid_replace (p * n * (1 # 2))%Q with (p * (n * (1 # 2)))%Q by ring.
    apply Qmult_le_l; [exact Pe|]. lra.
Qed.

(** The value [binary_round_aux] returns for an exact [m * 2^e] of moderate
    size: the number itself when it fits, else within half a unit of the last
    place. *)
Lemma binary_round_aux_value s m e :
  let v := (inject_Z (Zpos m) * pow2 e)%Q in
  let fe := fexp 53 1024 (Zpos (digits2_pos m) + e) in
  let r := binary_round_aux 53 1024 s (Zpos m) e loc_Exact in
  e <= 971 -> (v < pow2 1000)%Q ->
  PyFloat.is_finite r = true
  /\ ((fe <= e /\ (PyFloat.to_Q r == if s then - v else v)%Q)
      \/ (e < fe
          /\ (Qabs (PyFloat.to_Q r - (if s then - v else v))
              <= pow2 (fe - 1))%Q)).
Proof.
  intros v fe r He Hv.
  destruct (binary_round_aux_spec s m e) as (mr & er & E & Hmr & C).
  fold fe in C. fold r in E.
  assert (Hd : Zpos (digits2_pos m) - 1 + e < 1000).
  { apply pow2_lt_inv. eapply Qle_lt_trans; [|exact Hv].
    apply digits2_value_lower. }
  assert (Hfe : fe <= 947) by (unfold fe; rewrite fexp_value; lia).
  destruct C as [(L & -> & ->)|(L & Her & B)].
  - assert (T : (e <=? 971) = true) by (apply Z.leb_le; lia).
    rewrite T in E. rewrite E. split; [reflexivity|]. left.
    split; [assumption|]. rewrite to_Q_finite, inject_Z_cond_Zopp.
    unfold v. destruct s; ring.
  - assert (T : (er <=? 971) = true) by (apply Z.leb_le; lia).
    pose proof (scaled_distance mr (Zpos m) (er - e) (fe - e) e
                  ltac:(lia) ltac:(lia) B) as D.
    replace (e + (er - e)) with er in D by lia.
    replace (e + (fe - e) - 1) with (fe - 1) in D by lia.
    fold v in D.
    destruct mr as [|q|q]; [| |lia].
    + rewrite E. split; [reflexivity|]. right. split; [assumption|].
      cbn [PyFloat.to_Q].
      setoid_replace (inject_Z 0 * pow2 er - v)%Q with (- v)%Q in D
        by (unfold inject_Z; ring).
      destruct s.
      * setoid_replace (0 - - v)%Q with (- - v)%Q by ring.
        rewrite Qabs_opp. exact D.
      * setoid_replace (0 - v)%Q with (- v)%Q by ring. exact D.
    + rewrite T in E. rewrite E. split; [reflexivity|]. right.
      split; [assumption|].
      rewrite to_Q_finite, inject_Z_cond_Zopp.
      destruct s.
      * setoid_replace (- inject_Z (Zpos q) * pow2 er - - v)%Q
          with (- (inject_Z (Zpos q) * pow2 er - v))%Q by ring.
        rewrite Qabs_opp. exact D.
      * exact D.
Qed.

(** The same bound, in units of the value: rounding moves [v] by at most
    [u * (v + 1)]. *)
Lemma binary_round_aux_error s m e :
  let v := (inject_Z (Zpos m) * pow2 e)%Q in
  let r := binary_round_aux 53 1024 s (Zpos m) e loc_Exact in
  53 <= Zpos (digits2_pos m) \/ e <= 947 ->
  (v < pow2 1000)%Q ->
  PyFloat.is_finite r = true
  /\ (Qabs (PyFloat.to_Q r - (if s then - v else v)) <= u * (v + 1))%Q.
Proof.
  intros v r Hde Hv.
  assert (Hd : Zpos (digits2_pos m) - 1 + e < 1000).
  { apply pow2_lt_inv. eapply Qle_lt_trans; [|exact Hv].
    apply digits2_value_lower. }
  assert (He : e <= 971) by lia.
  destruct (binary_round_aux_value s m e He Hv) as (F & C).
  fold r in F, C. fold v in C. split; [exact F|].
  assert (Pv : (0 < v)%Q).
  { unfold v. apply Qmult_lt_0_compat; [reflexivity|apply pow2_pos]. }
  assert (Pu : (0 < u)%Q) by reflexivity.
  destruct C as [(_ & ->)|(L & B)].
  - setoid_replace ((if s then - v else v) - (if s then - v else v))%Q
      with 0%Q by (destruct s; ring).
    cbn [Qabs Z.abs Qnum Qden]. nra.
  - eapply Qle_trans; [exact B|].
    rewrite fexp_value.
    destruct (Z.max_spec (Zpos (digits2_pos m) + e - 53) (-1074))
      as [(_ & ->)|(_ & ->)].
    + (* the smallest exponent *)
      assert (pow2 (-1074 - 1) <= u)%Q.
      { rewrite u_pow2. apply pow2_le. lia. }
      nra.
    + pose proof (digits2_value_lower m e) as LB. fold v in LB.
      replace (Zpos (digits2_pos m) + e - 53 - 1)
        with (-53 + (Zpos (digits2_pos m) - 1 + e)) by lia.
      rewrite pow2_add, <- u_pow2.
      set (w := pow2 (Zpos (digits2_pos m) - 1 + e)) in *. clearbody w.
      nra.
Qed.

Lemma iter_xO_value m k :
  Zpos (Pos.iter xO m k) = Zpos m * 2 ^ Zpos k
  /\ digits2_pos (Pos.iter xO m k) = (digits2_pos m + k)%positive.
Proof.
  induction k as [|k [IH1 IH2]] using Pos.peano_ind.
  - cbn [Pos.iter]. split; [rewrite Pos2Z.inj_xO; cbn; lia|].
    cbn [digits2_pos]. lia.
  - rewrite Pos.iter_succ. split.
    + rewrite Pos2Z.inj_xO, IH1, Pos2Z.inj_succ, Z.pow_succ_r by lia. ring.
    + cbn [digits2_pos]. rewrite IH2. lia.
Qed.

(** Aligning a mantissa to a lower exponent keeps the value. *)
Lemma shl_align_value m e e0 :
  let mz := fst (shl_align m e e0) in
  let ez := snd (shl_align m e e0) in
  (inject_Z (Zpos mz) * pow2 ez == inject_Z (Zpos m) * pow2 e)%Q
  /\ Zpos (digits2_pos mz) + ez = Zpos (digits2_pos m) + e
  /\ ez = Z.min e e0.
Proof.
  unfold shl_align. destruct (e0 - e) as [|k|k] eqn:D; cbn [fst snd].
  - split; [reflexivity|]. split; lia.
  - split; [reflexivity|]. split; lia.
  - destruct (iter_xO_value m k) as [V Dg]. rewrite V, Dg.
    split; [|split; lia].
    replace e with (Zpos k + e0) by lia.
    rewrite pow2_add, inject_Z_mult, (pow2_nonneg (Zpos k)) by lia. ring.
Qed.

(** The value, and the error, of normalising an exact [z * 2^e]. *)
Lemma binary_normalize_error z e :
  let q := (inject_Z z * pow2 e)%Q in
  let r := binary_normalize 53 1024 z e false in
  (Qabs q < pow2 1000)%Q ->
  PyFloat.is_finite r = true
  /\ (Qabs (PyFloat.to_Q r - q) <= u * (Qabs q + 1))%Q.
Proof.
  intros q r Hq.
  assert (Pu : (0 < u)%Q) by reflexivity.
  assert (R : forall s p,
    let v := (inject_Z (Zpos p) * pow2 e)%Q in
    (v < pow2 1000)%Q ->
    PyFloat.is_finite (binary_round 53 1024 s p e) = true
    /\ (Qabs (PyFloat.to_Q (binary_round 53 1024 s p e)
              - (if s then - v else v)) <= u * (v + 1))%Q).
  { intros s p v Hv. unfold binary_round.
    destruct (shl_align_value p e
                (fexp 53 1024 (Zpos (digits2_pos p) + e))) as (V & Dg & M).
    destruct (shl_align p e (fexp 53 1024 (Zpos (digits2_pos p) + e)))
      as [mz ez]. cbn [fst snd] in *.
    assert (Hd : Zpos (digits2_pos p) - 1 + e < 1000).
    { apply pow2_lt_inv. eapply Qle_lt_trans; [|exact Hv].
      apply digits2_value_lower. }
    assert (Hez : ez <= 947) by (rewrite fexp_value in M; lia).
    destruct (binary_round_aux_error s mz ez (or_intror Hez)) as (F & B).
    { rewrite V. exact Hv. }
    split; [exact F|]. unfold v. destruct s; rewrite <- V; exact B. }
  unfold r, binary_normalize. destruct z as [|p|p].
  - split; [reflexivity|]. unfold q. cbn [PyFloat.to_Q].
    setoid_replace (0 - inject_Z 0 * pow2 e)%Q with 0%Q
      by (unfold inject_Z; ring).
    cbn [Qabs Z.abs Qnum Qden]. pose proof (Qabs_nonneg (0 * pow2 e)). nra.
  - assert (Pq : (0 < q)%Q).
    { unfold q. apply Qmult_lt_0_compat; [reflexivity|apply pow2_pos]. }
    rewrite (Qabs_pos q) in * by lra. exact (R false p Hq).
  - assert (Pq : (q < 0)%Q).
    { unfold q. change (inject_Z (Zneg p)) with (- inject_Z (Zpos p))%Q.
      pose proof (pow2_pos e).
      assert (0 < inject_Z (Zpos p))%Q by reflexivity. nra. }
    rewrite (Qabs_neg q) in * by lra.
    assert (Eq : (- q == inject_Z (Zpos p) * pow2 e)%Q).
    { unfold q. change (inject_Z (Zneg p)) with (- inject_Z (Zpos p))%Q.
      ring. }
    destruct (R true p) as (F & B); [rewrite <- Eq; exact Hq|].
    split; [exact F|]. rewrite <- Eq in B.
    setoid_replace (- - q)%Q with q in B by ring. exact B.
Qed.

(** ** The operations of the converter, as rationals *)

Lemma of_int_exact z :
  Z.abs z < 2 ^ 53 ->
  exists r,
    PyFloat.of_int z = ok r
    /\ (PyFloat.to_Q r == inject_Z z)%Q
    /\ PyFloat.is_finite r = true
    /\ normal_or_zero r.
Proof.
  intros Hz.
  assert (R : forall s p,
    Zpos p < 2 ^ 53 ->
    exists m e,
      binary_round 53 1024 s p 0 = S754_finite s m e
      /\ Zpos (digits2_pos m) = 53
      /\ (inject_Z (Zpos m) * pow2 e == inject_Z (Zpos p))%Q).
  { intros s p Hp. unfold binary_round.
    assert (Hd : Zpos (digits2_pos p) <= 53).
    { pose proof (digits2_lower p) as L.
      destruct (Z_le_gt_dec (Zpos (digits2_pos p)) 53); [assumption|].
      exfalso.
      assert (2 ^ 53 <= 2 ^ (Zpos (digits2_pos p) - 1))
        by (apply Z.pow_le_mono_r; lia).
      lia. }
    destruct (shl_align_value p 0
                (fexp 53 1024 (Zpos (digits2_pos p) + 0))) as (V & Dg & M).
    destruct (shl_align p 0 (fexp 53 1024 (Zpos (digits2_pos p) + 0)))
      as [mz ez]. cbn [fst snd] in *. rewrite fexp_value in M.
    destruct (binary_round_aux_spec s mz ez) as (mr & er & E & _ & C).
    rewrite fexp_value in C.
    destruct C as [(_ & -> & ->)|(L & _)]; [|lia].
    assert (T : (ez <=? 971) = true) by (apply Z.leb_le; lia).
    rewrite T in E. exists mz, ez. split; [exact E|]. split; [lia|].
    rewrite V. unfold pow2. cbn [Qpower]. ring. }
  unfold PyFloat.of_int, binary_normalize, PyFloat.prec, PyFloat.emax.
  destruct z as [|p|p].
  - exists (S754_zero false). repeat split.
  - destruct (R false p) as (m & e & -> & D & V); [lia|].
    exists (S754_finite false m e). split; [reflexivity|].
    split; [|split; [reflexivity|exact D]].
    rewrite to_Q_finite. cbn [cond_Zopp]. exact V.
  - destruct (R true p) as (m & e & -> & D & V); [lia|].
    exists (S754_finite true m e). split; [reflexivity|].
    split; [|split; [reflexivity|exact D]].
    rewrite to_Q_finite. cbn [cond_Zopp].
    change (inject_Z (Zneg p)) with (- inject_Z (Zpos p))%Q.
    rewrite <- V. change (inject_Z (- Zpos m)) with (- inject_Z (Zpos m))%Q.
    ring.
Qed.

Lemma to_Q_abs_finite s m e :
  (Qabs (PyFloat.to_Q (S754_finite s m e)) == inject_Z (Zpos m) * pow2 e)%Q.
Proof.
  rewrite to_Q_finite, inject_Z_cond_Zopp.
  assert (0 < inject_Z (Zpos m) * pow2 e)%Q
    by (apply Qmult_lt_0_compat; [reflexivity|apply pow2_pos]).
  destruct s.
  - setoid_replace (- inject_Z (Zpos m) * pow2 e)%Q
      with (- (inject_Z (Zpos m) * pow2 e))%Q by ring.
    rewrite Qabs_opp. apply Qabs_pos. lra.
  - apply Qabs_pos. lra.
Qed.


Lemma error_of_exact (q : Q) : (Qabs (q - q) <= u * (Qabs q + 1))%Q.
Proof.
  setoid_replace (q - q)%Q with 0%Q by ring.
  assert (0 < u)%Q by reflexivity.
  pose proof (Qabs_nonneg q). cbn [Qabs Z.abs Qnum Qden]. nra.
Qed.

Lemma mul_error a b :
  normal_or_zero a ->
  PyFloat.is_finite b = true ->
  (Qabs (PyFloat.to_Q a * PyFloat.to_Q b) < pow2 1000)%Q ->
  PyFloat.is_finite (PyFloat.mul a b) = true
  /\ (Qabs (PyFloat.to_Q (PyFloat.mul a b)
            - PyFloat.to_Q a * PyFloat.to_Q b)
      <= u * (Qabs (PyFloat.to_Q a * PyFloat.to_Q b) + 1))%Q.
Proof.
  intros Na Fb Hv.
  destruct a as [sa|sa| |sa ma ea]; try contradiction;
    destruct b as [sb|sb| |sb mb eb]; try discriminate.
  1-3: split; [reflexivity|];
       unfold PyFloat.mul; cbn [SFmul PyFloat.to_Q];
       match goal with
       | |- (Qabs (0 - ?q) <= u * (Qabs ?q + 1))%Q =>
           setoid_replace q with 0%Q by ring; apply (error_of_exact 0)
       end.
  cbn [normal_or_zero] in Na.
  unfold PyFloat.mul, PyFloat.prec, PyFloat.emax. cbn [SFmul].
  set (v := (inject_Z (Zpos (ma * mb)) * pow2 (ea + eb))%Q).
  assert (Ev : (PyFloat.to_Q (S754_finite sa ma ea)
                * PyFloat.to_Q (S754_finite sb mb eb)
                == if xorb sa sb then - v else v)%Q).
  { rewrite !to_Q_finite, !inject_Z_cond_Zopp. unfold v.
    destruct sa, sb; cbn [xorb];
      rewrite Pos2Z.inj_mul, inject_Z_mult, pow2_add; ring. }
  assert (Pv : (0 < v)%Q).
  { unfold v. apply Qmult_lt_0_compat; [reflexivity|apply pow2_pos]. }
  assert (Av : (Qabs (PyFloat.to_Q (S754_finite sa ma ea)
                      * PyFloat.to_Q (S754_finite sb mb eb)) == v)%Q).
  { rewrite Ev. destruct (xorb sa sb); [rewrite Qabs_opp|];
      apply Qabs_pos; lra. }
  assert (Hd : 53 <= Zpos (digits2_pos (ma * mb))).
  { pose proof (digits2_lower ma) as L. rewrite Na in L.
    pose proof (digits2_upper (ma * mb)) as U.
    assert (Zpos ma <= Zpos (ma * mb)) by (rewrite Pos2Z.inj_mul; nia).
    destruct (Z_le_gt_dec 53 (Zpos (digits2_pos (ma * mb))));
      [assumption|]. exfalso.
    assert (2 ^ Zpos (digits2_pos (ma * mb)) <= 2 ^ (53 - 1))
      by (apply Z.pow_le_mono_r; lia).
    lia. }
  destruct (binary_round_aux_error (xorb sa sb) (ma * mb) (ea + eb)
              (or_introl Hd)) as (F & B).
  { fold v. rewrite <- Av. exact Hv. }
  fold v in B. split; [exact F|]. rewrite Av, Ev. exact B.
Qed.

(** Sum and difference share [binary_normalize]. *)
Lemma aligned_sum_value sx mx ex sy my ey :
  let ez := Z.min ex ey in
  (inject_Z (cond_Zopp sx (Zpos (fst (shl_align mx ex ez)))
             + cond_Zopp sy (Zpos (fst (shl_align my ey ez))))
   * pow2 ez
   == PyFloat.to_Q (S754_finite sx mx ex)
      + PyFloat.to_Q (S754_finite sy my ey))%Q.
Proof.
  intros ez.
  destruct (shl_align_value mx ex ez) as (Vx & _ & Ex).
  destruct (shl_align_value my ey ez) as (Vy & _ & Ey).
  replace (Z.min ex ez) with ez in Ex by (unfold ez; lia).
  replace (Z.min ey ez) with ez in Ey by (unfold ez; lia).
  rewrite Ex in Vx. rewrite Ey in Vy.
  rewrite !to_Q_finite, inject_Z_plus, !inject_Z_cond_Zopp.
  destruct sx, sy.
  - setoid_replace (- inject_Z (Zpos mx) * pow2 ex
                    + - inject_Z (Zpos my) * pow2 ey)%Q
      with (- (inject_Z (Zpos mx) * pow2 ex)
            + - (inject_Z (Zpos my) * pow2 ey))%Q by ring.
    rewrite <- Vx, <- Vy. ring.
  - setoid_replace (- inject_Z (Zpos mx) * pow2 ex
                    + inject_Z (Zpos my) * pow2 ey)%Q
      with (- (inject_Z (Zpos mx) * pow2 ex)
            + (inject_Z (Zpos my) * pow2 ey))%Q by ring.
    rewrite <- Vx, <- Vy. ring.
  - setoid_replace (inject_Z (Zpos mx) * pow2 ex
                    + - inject_Z (Zpos my) * pow2 ey)%Q
      with ((inject_Z (Zpos mx) * pow2 ex)
            + - (inject_Z (Zpos my) * pow2 ey))%Q by ring.
    rewrite <- Vx, <- Vy. ring.
  - rewrite <- Vx, <- Vy. ring.
Qed.

Lemma add_error a b :
  PyFloat.is_finite a = true ->
  PyFloat.is_finite b = true ->
  (Qabs (PyFloat.to_Q a + PyFloat.to_Q b) < pow2 1000)%Q ->
  PyFloat.is_finite (PyFloat.add a b) = true
  /\ (Qabs (PyFloat.to_Q (PyFloat.add a b)
            - (PyFloat.to_Q a + PyFloat.to_Q b))
      <= u * (Qabs (PyFloat.to_Q a + PyFloat.to_Q b) + 1))%Q.
Proof.
  intros Fa Fb Hv.
  destruct a as [sa|sa| |sa ma ea]; try discriminate;
    destruct b as [sb|sb| |sb mb eb]; try discriminate.
  - split; [destruct sa, sb; reflexivity|].
    assert (E : PyFloat.to_Q (PyFloat.add (S754_zero sa) (S754_zero sb))
                = 0%Q) by (destruct sa, sb; reflexivity).
    rewrite E. cbn [PyFloat.to_Q].
    setoid_replace (0 + 0)%Q with 0%Q by ring. apply (error_of_exact 0).
  - split; [reflexivity|]. unfold PyFloat.add. cbn [SFadd].
    change (PyFloat.to_Q (S754_zero sa)) with 0%Q.
    setoid_replace (0 + PyFloat.to_Q (S754_finite sb mb eb))%Q
      with (PyFloat.to_Q (S754_finite sb mb eb)) by ring.
    apply error_of_exact.
  - split; [reflexivity|]. unfold PyFloat.add. cbn [SFadd].
    change (PyFloat.to_Q (S754_zero sb)) with 0%Q.
    setoid_replace (PyFloat.to_Q (S754_finite sa ma ea) + 0)%Q
      with (PyFloat.to_Q (S754_finite sa ma ea)) by ring.
    apply error_of_exact.
  - unfold PyFloat.add, PyFloat.prec, PyFloat.emax. cbn [SFadd].
    pose proof (aligned_sum_value sa ma ea sb mb eb) as V. cbv zeta in V.
    set (z := cond_Zopp sa (Zpos (fst (shl_align ma ea (Z.min ea eb))))
              + cond_Zopp sb (Zpos (fst (shl_align mb eb (Z.min ea eb)))))
      in *.
    destruct (binary_normalize_error z (Z.min ea eb)) as (F & B).
    { rewrite V. exact Hv. }
    split; [exact F|]. rewrite V in B. exact B.
Qed.

Lemma to_Q_opp a : (PyFloat.to_Q (SFopp a) == - PyFloat.to_Q a)%Q.
Proof.
  destruct a as [s|s| |s m e]; cbn [SFopp]; try reflexivity.
  rewrite !to_Q_finite, !inject_Z_cond_Zopp. destruct s; cbn [negb]; ring.
Qed.

Lemma sub_as_add a b :
  PyFloat.is_finite a = true ->
  PyFloat.is_finite b = true ->
  (PyFloat.to_Q (PyFloat.sub a b)
   == PyFloat.to_Q (PyFloat.add a (SFopp b)))%Q
  /\ PyFloat.is_finite (PyFloat.sub a b)
     = PyFloat.is_finite (PyFloat.add a (SFopp b)).
Proof.
  intros Fa Fb.
  destruct a as [sa|sa| |sa ma ea]; try discriminate;
    destruct b as [sb|sb| |sb mb eb]; try discriminate.
  - destruct sa, sb; split; reflexivity.
  - split; reflexivity.
  - split; reflexivity.
  - unfold PyFloat.sub, PyFloat.add. cbn [SFsub SFadd SFopp].
    assert (E : forall z, z - cond_Zopp sb (Zpos (fst (shl_align mb eb (Z.min ea eb))))
              = z + cond_Zopp (negb sb)
                      (Zpos (fst (shl_align mb eb (Z.min ea eb))))).
    { intros z. destruct sb; cbn [negb cond_Zopp]; lia. }
    rewrite E. split; reflexivity.
Qed.

Lemma sub_error a b :
  PyFloat.is_finite a = true ->
  PyFloat.is_finite b = true ->
  (Qabs (PyFloat.to_Q a - PyFloat.to_Q b) < pow2 1000)%Q ->
  PyFloat.is_finite (PyFloat.sub a b) = true
  /\ (Qabs (PyFloat.to_Q (PyFloat.sub a b)
            - (PyFloat.to_Q a - PyFloat.to_Q b))
      <= u * (Qabs (PyFloat.to_Q a - PyFloat.to_Q b) + 1))%Q.
Proof.
  intros Fa Fb Hv.
  destruct (sub_as_add a b Fa Fb) as (E & F).
  assert (Fo : PyFloat.is_finite (SFopp b) = true)
    by (destruct b; try discriminate; reflexivity).
  destruct (add_error a (SFopp b) Fa Fo) as (F' & B).
  { rewrite to_Q_opp. exact Hv. }
  split; [congruence|]. rewrite E. rewrite to_Q_opp in B. exact B.
Qed.

(** ** The drift of the converter *)

Lemma Qabs_cases (t : Q) :
  (0 <= t /\ Qabs t == t)%Q \/ (t <= 0 /\ Qabs t == - t)%Q.
Proof.
  destruct (Qlt_le_dec t 0) as [L|L].
  - right. split; [lra|]. apply Qabs_neg. lra.
  - left. split; [assumption|]. now apply Qabs_pos.
Qed.

(** Replaces every absolute value by a fresh variable and its two cases. *)
Ltac qabs :=
  repeat match goal with
         | |- context [Qabs ?t] =>
             let a := fresh "a" in
             let Ha := fresh "Ha" in
             destruct (Qabs_cases t) as [[? Ha]|[? Ha]];
             set (a := Qabs t) in *; clearbody a
         | H : context [Qabs ?t] |- _ =>
             let a := fresh "a" in
             let Ha := fresh "Ha" in
             destruct (Qabs_cases t) as [[? Ha]|[? Ha]];
             set (a := Qabs t) in *; clearbody a
         end.

Lemma round_error y :
  PyFloat.is_finite y = true ->
  exists val,
    PyFloat.round y = ok val
    /\ (Qabs (inject_Z val - PyFloat.to_Q y) <= 1 # 2)%Q.
Proof.
  intros F. destruct y as [s|s| |s m e]; try discriminate.
  { exists 0. split; [reflexivity|]. cbn. discriminate. }
  exists (cond_Zopp s (PyFloat.round_half_even_pos m e)).
  split; [reflexivity|].
  assert (D : (Qabs (inject_Z (PyFloat.round_half_even_pos m e)
                     - inject_Z (Zpos m) * pow2 e) <= 1 # 2)%Q).
  { destruct e as [|p|k].
    - unfold PyFloat.round_half_even_pos, pow2. cbn [Qpower].
      rewrite Z.pow_0_r, Z.mul_1_r.
      setoid_replace (inject_Z (Zpos m) - inject_Z (Zpos m) * 1)%Q
        with 0%Q by ring. discriminate.
    - unfold PyFloat.round_half_even_pos.
      rewrite inject_Z_mult, <- pow2_nonneg by lia.
      setoid_replace (inject_Z (Zpos m) * pow2 (Zpos p)
                      - inject_Z (Zpos m) * pow2 (Zpos p))%Q
        with 0%Q by ring. discriminate.
    - set (val := PyFloat.round_half_even_pos m (Zneg k)).
      assert (B : Z.abs (2 * val * 2 ^ Zpos k - 2 * Zpos m) <= 2 ^ Zpos k).
      { unfold val, PyFloat.round_half_even_pos.
        change (Z.pow_pos 2 k) with (2 ^ Zpos k).
        assert (P : 0 < 2 ^ Zpos k) by (apply Z.pow_pos_nonneg; lia).
        pose proof (Z.div_mod (Zpos m) (2 ^ Zpos k) ltac:(lia)) as DM.
        pose proof (Z.mod_pos_bound (Zpos m) (2 ^ Zpos k) P) as MB.
        set (q := Zpos m / 2 ^ Zpos k) in *.
        set (r := Zpos m mod 2 ^ Zpos k) in *.
        destruct (2 * r ?= 2 ^ Zpos k) eqn:C.
        - apply Z.compare_eq in C.
          destruct (Z.even q); apply Z.abs_le; nia.
        - rewrite Z.compare_lt_iff in C. apply Z.abs_le. nia.
        - rewrite Z.compare_gt_iff in C. apply Z.abs_le. nia. }
      pose proof (scaled_distance val (Zpos m) (Zpos k) (Zpos k) (Zneg k)
                    ltac:(lia) ltac:(lia) B) as S.
      replace (Zneg k + Zpos k) with 0 in S by lia.
      replace (0 - 1) with (-1) in S by lia.
      unfold pow2 at 1 3 in S. cbn [Qpower Qpower_positive Qinv] in S.
      setoid_replace (inject_Z val * 1)%Q with (inject_Z val) in S by ring.
      exact S. }
  rewrite to_Q_finite, !inject_Z_cond_Zopp.
  destruct s.
  - setoid_replace (- inject_Z (PyFloat.round_half_even_pos m e)
                    - - inject_Z (Zpos m) * pow2 e)%Q
      with (- (inject_Z (PyFloat.round_half_even_pos m e)
               - inject_Z (Zpos m) * pow2 e))%Q by ring.
    rewrite Qabs_opp. exact D.
  - exact D.
Qed.

Lemma pow2_48 : (pow2 48 == 281474976710656)%Q.
Proof. reflexivity. Qed.

Lemma pow2_50_lt : (1125899906842624 < pow2 1000)%Q.
Proof.
  setoid_replace (1125899906842624)%Q with (pow2 50) by reflexivity.
  apply pow2_lt. lia.
Qed.

(** The arithmetic of one turn: with every operation within its rounding
    error, the emitted value and the new remainder account for the scaled
    input and the old remainder up to [u * (5 A + 7)]. *)
Lemma step_arith (t rho p y v rho' A : Q) :
  (0 <= A <= 281474976710656)%Q ->
  (Qabs t <= A)%Q ->
  (Qabs rho <= 3 # 4)%Q ->
  (Qabs (p - t) <= u * (Qabs t + 1))%Q ->
  (Qabs (y - (p + rho)) <= u * (Qabs (p + rho) + 1))%Q ->
  (Qabs (v - y) <= 1 # 2)%Q ->
  (Qabs (rho' - (y - v)) <= u * (Qabs (y - v) + 1))%Q ->
  (Qabs (v + rho' - (t + rho)) <= u * (5 * A + 7))%Q
  /\ (Qabs rho' <= 3 # 4)%Q
  /\ (Qabs v <= 562949953421312)%Q.
Proof.
  unfold u. intros HA Ht Hr Hp Hy Hv Hr'.
  qabs; repeat split; lra.
Qed.

Lemma step_arith_value (t rho p y v A : Q) :
  (0 <= A <= 281474976710656)%Q ->
  (Qabs t <= A)%Q ->
  (Qabs rho <= 3 # 4)%Q ->
  (Qabs (p - t) <= u * (Qabs t + 1))%Q ->
  (Qabs (y - (p + rho)) <= u * (Qabs (p + rho) + 1))%Q ->
  (Qabs (v - y) <= 1 # 2)%Q ->
  (Qabs (p + rho) <= 562949953421312)%Q
  /\ (Qabs v <= 562949953421312)%Q
  /\ (Qabs (y - v) <= 1 # 2)%Q.
Proof.
  unfold u. intros HA Ht Hr Hp Hy Hv.
  qabs; repeat split; lra.
Qed.

Lemma Qabs_inject_Z z : (Qabs (inject_Z z) == inject_Z (Z.abs z))%Q.
Proof.
  destruct z as [|p|p]; cbn [Z.abs]; try reflexivity.
Qed.

Lemma positive_finite_value factor :
  positive_finite factor = true ->
  (0 < PyFloat.to_Q factor)%Q /\ PyFloat.is_finite factor = true.
Proof.
  destruct factor as [s|s| |[] m e]; try discriminate. intros _.
  split; [|reflexivity]. rewrite to_Q_finite. cbn [cond_Zopp].
  apply Qmult_lt_0_compat; [reflexivity|apply pow2_pos].
Qed.

(** One turn of the converter, on doubles. *)
Lemma convert_step_error factor rem x :
  positive_finite factor = true ->
  PyFloat.is_finite rem = true ->
  Z.abs x < 2 ^ 53 ->
  (Qabs (PyFloat.to_Q rem) <= 3 # 4)%Q ->
  (inject_Z (Z.abs x) * PyFloat.to_Q factor <= 281474976710656)%Q ->
  exists val rem',
    convert_step factor rem x = ok (val, rem')
    /\ PyFloat.is_finite rem' = true
    /\ (Qabs (PyFloat.to_Q rem') <= 3 # 4)%Q
    /\ (Qabs (inject_Z val + PyFloat.to_Q rem'
              - (inject_Z x * PyFloat.to_Q factor + PyFloat.to_Q rem))
        <= u * (5 * (inject_Z (Z.abs x) * PyFloat.to_Q factor) + 7))%Q.
Proof.
  intros Pf Fr Hx Hr HA.
  destruct (positive_finite_value factor Pf) as (Pos & Ff).
  set (f := PyFloat.to_Q factor) in *.
  set (rho := PyFloat.to_Q rem) in *.
  set (A := (inject_Z (Z.abs x) * f)%Q) in *.
  assert (A0 : (0 <= A)%Q).
  { unfold A. apply Qmult_le_0_compat; [|lra].
    rewrite <- (Zle_Qle 0). lia. }
  assert (At : (Qabs (inject_Z x * f) == A)%Q).
  { rewrite Qabs_Qmult, Qabs_inject_Z, (Qabs_pos f) by lra. reflexivity. }
  unfold convert_step.
  destruct (of_int_exact x Hx) as (fx & -> & Vx & Fx & Nx). cbn [rbind].
  destruct (mul_error fx factor Nx Ff) as (Fp & Bp).
  { rewrite Vx. fold f. rewrite At.
    eapply Qle_lt_trans; [exact HA|].
    eapply Qlt_trans; [|exact pow2_50_lt]. reflexivity. }
  rewrite Vx in Bp. fold f in Bp.
  set (p := PyFloat.to_Q (PyFloat.mul fx factor)) in *.
  assert (Bsum : (Qabs (p + rho) <= 562949953421312)%Q).
  { assert (At' : (Qabs (inject_Z x * f) <= A)%Q) by (rewrite At; lra).
    clear At. clearbody p rho A. revert Bp Hr HA A0 At'. unfold u.
    generalize (inject_Z x * f)%Q. intros t. intros. qabs; lra. }
  destruct (add_error (PyFloat.mul fx factor) rem Fp Fr) as (Fy & By).
  { fold p rho. eapply Qle_lt_trans; [exact Bsum|].
    eapply Qlt_trans; [|exact pow2_50_lt]. reflexivity. }
  fold p rho in By.
  set (yf := PyFloat.add (PyFloat.mul fx factor) rem) in *.
  set (y := PyFloat.to_Q yf) in *.
  destruct (round_error yf Fy) as (val & -> & Bv). cbn [rbind]. fold y in Bv.
  assert (At' : (Qabs (inject_Z x * f) <= A)%Q) by (rewrite At; lra).
  destruct (step_arith_value (inject_Z x * f) rho p y (inject_Z val) A
              (conj A0 HA) At' Hr Bp By Bv) as (_ & Bval & Byv).
  assert (Hval : Z.abs val < 2 ^ 53).
  { rewrite Qabs_inject_Z in Bval.
    change (562949953421312)%Q with (inject_Z 562949953421312) in Bval.
    rewrite <- Zle_Qle in Bval. change (2 ^ 53) with 9007199254740992.
    lia. }
  destruct (of_int_exact val Hval) as (fv & -> & Vv & Fv & _).
  cbn [rbind].
  destruct (sub_error yf fv Fy Fv) as (Fr' & Br').
  { fold y. rewrite Vv. eapply Qle_lt_trans; [exact Byv|].
    eapply Qlt_trans; [|exact pow2_50_lt]. reflexivity. }
  fold y in Br'. rewrite Vv in Br'.
  exists val, (PyFloat.sub yf fv). split; [reflexivity|].
  split; [exact Fr'|].
  set (rho' := PyFloat.to_Q (PyFloat.sub yf fv)) in *.
  destruct (step_arith (inject_Z x * f) rho p y (inject_Z val) rho' A
              (conj A0 HA) At' Hr Bp By Bv Br') as (B1 & B2 & _).
  split; [exact B2|exact B1].
Qed.

Lemma abs_sum_nonneg xs : 0 <= abs_sum xs.
Proof.
  unfold abs_sum. induction xs as [|x xs IH]; cbn [map sum fold_right];
    [lia|]. unfold sum in IH. lia.
Qed.

Lemma abs_sum_firstn k xs : abs_sum (firstn k xs) <= abs_sum xs.
Proof.
  revert k. induction xs as [|x xs IH]; intros [|k]; cbn [firstn];
    try reflexivity.
  - apply abs_sum_nonneg.
  - specialize (IH k). unfold abs_sum in *. cbn [map sum fold_right] in *.
    unfold sum in IH. lia.
Qed.

Lemma sum_cons x xs : sum (x :: xs) = x + sum xs.
Proof. reflexivity. Qed.

Lemma abs_sum_cons x xs : abs_sum (x :: xs) = Z.abs x + abs_sum xs.
Proof. reflexivity. Qed.

(** The loop, on doubles: after every turn the emitted sum and the carried
    remainder account for the scaled input up to the rounding errors met. *)
Lemma convert_loop_error factor :
  positive_finite factor = true ->
  forall xs rem acc,
    PyFloat.is_finite rem = true ->
    (Qabs (PyFloat.to_Q rem) <= 3 # 4)%Q ->
    Forall (fun x => Z.abs x < 2 ^ 53) xs ->
    (PyFloat.to_Q factor * inject_Z (abs_sum xs) <= 281474976710656)%Q ->
    exists outs,
      convert_loop factor rem xs acc = ok (acc ++ outs)
      /\ List.length outs = List.length xs
      /\ forall k, (k <= List.length xs)%nat ->
           exists rho_k,
             (Qabs rho_k <= 3 # 4)%Q
             /\ (Qabs (inject_Z (sum (firstn k outs)) + rho_k
                       - (PyFloat.to_Q factor
                          * inject_Z (sum (firstn k xs))
                          + PyFloat.to_Q rem))
                 <= u * (5 * (PyFloat.to_Q factor
                              * inject_Z (abs_sum (firstn k xs)))
                         + 7 * inject_Z (Z.of_nat k)))%Q.
Proof.
  intros Pf.
  destruct (positive_finite_value factor Pf) as (Pos & _).
  set (f := PyFloat.to_Q factor) in *.
  induction xs as [|x xs IH]; intros rem acc Fr Hr Hx HA.
  - exists []. split; [cbn; now rewrite app_nil_r|]. split; [reflexivity|].
    intros k Hk. cbn [List.length] in Hk.
    assert (k = O) as -> by lia.
    exists (PyFloat.to_Q rem). split; [exact Hr|].
    cbn [firstn sum fold_right abs_sum map Z.of_nat].
    setoid_replace (inject_Z 0 + PyFloat.to_Q rem
                    - (f * inject_Z 0 + PyFloat.to_Q rem))%Q
      with 0%Q by (unfold inject_Z; ring).
    unfold u, inject_Z. cbn [Qabs Z.abs Qnum Qden]. lra.
  - inversion Hx as [|? ? Hx1 Hx2]; subst.
    rewrite abs_sum_cons, inject_Z_plus in HA.
    pose proof (abs_sum_nonneg xs) as N.
    assert (N' : (0 <= inject_Z (abs_sum xs))%Q)
      by (rewrite <- (Zle_Qle 0); exact N).
    assert (Nx : (0 <= inject_Z (Z.abs x))%Q)
      by (rewrite <- (Zle_Qle 0); lia).
    assert (HA1 : (inject_Z (Z.abs x) * f <= 281474976710656)%Q) by nra.
    assert (HA2 : (f * inject_Z (abs_sum xs) <= 281474976710656)%Q) by nra.
    destruct (convert_step_error factor rem x Pf Fr Hx1 Hr HA1)
      as (val & rem' & S & Fr' & Hr' & B).
    fold f in B.
    destruct (IH rem' (acc ++ [val]) Fr' Hr' Hx2 HA2)
      as (outs & L & Len & D).
    exists (val :: outs). split; [|split].
    + cbn [convert_loop]. rewrite S. cbn [rbind fst snd]. rewrite L.
      now rewrite <- app_assoc.
    + cbn [List.length]. now rewrite Len.
    + intros [|k] Hk.
      * exists (PyFloat.to_Q rem). split; [exact Hr|].
        cbn [firstn sum fold_right abs_sum map Z.of_nat].
        setoid_replace (inject_Z 0 + PyFloat.to_Q rem
                        - (f * inject_Z 0 + PyFloat.to_Q rem))%Q
          with 0%Q by (unfold inject_Z; ring).
        unfold u, inject_Z. cbn [Qabs Z.abs Qnum Qden]. lra.
      * cbn [List.length] in Hk.
        destruct (D k ltac:(lia)) as (rho_k & Hk1 & Hk2).
        exists rho_k. split; [exact Hk1|].
        cbn [firstn]. rewrite !sum_cons, abs_sum_cons, Nat2Z.inj_succ.
        unfold Z.succ. rewrite !inject_Z_plus.
        set (So := inject_Z (sum (firstn k outs))) in *.
        set (Sx := inject_Z (sum (firstn k xs))) in *.
        set (Ax := inject_Z (abs_sum (firstn k xs))) in *.
        set (K := inject_Z (Z.of_nat k)) in *.
        set (X := inject_Z x) in *. set (V := inject_Z val) in *.
        set (AX := inject_Z (Z.abs x)) in *.
        set (r0 := PyFloat.to_Q rem) in *.
        set (r1 := PyFloat.to_Q rem') in *.
        set (t := (X * f)%Q) in *. set (a := (AX * f)%Q) in *.
        setoid_replace (V + So + rho_k - (f * (X + Sx) + r0))%Q
          with ((V + r1 - (t + r0)) + (So + rho_k - (f * Sx + r1)))%Q
          by (unfold t; ring).
        setoid_replace (u * (5 * (f * (AX + Ax)) + 7 * (K + inject_Z 1)))%Q
          with (u * (5 * a + 7) + u * (5 * (f * Ax) + 7 * K))%Q
          by (unfold a, inject_Z; ring).
        eapply Qle_trans; [apply Qabs_triangle|].
        apply Qplus_le_compat; assumption.
Qed.

(** Within double precision the drift of the converter stays within 31/32
    of a tick. *)
Lemma rate_convert_within_double_precision factor xs :
  positive_finite factor = true ->
  Forall (fun x => Z.abs x < 2 ^ 53) xs ->
  (PyFloat.to_Q factor * inject_Z (abs_sum xs)
   + inject_Z (Z.of_nat (List.length xs)) <= inject_Z (2 ^ 48))%Q ->
  exists out,
    rate_convert factor xs = ok out
    /\ List.length out = List.length xs
    /\ forall k, (k <= List.length xs)%nat ->
                 (Qabs (drift factor xs out k) <= 31 # 32)%Q.
Proof.
  intros Pf Hx HB.
  destruct (positive_finite_value factor Pf) as (Pos & _).
  change (inject_Z (2 ^ 48)) with (281474976710656)%Q in HB.
  pose proof (abs_sum_nonneg xs) as N.
  assert (N' : (0 <= inject_Z (abs_sum xs))%Q)
    by (rewrite <- (Zle_Qle 0); exact N).
  assert (NL : (0 <= inject_Z (Z.of_nat (List.length xs)))%Q)
    by (rewrite <- (Zle_Qle 0); lia).
  destruct (convert_loop_error factor Pf xs (S754_zero false) [])
    as (out & R & Len & D); try reflexivity; try assumption.
  { cbn. discriminate. }
  { lra. }
  exists out. split; [exact R|]. split; [exact Len|].
  intros k Hk. destruct (D k Hk) as (rho_k & B1 & B2).
  unfold drift. cbn [PyFloat.to_Q] in B2.
  assert (Ak : (inject_Z (abs_sum (firstn k xs)) <= inject_Z (abs_sum xs))%Q)
    by (rewrite <- Zle_Qle; apply abs_sum_firstn).
  assert (Ak0 : (0 <= inject_Z (abs_sum (firstn k xs)))%Q)
    by (rewrite <- (Zle_Qle 0); apply abs_sum_nonneg).
  assert (Kk : (inject_Z (Z.of_nat k)
                <= inject_Z (Z.of_nat (List.length xs)))%Q)
    by (rewrite <- Zle_Qle; lia).
  assert (K0 : (0 <= inject_Z (Z.of_nat k))%Q)
    by (rewrite <- (Zle_Qle 0); lia).
  set (f := PyFloat.to_Q factor) in *.
  set (So := inject_Z (sum (firstn k out))) in *.
  set (Sx := inject_Z (sum (firstn k xs))) in *.
  set (Ax := inject_Z (abs_sum (firstn k xs))) in *.
  set (A := inject_Z (abs_sum xs)) in *.
  set (K := inject_Z (Z.of_nat k)) in *.
  set (L := inject_Z (Z.of_nat (List.length xs))) in *.
  assert (P1 : (f * Ax <= f * A)%Q) by nra.
  assert (P0 : (0 <= f * Ax)%Q) by nra.
  set (fA := (f * A)%Q) in *. set (fAx := (f * Ax)%Q) in *.
  set (fS := (f * Sx)%Q) in *.
  clearbody fA fAx fS So K L. unfold u in B2.
  revert B1 B2. qabs; intros; lra.
Qed.

(** C1, as the code behaves.  For a positive finite factor and intervals that
    each fit a double exactly, the converter returns one value per interval
    and the drift stays below one tick at every prefix, provided the scaled
    magnitude of the input plus its length stays within [2^48].  (Beyond
    that, the rounding of the floating-point operations themselves can
    exceed a tick.) *)
Theorem drift_below_one_within_double_precision factor xs :
  positive_finite factor = true ->
  Forall (fun x => Z.abs x < 2 ^ 53) xs ->
  (PyFloat.to_Q factor * inject_Z (abs_sum xs)
   + inject_Z (Z.of_nat (List.length xs)) <= inject_Z (2 ^ 48))%Q ->
  exists out,
    rate_convert factor xs = ok out
    /\ List.length out = List.length xs
    /\ drift_below_one factor xs out.
Proof.
  intros Pf Hx HB.
  destruct (rate_convert_within_double_precision factor xs Pf Hx HB)
    as (out & R & L & D).
  exists out. split; [exact R|]. split; [exact L|].
  intros k Hk. eapply Qle_lt_trans; [apply D; exact Hk|reflexivity].
Qed.

(** * Further properties *)

(** ** The rate converter *)

Lemma convert_loop_extends factor xs : forall rem acc out,
  convert_loop factor rem xs acc = ok out ->
  exists outs, out = acc ++ outs /\ List.length outs = List.length xs.
Proof.
  induction xs as [|x xs IH]; intros rem acc out; cbn [convert_loop].
  - intros [= <-]. exists []. now rewrite app_nil_r.
  - destruct (convert_step factor rem x) as [e|[val rem']]; cbn [rbind];
      [discriminate|].
    cbn [fst snd]. intros R. apply IH in R as (outs & -> & L).
    exists (val :: outs). rewrite <- app_assoc. cbn. auto.
Qed.

Lemma convert_loop_app factor xs ys : forall rem acc out,
  convert_loop factor rem (xs ++ ys) acc = ok out ->
  exists mid rem',
    convert_loop factor rem xs acc = ok mid
    /\ convert_loop factor rem' ys mid = ok out.
Proof.
  induction xs as [|x xs IH]; intros rem acc out; cbn [app convert_loop].
  - intros R. exists acc, rem. auto.
  - destruct (convert_step factor rem x) as [e|[val rem']]; cbn [rbind];
      [discriminate|].
    cbn [fst snd]. apply IH.
Qed.

(** X1.  The converter returns one value per interval. *)
Theorem rate_convert_length factor xs out :
  rate_convert factor xs = ok out -> List.length out = List.length xs.
Proof.
  intros R. apply convert_loop_extends in R as (outs & -> & L). exact L.
Qed.

(** X2.  The converter works left to right: what it returns for a list that
    continues [xs] starts with what it returns for [xs] alone. *)
Theorem rate_convert_prefix factor xs ys out :
  rate_convert factor (xs ++ ys) = ok out ->
  exists out1 out2,
    rate_convert factor xs = ok out1
    /\ out = out1 ++ out2
    /\ List.length out1 = List.length xs
    /\ List.length out2 = List.length ys.
Proof.
  intros R. apply convert_loop_app in R as (mid & rem' & R1 & R2).
  pose proof (convert_loop_extends _ _ _ _ _ R1) as (o1 & -> & L1).
  pose proof (convert_loop_extends _ _ _ _ _ R2) as (o2 & -> & L2).
  exists o1, o2. cbn [app] in *. auto.
Qed.

(** X3.  The converter fails only on values a double cannot hold or round:
    whatever it raises is an [OverflowError] (an interval too large for a
    double, an infinite sum) or a [ValueError] (a NaN to round). *)
Theorem rate_convert_only_overflow_or_value_error factor xs e :
  rate_convert factor xs = inl e -> e = OverflowError \/ e = ValueError.
Proof. apply rate_convert_raises. Qed.

Lemma prefix_sums_determine (a b : list Z) :
  List.length a = List.length b ->
  (forall k, (k <= List.length a)%nat ->
             sum (firstn k a) = sum (firstn k b)) ->
  a = b.
Proof.
  revert b. induction a as [|x a IH]; intros [|y b] L S; try discriminate;
    [reflexivity|].
  assert (x = y).
  { specialize (S 1%nat). cbn in S. lia. }
  subst y. f_equal. apply IH; [cbn in L; lia|].
  intros k Hk. specialize (S (Datatypes.S k)). cbn [firstn] in S.
  rewrite !sum_cons in S. cbn [List.length] in S. lia.
Qed.

(** X4.  At factor 1.0 the converter returns its input unchanged, as long as
    the intervals fit a double exactly and their magnitudes plus their number
    stay within [2^48]. *)
Theorem rate_convert_unit_factor xs :
  Forall (fun x => Z.abs x < 2 ^ 53) xs ->
  abs_sum xs + Z.of_nat (List.length xs) <= 2 ^ 48 ->
  rate_convert (PyFloat.literal 1 1) xs = ok xs.
Proof.
  intros Hx HB.
  destruct (rate_convert_within_double_precision (PyFloat.literal 1 1) xs)
    as (out & R & L & D); [reflexivity|exact Hx| |].
  { assert (E : (PyFloat.to_Q (PyFloat.literal 1 1) == 1)%Q) by reflexivity.
    rewrite E.
    setoid_replace (1 * inject_Z (abs_sum xs))%Q
      with (inject_Z (abs_sum xs)) by ring.
    rewrite <- inject_Z_plus, <- Zle_Qle. exact HB. }
  rewrite R. f_equal. apply prefix_sums_determine; [exact L|].
  intros k Hk. rewrite L in Hk. specialize (D k Hk). unfold drift in D.
  assert (E : (PyFloat.to_Q (PyFloat.literal 1 1) == 1)%Q) by reflexivity.
  rewrite E in D.
  setoid_replace (inject_Z (sum (firstn k out))
                  - 1 * inject_Z (sum (firstn k xs)))%Q
    with (inject_Z (sum (firstn k out) - sum (firstn k xs))) in D
    by (unfold Zminus; rewrite inject_Z_plus, inject_Z_opp; ring).
  rewrite Qabs_inject_Z in D.
  assert (D' : (inject_Z (Z.abs (sum (firstn k out) - sum (firstn k xs)))
                < inject_Z 1)%Q)
    by (eapply Qle_lt_trans; [exact D|reflexivity]).
  rewrite <- Zlt_Qlt in D'. lia.
Qed.

Lemma sum_firstn_S (l : list Z) : forall k x,
  nth_error l k = Some x ->
  sum (firstn (S k) l) = sum (firstn k l) + x.
Proof.
  induction l as [|y l IH]; intros [|k] x E; try discriminate.
  - injection E as <-. cbn. lia.
  - cbn [nth_error] in E. specialize (IH k x E).
    change (firstn (S (S k)) (y :: l)) with (y :: firstn (S k) l).
    change (firstn (S k) (y :: l)) with (y :: firstn k l).
    rewrite !sum_cons, IH. lia.
Qed.

(** X12.  Within the same bounds every interval the converter emits is
    within two ticks of the exact product of its input and the factor: the
    rounding of one interval is made up for in the next, and never piles
    up. *)
Theorem rate_convert_each_interval_within_two factor xs :
  positive_finite factor = true ->
  Forall (fun x => Z.abs x < 2 ^ 53) xs ->
  (PyFloat.to_Q factor * inject_Z (abs_sum xs)
   + inject_Z (Z.of_nat (List.length xs)) <= inject_Z (2 ^ 48))%Q ->
  exists out,
    rate_convert factor xs = ok out
    /\ forall k x, nth_error xs k = Some x ->
         exists o, nth_error out k = Some o
           /\ (Qabs (inject_Z o - PyFloat.to_Q factor * inject_Z x) < 2)%Q.
Proof.
  intros Pf Hx HB.
  destruct (rate_convert_within_double_precision factor xs Pf Hx HB)
    as (out & R & L & D).
  exists out. split; [exact R|]. intros k x Ex.
  assert (Hk : (k < List.length xs)%nat)
    by (apply nth_error_Some; congruence).
  destruct (nth_error out k) as [o|] eqn:Eo;
    [|apply nth_error_None in Eo; lia].
  exists o. split; [reflexivity|].
  pose proof (D k ltac:(lia)) as Dk. pose proof (D (S k) ltac:(lia)) as DS.
  unfold drift in Dk, DS.
  rewrite (sum_firstn_S xs k x Ex), (sum_firstn_S out k o Eo) in DS.
  rewrite !inject_Z_plus in DS.
  set (so := inject_Z (sum (firstn k out))) in *.
  set (sx := inject_Z (sum (firstn k xs))) in *.
  set (f := PyFloat.to_Q factor) in *.
  set (qo := inject_Z o) in *. set (qx := inject_Z x) in *.
  clearbody so sx f qo qx.
  revert Dk DS. qabs; lra.
Qed.

(** ** The job *)

Section JobProperties.

Context {Flux : Type} `{FluxLike Flux}.
Variable usb : Usb Flux.
Variable image : Image Flux.
Variable args : Args.

(** *** A refused command ends the job *)

Lemma fails_last_bind {A B} (m : M Flux A) (k : A -> M Flux B) h :
  fails_last (m h) ->
  (forall a h', fails_last (k a h')) ->
  fails_last (bind m k h).
Proof.
  intros Pm Pk pre e post code. unfold bind.
  destruct (res (m h)) as [x|a] eqn:R; cbn [res evs].
  - intros E F. destruct (Pm _ _ _ _ E F) as (-> & R'). split; congruence.
  - intros E F. apply app_eq_app in E as (l & [(Em & E)|(-> & E)]).
    + destruct l as [|e' l]; cbn [app] in E.
      * exact (Pk a _ [] e post code (eq_sym E) F).
      * injection E as <- ->.
        destruct (Pm pre e l code Em F) as (_ & R'). congruence.
    + exact (Pk a _ l e post code E F).
Qed.

Lemma fails_last_quiet {A} (o : outcome Flux A) :
  Forall (fun e => failed_code e = None) (evs o) -> fails_last o.
Proof.
  intros F pre e post code E Fc. rewrite E in F.
  apply Forall_app in F as (_ & F). inversion F; subst. congruence.
Qed.

Lemma fails_last_call {A} (r : list (event Flux) -> reply A) ev h :
  (forall a, failed_code (ev (Done a)) = None) ->
  (forall code, failed_code (ev (Failed code)) = Some code) ->
  fails_last (call r ev h).
Proof.
  intros D F pre e post code. unfold call. cbn [evs res].
  destruct pre as [|e' pre]; cbn [app].
  - intros [= <- <-]. destruct (r h) as [a|c]; cbn.
    + rewrite D. discriminate.
    + rewrite F. intros [= ->]. auto.
  - intros [= _ E]. now destruct pre.
Qed.

Ltac fails_last_step :=
  first
    [ apply fails_last_bind; [|intros ? ?]
    | apply fails_last_call; [intros ?; reflexivity|intros ?; reflexivity]
    | apply fails_last_quiet; repeat constructor ].

Lemma fails_last_attempt track flux l retry st h :
  fails_last (attempt usb args track flux l retry st h).
Proof.
  unfold attempt, write_track, read_track, Formatter_print, Formatter_erase.
  fails_last_step; [fails_last_step|].
  fails_last_step; [fails_last_step|].
  destruct a0; [fails_last_step|]. cbv zeta.
  repeat (fails_last_step; [fails_last_step|]).
  destruct a3; [fails_last_step|].
  repeat (fails_last_step; [repeat fails_last_step|]).
  fails_last_step.
Qed.

Lemma fails_last_retry_loop track flux l retries st h :
  fails_last (retry_loop usb args track flux l retries st h).
Proof.
  revert st h. induction retries as [|retry rest IH]; intros st h.
  - fails_last_step.
  - cbn [retry_loop]. apply fails_last_bind; [apply fails_last_attempt|].
    intros st' h'. destruct (broke st'); [fails_last_step|apply IH].
Qed.

Lemma fails_last_process_track dt cyl side c h :
  fails_last (process_track usb image args dt cyl side c h).
Proof.
  unfold process_track, get_track, seek, erase_track.
  fails_last_step; [fails_last_step|].
  destruct (match a with
            | Some _ => false
            | None => negb (erase_empty args)
            end); [fails_last_step|].
  fails_last_step; [fails_last_step|].
  fails_last_step; [fails_last_step|].
  destruct a as [t|].
  - unfold write_and_verify, Formatter_erase. cbv zeta.
    fails_last_step; [fails_last_step|].
    fails_last_step; [apply fails_last_retry_loop|].
    repeat (fails_last_step; [repeat fails_last_step|]).
    fails_last_step.
  - fails_last_step; fails_last_step.
Qed.

Lemma fails_last_for_each {A S} (xs : list A) (body : A -> S -> M Flux S) :
  (forall x s h, fails_last (body x s h)) ->
  forall s h, fails_last (for_each xs body s h).
Proof.
  intros Pb. induction xs as [|x xs IH]; intros s h.
  - fails_last_step.
  - cbn [for_each]. apply fails_last_bind; [apply Pb|]. intros; apply IH.
Qed.

(** X5.  A command the device refuses is the last thing the job does: no
    retry and no further track follows it, and the job raises the refusal
    unchanged. *)
Theorem refused_command_ends_job h pre e post code :
  evs (write_from_image usb image args h) = pre ++ e :: post ->
  failed_code e = Some code ->
  post = [] /\ res (write_from_image usb image args h) = inl (CmdError code).
Proof.
  revert pre e post code. change (fails_last (write_from_image usb image args h)).
  unfold write_from_image, calibrate, read_track.
  fails_last_step.
  - fails_last_step; [fails_last_step|fails_last_step].
  - fails_last_step.
    + unfold write_tracks. apply fails_last_for_each. intros cyl c h1.
      apply fails_last_for_each. intros side c' h2.
      apply fails_last_process_track.
    + repeat (fails_last_step; [repeat fails_last_step|]). fails_last_step.
Qed.

(** *** What the job may raise *)

Lemma raises_only_expected_bind {A B} (m : M Flux A) (k : A -> M Flux B) h :
  raises_only_expected (m h) ->
  (forall a h', raises_only_expected (k a h')) ->
  raises_only_expected (bind m k h).
Proof.
  intros Pm Pk e. unfold bind.
  destruct (res (m h)) as [x|a] eqn:R; cbn [res evs].
  - intros [= <-]. exact (Pm x R).
  - intros R'. specialize (Pk a _ e R').
    destruct e; auto.
    destruct Pk as (pre & ev & -> & F). exists (evs (m h) ++ pre), ev.
    now rewrite app_assoc.
Qed.

Lemma raises_only_expected_ok {A} (o : outcome Flux A) a :
  res o = ok a -> raises_only_expected o.
Proof. intros R e. rewrite R. discriminate. Qed.

Lemma raises_only_expected_call {A} (r : list (event Flux) -> reply A) ev h :
  (forall code, failed_code (ev (Failed code)) = Some code) ->
  raises_only_expected (call r ev h).
Proof.
  intros F e. unfold call. cbn [evs res].
  destruct (r h) as [a|c]; cbn; [discriminate|].
  intros [= <-]. exists [], (ev (Failed c)). auto.
Qed.

Lemma raises_only_expected_lift {A} (r : result A) h :
  (forall e, r = inl e ->
     e = IndexError \/ e = OverflowError \/ e = ZeroDivisionError
     \/ e = ValueError) ->
  raises_only_expected (lift (Flux := Flux) r h).
Proof.
  intros P e. cbn. intros R.
  destruct (P e R) as [ -> | [ -> | [ -> | -> ] ] ]; exact I.
Qed.

Lemma drive_ticks_of_raises (flux : Flux) e :
  drive_ticks_of flux = inl e ->
  e = IndexError \/ e = OverflowError \/ e = ZeroDivisionError
  \/ e = ValueError.
Proof.
  unfold drive_ticks_of, subscript.
  destruct (nth_error (index_list flux) 0) as [a|]; cbn [rbind];
    [|intros [= <-]; auto].
  destruct (nth_error (index_list flux) 1) as [b|]; cbn [rbind];
    [|intros [= <-]; auto].
  unfold PyFloat.int_truediv.
  repeat match goal with
         | |- context [match ?x with _ => _ end] => destruct x
         | |- context [if ?x then _ else _] => destruct x
         end; cbn [rbind]; intros [= <-]; auto.
Qed.

Lemma raises_only_expected_attempt track flux l retry st h :
  raises_only_expected (attempt usb args track flux l retry st h).
Proof.
  intros e R.
  destruct (attempt_cases usb args track flux l retry st h)
    as [code o ? R' E ?|o ? ? R' ? ?|vt code o ? ? ? R' E ?
       |vt v o ? ? ? R' ? ?|vt v f o ? ? ? ? ? R' ? ?|vt v f o ? ? ? ? ? R' ?];
    rewrite R' in R; try discriminate; injection R as <-.
  - rewrite E. now exists [], (EvWriteTrack l (terminate_at_index flux) (Failed code)).
  - rewrite E.
    now exists [EvWriteTrack l (terminate_at_index flux) (Done tt)],
               (EvReadTrack (v_revs_of track) (Failed code)).
  - exact I.
Qed.

Ltac expected_step :=
  first
    [ apply raises_only_expected_bind; [|intros ? ?]
    | apply raises_only_expected_call; intros ?; reflexivity
    | eapply raises_only_expected_ok; reflexivity ].

Lemma raises_only_expected_retry_loop track flux l retries st h :
  raises_only_expected (retry_loop usb args track flux l retries st h).
Proof.
  revert st h. induction retries as [|retry rest IH]; intros st h.
  - expected_step.
  - cbn [retry_loop].
    apply raises_only_expected_bind; [apply raises_only_expected_attempt|].
    intros st' h'. destruct (broke st'); [expected_step|apply IH].
Qed.

Lemma raises_only_expected_process_track dt cyl side c h :
  raises_only_expected (process_track usb image args dt cyl side c h).
Proof.
  unfold process_track, get_track, seek, erase_track.
  expected_step; [expected_step|].
  destruct (match a with
            | Some _ => false
            | None => negb (erase_empty args)
            end); [expected_step|].
  expected_step; [expected_step|].
  expected_step; [expected_step|].
  destruct a as [t|].
  - unfold write_and_verify, Formatter_erase. cbv zeta.
    expected_step;
      [apply raises_only_expected_lift, writeout_list_raises|].
    expected_step; [apply raises_only_expected_retry_loop|].
    expected_step; [repeat expected_step|].
    expected_step; [|expected_step].
    intros e. unfold error_check.
    match goal with |- context [verified ?s] => destruct (verified s) end;
      cbn; [discriminate|].
    intros [= <-]. eauto.
  - expected_step; expected_step.
Qed.

Lemma raises_only_expected_for_each {A S} (xs : list A)
  (body : A -> S -> M Flux S) :
  (forall x s h, raises_only_expected (body x s h)) ->
  forall s h, raises_only_expected (for_each xs body s h).
Proof.
  intros Pb. induction xs as [|x xs IH]; intros s h.
  - expected_step.
  - cbn [for_each]. apply raises_only_expected_bind; [apply Pb|].
    intros; apply IH.
Qed.

(** X6.  What the job raises: a refusal of the device, raised right after
    the refused command; an arithmetic or subscript failure; or the fatal
    error naming a track.  A track without a [verify] attribute never makes
    the job raise [AttributeError]. *)
Theorem job_raises_only_expected h e :
  res (write_from_image usb image args h) = inl e ->
  match e with
  | CmdError code =>
      exists pre ev,
        evs (write_from_image usb image args h) = pre ++ [ev]
        /\ failed_code ev = Some code
  | Fatal desc => exists cyl side, desc = failure_message cyl side
  | AttributeError => False
  | _ => True
  end.
Proof.
  revert e. change (raises_only_expected (write_from_image usb image args h)).
  unfold write_from_image, calibrate, read_track.
  expected_step.
  - expected_step; [expected_step|].
    apply raises_only_expected_lift, drive_ticks_of_raises.
  - expected_step.
    + unfold write_tracks. apply raises_only_expected_for_each.
      intros cyl c h1. apply raises_only_expected_for_each. intros side c' h2.
      apply raises_only_expected_process_track.
    + repeat (expected_step; [repeat expected_step|]). expected_step.
Qed.

(** *** The order of the tracks *)

Lemma fetched_app (a b : list (event Flux)) :
  fetched (a ++ b) = fetched a ++ fetched b.
Proof. apply flat_map_app. Qed.

Lemma fetched_none (tl : list (event Flux)) :
  Forall (fun e => is_get_track e = false) tl -> fetched tl = [].
Proof.
  induction 1 as [|e tl E _ IH]; [reflexivity|].
  destruct e; cbn in *; try discriminate; exact IH.
Qed.

Lemma process_track_fetched dt cyl side c h :
  fetched (evs (process_track usb image args dt cyl side c h))
  = [(cyl, side)].
Proof.
  destruct (process_track_shape usb image args dt cyl side c h)
    as (tl & -> & F).
  change (fetched (EvGetTrack cyl side :: tl)) with ((cyl, side) :: fetched tl).
  now rewrite (fetched_none tl F).
Qed.

Lemma for_each_fetched (ps : list (Z * Z)) dt : forall c h,
  let o := for_each ps
             (fun p => process_track usb image args dt (fst p) (snd p)) c h in
  exists n, fetched (evs o) = firstn n ps
            /\ (forall c', res o = ok c' -> fetched (evs o) = ps).
Proof.
  induction ps as [|[cyl side] ps IH]; intros c h; cbv zeta.
  - exists O. split; reflexivity.
  - cbn [for_each fst snd]. unfold bind.
    destruct (res (process_track usb image args dt cyl side c h))
      as [e|c1] eqn:R; cbn [res evs].
    + exists 1%nat. rewrite process_track_fetched. split; [reflexivity|].
      discriminate.
    + destruct (IH c1 (h ++ evs (process_track usb image args dt cyl side c h)))
        as (n & E & F).
      rewrite fetched_app, process_track_fetched. exists (S n).
      cbn [app firstn]. split; [now rewrite E|].
      intros c' R'. now rewrite (F c' R').
Qed.

Lemma in_range lo hi x : In x (range lo hi) <-> lo <= x < hi.
Proof.
  unfold range. rewrite in_map_iff. split.
  - intros (i & <- & I). apply in_seq in I. lia.
  - intros B. exists (Z.to_nat (x - lo)). split; [lia|].
    apply in_seq. lia.
Qed.

(** X7.  The job asks the image for its tracks cylinder by cylinder from the
    first to the last, and side by side within a cylinder: the positions it
    fetched are a prefix of that enumeration, each fetched once, and all of
    it once the job returns. *)
Theorem tracks_fetched_in_order h :
  let o := write_from_image usb image args h in
  (exists n, fetched (evs o) = firstn n (positions args))
  /\ (forall c, res o = ok c -> fetched (evs o) = positions args)
  /\ (forall cyl side,
        In (cyl, side) (positions args)
        <-> scyl args <= cyl <= ecyl args /\ 0 <= side < nr_sides args).
Proof.
  cbv zeta. rewrite write_from_image_unfold.
  assert (Pos : forall cyl side,
             In (cyl, side) (positions args)
             <-> scyl args <= cyl <= ecyl args /\ 0 <= side < nr_sides args).
  { intros cyl side. unfold positions. rewrite in_flat_map. split.
    - intros (c & Ic & I). apply in_map_iff in I as (s & [= -> ->] & Is).
      apply in_range in Ic, Is. lia.
    - intros (Bc & Bs). exists cyl. split; [apply in_range; lia|].
      apply in_map, in_range. lia. }
  destruct (usb_read_track usb h 2) as [flux|code].
  2: { cbn. split; [now exists O|]. split; [discriminate|exact Pos]. }
  destruct (drive_ticks_of flux) as [e|dt].
  { cbn. split; [now exists O|]. split; [discriminate|exact Pos]. }
  cbv zeta. cbn [res evs]. rewrite write_tracks_flat.
  destruct (for_each_fetched (positions args) dt (0, 0)
              (h ++ [EvReadTrack 2 (Done flux)])) as (n & E & F).
  change (fetched (EvReadTrack 2 (Done flux) :: ?t)) with (fetched t).
  split; [now exists n|]. split; [exact F|exact Pos].
Qed.

(** *** The two counts *)

Lemma unverifiable_bool (t : Track Flux) :
  unverifiable args t
  <-> no_verify args
      || match verify t with Verifier _ => false | _ => true end = true.
Proof.
  unfold unverifiable. destruct (no_verify args); cbn; [tauto|].
  destruct (verify t); split; intros; try tauto; try discriminate;
    repeat match goal with H : _ \/ _ |- _ => destruct H end;
    congruence.
Qed.

Lemma write_and_verify_counts dt cyl side t c h c' :
  res (write_and_verify usb args dt cyl side t c h) = ok c' ->
  let unv := no_verify args
             || match verify t with Verifier _ => false | _ => true end in
  c' = (fst c + Z.b2z (negb unv), snd c + Z.b2z unv).
Proof.
  rewrite write_and_verify_unfold.
  destruct (writeout_list dt (flux_for_writeout t)) as [e|l];
    [discriminate|].
  cbv zeta.
  destruct (res (retry_loop usb args t (flux_for_writeout t) l [0; 1; 2]
                   (initial_state c) h)) as [e|st] eqn:R; [discriminate|].
  cbn [res]. destruct (verified st) eqn:V; [|discriminate].
  intros [= <-].
  destruct (retry_loop_verified usb args t (flux_for_writeout t) l [0; 1; 2]
              (initial_state c) h st eq_refl R V)
    as [(U & -> & ->)|(U & -> & ->)]; rewrite unverifiable_bool in U.
  - rewrite U. cbn. f_equal. lia.
  - apply not_true_is_false in U. rewrite U. cbn. f_equal. lia.
Qed.

Lemma process_track_counts dt cyl side c h c' :
  res (process_track usb image args dt cyl side c h) = ok c' ->
  c' = (fst c + Z.b2z (verifiable_at args image (cyl, side)),
        snd c + Z.b2z (unverifiable_at args image (cyl, side))).
Proof.
  rewrite process_track_unfold. cbv zeta.
  unfold verifiable_at, unverifiable_at. cbn [fst snd].
  assert (Same : c = (fst c + Z.b2z false, snd c + Z.b2z false)).
  { destruct c. cbn. f_equal; lia. }
  destruct (image cyl side) as [t|].
  - assert (P : forall o : outcome Flux counts,
               res o = res (write_and_verify usb args dt cyl side t c
                              (h ++ [EvGetTrack cyl side;
                                     EvSeek (target_cyl args cyl) side
                                       (Done tt)])) ->
               res o = ok c' ->
               c' = (fst c
                     + Z.b2z (negb (no_verify args)
                              && match verify t with
                                 | Verifier _ => true
                                 | _ => false
                                 end),
                     snd c
                     + Z.b2z (no_verify args
                              || match verify t with
                                 | Verifier _ => false
                                 | _ => true
                                 end))).
    { intros o -> R. apply write_and_verify_counts in R. rewrite R.
      cbv zeta. rewrite negb_orb. f_equal. f_equal. f_equal. f_equal.
      now destruct (verify t). }
    destruct (erase_empty args);
      destruct (usb_seek usb _ (target_cyl args cyl) side) as [[]|code];
      try discriminate; apply P; reflexivity.
  - destruct (erase_empty args).
    + destruct (usb_seek usb _ (target_cyl args cyl) side) as [[]|code];
        [|discriminate].
      destruct (usb_erase_track usb _ (erase_ticks dt)) as [[]|code];
        [|discriminate].
      intros [= <-]. exact Same.
    + intros [= <-]. exact Same.
Qed.

Lemma for_each_counts (ps : list (Z * Z)) dt : forall c h c',
  res (for_each ps
         (fun p => process_track usb image args dt (fst p) (snd p)) c h)
  = ok c' ->
  c' = (fst c + Z.of_nat (List.length (filter (verifiable_at args image) ps)),
        snd c
        + Z.of_nat (List.length (filter (unverifiable_at args image) ps))).
Proof.
  induction ps as [|[cyl side] ps IH]; intros c h c'.
  - cbn. intros [= <-]. destruct c. cbn. f_equal; lia.
  - cbn [for_each fst snd]. unfold bind.
    destruct (res (process_track usb image args dt cyl side c h))
      as [e|c1] eqn:R; cbn [res]; [discriminate|].
    intros R'. apply IH in R'. apply process_track_counts in R.
    rewrite R', R. cbn [fst snd filter].
    destruct (verifiable_at args image (cyl, side));
      destruct (unverifiable_at args image (cyl, side));
      cbn [Z.b2z List.length]; f_equal; lia.
Qed.

(** X8.  When the job returns, its first count is the number of positions
    at which the image holds a track that was to be verified, its second the
    number at which it holds a track that could not be (verification switched
    off, or no verifier on the track); positions without a track count in
    neither, erased or not. *)
Theorem counts_on_return h c :
  res (write_from_image usb image args h) = ok c ->
  fst c = Z.of_nat (List.length (filter (verifiable_at args image)
                                   (positions args)))
  /\ snd c = Z.of_nat (List.length (filter (unverifiable_at args image)
                                      (positions args)))
  /\ (forall p, verifiable_at args image p && unverifiable_at args image p
                = false).
Proof.
  rewrite write_from_image_unfold.
  destruct (usb_read_track usb h 2) as [flux|code]; [|discriminate].
  destruct (drive_ticks_of flux) as [e|dt]; [discriminate|].
  cbv zeta. cbn [res]. rewrite write_tracks_flat. intros R.
  apply for_each_counts in R. rewrite R. cbn [fst snd].
  split; [reflexivity|]. split; [reflexivity|].
  intros p. unfold verifiable_at, unverifiable_at.
  destruct (image (fst p) (snd p)) as [t|]; [|reflexivity].
  destruct (no_verify args), (verify t); reflexivity.
Qed.

(** *** A job without verification *)

Lemma process_track_no_verify dt cyl side c h :
  no_verify args = true ->
  let o := process_track usb image args dt cyl side c h in
  count is_read (evs o) = O
  /\ count is_verify (evs o) = O
  /\ (forall c', res o = ok c' ->
        c' = (fst c, snd c + Z.of_nat (count is_write (evs o)))).
Proof.
  intros NV. cbv zeta. rewrite process_track_unfold. cbv zeta.
  assert (Same : c = (fst c, snd c + Z.of_nat O)).
  { destruct c. cbn. f_equal; lia. }
  destruct (image cyl side) as [t|].
  - assert (P : forall text,
      let o := write_and_verify usb args dt cyl side t c
                 (h ++ [EvGetTrack cyl side;
                        EvSeek (target_cyl args cyl) side (Done tt)]) in
      let o' := Build_outcome (res o)
                  (EvGetTrack cyl side
                   :: EvSeek (target_cyl args cyl) side (Done tt) :: evs o)
                  text in
      count is_read (evs o') = O
      /\ count is_verify (evs o') = O
      /\ (forall c', res o' = ok c' ->
            c' = (fst c, snd c + Z.of_nat (count is_write (evs o'))))).
    { intros text. cbv zeta.
      rewrite write_and_verify_unverifiable by (left; exact NV).
      destruct (writeout_list dt (flux_for_writeout t)) as [e|l].
      - cbn. repeat split. discriminate.
      - destruct (usb_write_track usb _ l _) as [[]|code]; cbn;
          repeat split; try discriminate. now intros c' [= <-]. }
    destruct (erase_empty args);
      destruct (usb_seek usb _ (target_cyl args cyl) side) as [[]|code];
      try apply P; cbn; repeat split; discriminate.
  - destruct (erase_empty args).
    + destruct (usb_seek usb _ (target_cyl args cyl) side) as [[]|code];
        [|cbn; repeat split; discriminate].
      destruct (usb_erase_track usb _ (erase_ticks dt)) as [[]|code];
        cbn; repeat split; try discriminate.
      intros c' [= <-]. exact Same.
    + cbn. repeat split. intros c' [= <-]. exact Same.
Qed.

Lemma for_each_no_verify {A} (xs : list A) (body : A -> counts -> M Flux counts) :
  (forall x c h,
      let o := body x c h in
      count is_read (evs o) = O
      /\ count is_verify (evs o) = O
      /\ (forall c', res o = ok c' ->
            c' = (fst c, snd c + Z.of_nat (count is_write (evs o))))) ->
  forall c h,
    let o := for_each xs body c h in
    count is_read (evs o) = O
    /\ count is_verify (evs o) = O
    /\ (forall c', res o = ok c' ->
          c' = (fst c, snd c + Z.of_nat (count is_write (evs o)))).
Proof.
  intros Pb. induction xs as [|x xs IH]; intros c h; cbv zeta.
  - cbn. repeat split. intros c' [= <-]. destruct c. cbn. f_equal. lia.
  - cbn [for_each]. unfold bind.
    destruct (Pb x c h) as (R1 & V1 & C1).
    destruct (res (body x c h)) as [e|c1] eqn:R; cbn [res evs].
    + repeat split; auto; discriminate.
    + destruct (IH c1 (h ++ evs (body x c h))) as (R2 & V2 & C2).
      rewrite !count_app, R1, V1, R2, V2. repeat split.
      intros c' R'. rewrite (C2 c' R'), (C1 c1 eq_refl). cbn [fst snd].
      f_equal. lia.
Qed.

(** X9.  With verification switched off the calibration is the job's only
    read and no verifier is ever called; when the job returns, no track
    counts as verified and the other count is the number of writes the
    device accepted, one for each track the image holds. *)
Theorem job_without_verification h :
  no_verify args = true ->
  let o := write_from_image usb image args h in
  count is_read (evs o) = 1%nat
  /\ count is_verify (evs o) = O
  /\ (forall c, res o = ok c ->
        fst c = 0
        /\ snd c = Z.of_nat (count is_write (evs o))
        /\ snd c = Z.of_nat (List.length
                               (filter (fun p =>
                                          match image (fst p) (snd p) with
                                          | Some _ => true
                                          | None => false
                                          end) (positions args)))).
Proof.
  intros NV. cbv zeta. rewrite write_from_image_unfold.
  destruct (usb_read_track usb h 2) as [flux|code];
    [|cbn; repeat split; discriminate].
  destruct (drive_ticks_of flux) as [e|dt];
    [cbn; repeat split; discriminate|].
  cbv zeta. cbn [res evs].
  assert (W : let o := write_tracks usb image args dt (0, 0)
                          (h ++ [EvReadTrack 2 (Done flux)]) in
              count is_read (evs o) = O
              /\ count is_verify (evs o) = O
              /\ (forall c', res o = ok c' ->
                    c' = (fst (0, 0),
                          snd (0, 0) + Z.of_nat (count is_write (evs o))))).
  { unfold write_tracks. apply for_each_no_verify. intros cyl c h1.
    apply for_each_no_verify. intros side c' h2.
    now apply process_track_no_verify. }
  destruct W as (R & V & C). unfold count in *.
  cbn [filter is_read is_verify is_write List.length].
  rewrite R, V. split; [reflexivity|]. split; [reflexivity|].
  intros c Rc. pose proof (C c Rc) as E.
  rewrite write_tracks_flat in Rc. apply for_each_counts in Rc.
  split; [rewrite E; reflexivity|]. split; [rewrite E at 1; reflexivity|].
  rewrite Rc. cbn [fst snd].
  rewrite (filter_ext (unverifiable_at args image)
             (fun p => match image (fst p) (snd p) with
                       | Some _ => true
                       | None => false
                       end)); [reflexivity|].
  intros p. unfold unverifiable_at. rewrite NV. now destruct (image _ _).
Qed.

(** *** The head and the track *)





(** *** A capture without a usable index *)

Lemma writeout_list_bad_index dt (flux : Flux) i :
  nth_error (index_list flux) 0 = i ->
  i = None \/ i = Some 0 ->
  writeout_list dt flux
  = inl (match i with None => IndexError | Some _ => ZeroDivisionError end).
Proof.
  intros E [-> | ->]; unfold writeout_list, rescale_factor, subscript;
    rewrite E; cbn [rbind]; [reflexivity|].
  change (PyFloat.of_int 0) with (@inr exn float (S754_zero false)).
  cbn [rbind]. unfold PyFloat.truediv. reflexivity.
Qed.

(** X11.  A track whose capture has no index entry, or a first index entry
    of 0, cannot be rescaled: its processing stops with [IndexError] or
    [ZeroDivisionError] once the head is there, and nothing of the track is
    written or read back. *)
Theorem track_without_usable_index dt cyl side c h t i :
  image cyl side = Some t ->
  nth_error (index_list (flux_for_writeout t)) 0 = i ->
  i = None \/ i = Some 0 ->
  let o := process_track usb image args dt cyl side c h in
  count is_write (evs o) = O
  /\ count is_read (evs o) = O
  /\ (usb_seek usb (h ++ [EvGetTrack cyl side])
        (if double_step args then cyl * 2 else cyl) side = Done tt ->
      res o = inl (match i with
                   | None => IndexError
                   | Some _ => ZeroDivisionError
                   end)).
Proof.
  intros IM E B. cbv zeta. rewrite (process_track_present _ _ _ _ _ _ _ _ _ IM).
  fold (target_cyl args cyl).
  destruct (usb_seek usb _ (target_cyl args cyl) side) as [[]|code].
  - cbv zeta. rewrite write_and_verify_unfold.
    rewrite (writeout_list_bad_index dt _ i E B). cbn. auto.
  - cbn. repeat split. discriminate.
Qed.

(** *** The counts and the trace *)

Lemma retry_loop_tally track flux l retries : forall st h st',
  verified st = false ->
  res (retry_loop usb args track flux l retries st h) = ok st' ->
  verified st' = true ->
  let tr := evs (retry_loop usb args track flux l retries st h) in
  verified_count st'
  = verified_count st + Z.of_nat (count is_passed_verify tr)
  /\ not_verified_count st'
     = not_verified_count st + Z.of_nat (count is_write tr)
       - Z.of_nat (count is_verify tr)
  /\ (count is_failed_verify tr + 1 <= List.length retries)%nat
  /\ ((unverifiable args track
       /\ count is_failed_verify tr = O /\ count is_passed_verify tr = O)
      \/ count is_passed_verify tr = 1%nat).
Proof.
  induction retries as [|retry rest IH]; intros st h st' V0; cbv zeta.
  - cbn. intros [= <-]. congruence.
  - rewrite retry_loop_cons. cbv zeta.
    destruct (attempt_cases usb args track flux l retry st h)
      as [code o W R E O | o W NV R E O | vt code o NV V RD R E O
         | vt v o NV V Z R E O | vt v f o NV V RD T VT R E O
         | vt v f o NV V RD T VT R E];
      rewrite R;
      cbn [broke after_no_verify after_match after_mismatch res evs out];
      rewrite ?E; try discriminate.
    + intros [= <-] _. cbn. repeat split; try lia. left. auto.
    + intros [= <-] _. cbn. repeat split; lia.
    + intros R' V'.
      destruct (IH (after_mismatch retry st) _ st' eq_refl R' V')
        as (C1 & C2 & C3 & C4).
      rewrite !count_app.
      change (count is_passed_verify [?a; ?b; EvVerifyTrack ?x false])
        with O.
      change (count is_write [EvWriteTrack ?a ?b ?c; ?d; ?e]) with 1%nat.
      change (count is_verify [?a; ?b; EvVerifyTrack ?x false]) with 1%nat.
      change (count is_failed_verify [?a; ?b; EvVerifyTrack ?x false])
        with 1%nat.
      cbn [verified_count not_verified_count after_mismatch] in C1, C2.
      cbn [List.length]. repeat split; try lia.
      destruct C4 as [(U & _)|C4]; [|right; exact C4].
      destruct U as [U|[U|U]]; congruence.
Qed.

Lemma tallied_process_track dt cyl side c h :
  tallied c (process_track usb image args dt cyl side c h).
Proof.
  rewrite process_track_unfold. cbv zeta.
  assert (Same : forall c' : counts, c = c' ->
             fst c' = fst c + Z.of_nat O
             /\ snd c' = snd c + Z.of_nat O - Z.of_nat O
             /\ (O <= 2 * O)%nat).
  { intros c' <-. repeat split; lia. }
  destruct (image cyl side) as [t|].
  - assert (P : forall text,
      let o := write_and_verify usb args dt cyl side t c
                 (h ++ [EvGetTrack cyl side;
                        EvSeek (target_cyl args cyl) side (Done tt)]) in
      tallied c (Build_outcome (res o)
                   (EvGetTrack cyl side
                    :: EvSeek (target_cyl args cyl) side (Done tt) :: evs o)
                   text)).
    { intros text. cbv zeta. rewrite write_and_verify_unfold.
      destruct (writeout_list dt (flux_for_writeout t)) as [e|l];
        [intros c'; discriminate|].
      cbv zeta.
      destruct (res (retry_loop usb args t (flux_for_writeout t) l [0; 1; 2]
                       (initial_state c) _)) as [e|st] eqn:R;
        [intros c'; discriminate|].
      intros c'. cbn [res evs]. destruct (verified st) eqn:V; [|discriminate].
      intros [= <-].
      destruct (retry_loop_tally t (flux_for_writeout t) l [0; 1; 2]
                  (initial_state c) _ st eq_refl R V) as (C1 & C2 & C3 & C4).
      cbv zeta in C1, C2, C3, C4. unfold count in *.
      cbn [filter is_passed_verify is_write is_verify is_failed_verify
           fst snd initial_state verified_count not_verified_count
           List.length] in *.
      destruct C4 as [(_ & F & _)|C4]; repeat split; lia. }
    destruct (erase_empty args);
      destruct (usb_seek usb _ (target_cyl args cyl) side) as [[]|code];
      try apply P; intros c'; discriminate.
  - destruct (erase_empty args).
    + destruct (usb_seek usb _ (target_cyl args cyl) side) as [[]|code];
        [|intros c'; discriminate].
      destruct (usb_erase_track usb _ (erase_ticks dt)) as [[]|code];
        [|intros c'; discriminate].
      intros c' [= <-]. now apply Same.
    + intros c' [= <-]. now apply Same.
Qed.

Lemma tallied_for_each {A} (xs : list A)
  (body : A -> counts -> M Flux counts) :
  (forall x c h, tallied c (body x c h)) ->
  forall c h, tallied c (for_each xs body c h).
Proof.
  intros Pb. induction xs as [|x xs IH]; intros c h c'.
  - cbn. intros [= <-]. repeat split; lia.
  - cbn [for_each]. unfold bind.
    destruct (res (body x c h)) as [e|c1] eqn:R; cbn [res evs];
      [discriminate|].
    intros R'. destruct (Pb x c h c1 R) as (A1 & A2 & A3).
    destruct (IH c1 _ c' R') as (B1 & B2 & B3).
    rewrite !count_app. repeat split; lia.
Qed.

(** X13.  When the job returns, its counts agree with what it did: the
    first is the number of verifications that passed, the second the number
    of writes that no verification followed, and the verifications that
    failed are at most two for each one that passed. *)
Theorem counts_agree_with_trace h c :
  res (write_from_image usb image args h) = ok c ->
  let tr := evs (write_from_image usb image args h) in
  fst c = Z.of_nat (count is_passed_verify tr)
  /\ snd c = Z.of_nat (count is_write tr) - Z.of_nat (count is_verify tr)
  /\ (count is_failed_verify tr <= 2 * count is_passed_verify tr)%nat.
Proof.
  cbv zeta. rewrite write_from_image_unfold.
  destruct (usb_read_track usb h 2) as [flux|code]; [|discriminate].
  destruct (drive_ticks_of flux) as [e|dt]; [discriminate|].
  cbv zeta. cbn [res evs]. intros R.
  assert (T : tallied (0, 0)
                (write_tracks usb image args dt (0, 0)
                   (h ++ [EvReadTrack 2 (Done flux)]))).
  { unfold write_tracks. apply tallied_for_each. intros cyl c1 h1.
    apply tallied_for_each. intros side c2 h2. apply tallied_process_track. }
  destruct (T c R) as (A1 & A2 & A3). unfold count in *.
  cbn [filter is_passed_verify is_write is_verify is_failed_verify fst snd]
    in *.
  repeat split; lia.
Qed.

End JobProperties.

(** *** The progress line *)

Section Console.

Context {Flux : Type} `{FluxLike Flux}.
Variable usb : Usb Flux.
Variable image : Image Flux.
Variable args : Args.

Lemma attempt_out track flux l retry st h :
  out (attempt usb args track flux l retry st h)
  = match count is_failed_verify
            (evs (attempt usb args track flux l retry st h)) with
    | O => EmptyString
    | S _ => (erase_text (formatter st) ++ retry_text retry)%string
    end.
Proof.
  unfold attempt, write_track. rewrite bind_call.
  destruct (usb_write_track usb h l (terminate_at_index flux)) as [[]|code];
    [|reflexivity].
  rewrite bind_lift, compute_no_verify_value. simpl.
  destruct (no_verify args); simpl; [reflexivity|].
  destruct (verify track) as [| |vt] eqn:V; simpl; try reflexivity.
  unfold read_track. rewrite bind_call.
  destruct (usb_read_track usb _ _) as [v|code]; simpl; [|reflexivity].
  rewrite bind_lift.
  destruct (PyFloat.truediv (mean_index_time flux) (mean_index_time v))
    as [e|f]; [reflexivity|].
  rewrite bind_lift. unfold get_verify. rewrite V. simpl.
  unfold bind at 1, verify_track. simpl.
  destruct (vt (scale v f)); simpl; [reflexivity|].
  unfold count. cbn [filter is_failed_verify List.length].
  unfold Formatter_print, Formatter_erase, bind, print, ret, erase_text,
    retry_text.
  cbn [res evs out]. now rewrite !append_nil_r.
Qed.

Lemma retry_loop_out track flux l retries : forall st h st',
  res (retry_loop usb args track flux l retries st h) = ok st' ->
  (out (retry_loop usb args track flux l retries st h)
   ++ erase_text (formatter st'))%string
  = (erase_text (formatter st)
     ++ join (map (fun r => wiped (retry_text r))
                (firstn (count is_failed_verify
                           (evs (retry_loop usb args track flux l retries st
                                   h)))
                   retries)))%string.
Proof.
  induction retries as [|retry rest IH]; intros st h st'.
  - cbn. intros [= <-]. now rewrite append_nil_r.
  - rewrite retry_loop_cons. cbv zeta.
    pose proof (attempt_out track flux l retry st h) as AO.
    destruct (attempt_cases usb args track flux l retry st h)
      as [code o W R E O | o W NV R E O | vt code o NV V RD R E O
         | vt v o NV V Z R E O | vt v f o NV V RD T VT R E O
         | vt v f o NV V RD T VT R E];
      rewrite R;
      cbn [broke after_no_verify after_match after_mismatch res evs out];
      rewrite ?E in *; try discriminate.
    + intros [= <-]. rewrite O. cbn. now rewrite append_nil_r.
    + intros [= <-]. rewrite O. cbn. now rewrite append_nil_r.
    + intros R'. rewrite AO.
      change (count is_failed_verify
                [EvWriteTrack l (terminate_at_index flux) (Done tt);
                 EvReadTrack (v_revs_of track) (Done v);
                 EvVerifyTrack (scale v f) false]) with 1%nat.
      cbv iota. rewrite count_app.
      change (count is_failed_verify
                [EvWriteTrack l (terminate_at_index flux) (Done tt);
                 EvReadTrack (v_revs_of track) (Done v);
                 EvVerifyTrack (scale v f) false]) with 1%nat.
      cbn [Nat.add firstn map join].
      specialize (IH _ _ _ R'). cbn [formatter after_mismatch] in IH.
      rewrite !append_assoc. rewrite IH. unfold wiped.
      now rewrite !append_assoc.
Qed.

(** X14.  The progress line of a track: when the processing of a track the
    image holds ends with the track counted or with the fatal write failure,
    the console has received the progress message and then, for each failed
    verification in turn, the notice [ Retry n] followed by as many
    backspaces, spaces and backspaces as the notice is long; no retry notice
    is left on the line. *)
Theorem retry_notices_wiped dt cyl side c h t :
  image cyl side = Some t ->
  (exists c', res (process_track usb image args dt cyl side c h) = ok c')
  \/ res (process_track usb image args dt cyl side c h)
     = inl (Fatal (failure_message cyl side)) ->
  out (process_track usb image args dt cyl side c h)
  = (progress_message (Some t) cyl side
     ++ join (map wiped
                (firstn (count is_failed_verify
                           (evs (process_track usb image args dt cyl side c
                                   h)))
                   [" Retry 1"; " Retry 2"; " Retry 3"])))%string.
Proof.
  intros IM. rewrite (process_track_present _ _ _ _ _ _ _ _ _ IM).
  destruct (usb_seek usb _ (target_cyl args cyl) side) as [[]|code].
  2:{ cbn [res]. intros [(c' & R)|R]; discriminate. }
  cbv zeta. cbn [res evs out].
  change (count is_failed_verify (EvGetTrack cyl side :: ?a :: ?tl))
    with (count is_failed_verify tl).
  rewrite write_and_verify_unfold.
  destruct (writeout_list dt (flux_for_writeout t)) as [e|l] eqn:WL.
  { cbn [res]. intros [(c' & R)|R]; [discriminate|].
    injection R as ->. apply writeout_list_raises in WL.
    destruct WL as [WL|[WL|[WL|WL]]]; discriminate. }
  cbv zeta.
  destruct (res (retry_loop usb args t (flux_for_writeout t) l [0; 1; 2]
                   (initial_state c) _)) as [e|st] eqn:R.
  { cbn [res]. intros [(c' & R')|R']; [discriminate|].
    injection R' as ->. apply retry_loop_raises in R.
    destruct R as [(code & R)|R]; discriminate. }
  intros _. cbn [evs out]. f_equal.
  rewrite (retry_loop_out _ _ _ _ _ _ _ R).
  change [" Retry 1"; " Retry 2"; " Retry 3"]%string
    with (map retry_text [0; 1; 2]).
  rewrite firstn_map, map_map. reflexivity.
Qed.

Lemma existsb_filter {A} (p : A -> bool) (l : list A) :
  existsb p l = negb (Z.of_nat (List.length (filter p l)) =? 0).
Proof.
  induction l as [|x l IH]; [reflexivity|].
  cbn [existsb filter]. destruct (p x); [|exact IH].
  cbn [orb List.length]. symmetry. apply negb_true_iff, Z.eqb_neq. lia.
Qed.

(** X15.  The last line of a job run with verification switched off: when
    the job returns, the console text ends with a line break, the summary and
    a line break, and the summary is [No tracks verified (Reason: Verify
    disabled)] when the image holds a track at some visited position, and
    [All tracks verified] when it holds none. *)
Theorem summary_without_verification h c :
  no_verify args = true ->
  res (write_from_image usb image args h) = ok c ->
  exists text,
    out (write_from_image usb image args h)
    = (text ++ LF
       ++ (if existsb (fun p => match image (fst p) (snd p) with
                                | Some _ => true
                                | None => false
                                end) (positions args)
           then "No tracks verified (Reason: Verify disabled)"
           else "All tracks verified")
       ++ LF)%string.
Proof.
  intros NV. rewrite write_from_image_unfold.
  destruct (usb_read_track usb h 2) as [flux|code]; [|discriminate].
  destruct (drive_ticks_of flux) as [e|dt]; [discriminate|].
  cbv zeta. cbn [res out]. intros R. rewrite R.
  eexists. f_equal. f_equal.
  rewrite write_tracks_flat in R. apply for_each_counts in R.
  rewrite existsb_filter.
  rewrite (filter_ext (fun p => match image (fst p) (snd p) with
                                | Some _ => true
                                | None => false
                                end) (unverifiable_at args image)).
  2:{ intros p. unfold unverifiable_at. rewrite NV.
      now destruct (image _ _). }
  assert (V : filter (verifiable_at args image) (positions args) = []).
  { clear R. induction (positions args) as [|p ps IH]; [reflexivity|].
    cbn [filter]. unfold verifiable_at at 1. rewrite NV.
    destruct (image _ _); cbn; exact IH. }
  rewrite V in R. rewrite R. unfold summary. cbn [fst snd List.length].
  rewrite NV.
  destruct (Z.of_nat (List.length (filter (unverifiable_at args image)
                                     (positions args))) =? 0) eqn:Z0;
    cbn [negb Z.add]; rewrite ?Z0; reflexivity.
Qed.

End Console.

(** ** The theorems at work on a concrete job *)

Module Witness.

Import Example.

Lemma rescale_factor_from_first_index_witness :
  exists t i fi factor,
    one_track VerifyNone 0 0 = Some t
    /\ nth_error (index_list (flux_for_writeout t)) 0 = Some i
    /\ PyFloat.of_int i = ok fi
    /\ PyFloat.truediv ticks fi = ok factor
    /\ rate_convert factor (list' (flux_for_writeout t)) = ok [33; 67; 100]
    /\ true = terminate_at_index (flux_for_writeout t).
Proof.
  apply (rescale_factor_from_first_index steady_drive (one_track VerifyNone)
           (args_of false false) ticks 0 0 (0, 0) [] [33; 67; 100] true
           (Done tt)).
  vm_compute. auto.
Defined.

Lemma verify_revolutions_from_splice_witness :
  exists t,
    one_track (Verifier accept_scaled) 0 0 = Some t
    /\ 1 = if splice t =? 0 then 1 else 2.
Proof.
  apply (verify_revolutions_from_splice steady_drive
           (one_track (Verifier accept_scaled)) (args_of false false) ticks
           0 0 (0, 0) [] 1 (Done readback)).
  vm_compute. auto 6.
Defined.

Lemma absent_track_skipped_or_erased_witness :
  (erase_empty (args_of true false) = false ->
   process_track steady_drive (one_track VerifyNone) (args_of true false)
     ticks 0 1 (0, 0) []
   = Build_outcome (ok (0, 0)) [EvGetTrack 0 1] EmptyString)
  /\ (erase_empty (args_of true false) = true ->
      exists r1,
        r1 = usb_seek steady_drive ([] ++ [EvGetTrack 0 1])
               (if double_step (args_of true false) then 0 * 2 else 0) 1
        /\ match r1 with
           | Failed code =>
               evs (process_track steady_drive (one_track VerifyNone)
                      (args_of true false) ticks 0 1 (0, 0) [])
               = [EvGetTrack 0 1;
                  EvSeek (if double_step (args_of true false) then 0 * 2
                          else 0) 1 r1]
               /\ res (process_track steady_drive (one_track VerifyNone)
                         (args_of true false) ticks 0 1 (0, 0) [])
                  = inl (CmdError code)
           | Done _ =>
               exists r2,
                 evs (process_track steady_drive (one_track VerifyNone)
                        (args_of true false) ticks 0 1 (0, 0) [])
                 = [EvGetTrack 0 1;
                    EvSeek (if double_step (args_of true false) then 0 * 2
                            else 0) 1 r1;
                    EvEraseTrack
                      (PyFloat.mul ticks (PyFloat.literal 11 10)) r2]
                 /\ res (process_track steady_drive (one_track VerifyNone)
                           (args_of true false) ticks 0 1 (0, 0) [])
                    = (_ <-? reply_result r2 ; ok (0, 0))
           end).
Proof.
  apply (absent_track_skipped_or_erased steady_drive (one_track VerifyNone)
           (args_of true false) ticks 0 1 (0, 0) []).
  reflexivity.
Defined.

Lemma readback_rescaled_before_verify_witness :
  evs (process_track steady_drive (one_track (Verifier accept_scaled))
         (args_of false false) ticks 0 0 (0, 0) [])
  = [EvGetTrack 0 0; EvSeek 0 0 (Done tt);
     EvWriteTrack [33; 67; 100] true (Done tt);
     EvReadTrack 1 (Done readback)]
    ++ [EvVerifyTrack (scale readback (PyFloat.literal 3 10)) true]
  /\ res (process_track steady_drive (one_track (Verifier accept_scaled))
            (args_of false false) ticks 0 0 (0, 0) [])
     = ok (1, 0).
Proof.
  assert (E : evs (process_track steady_drive
                     (one_track (Verifier accept_scaled))
                     (args_of false false) ticks 0 0 (0, 0) [])
              = [EvGetTrack 0 0; EvSeek 0 0 (Done tt);
                 EvWriteTrack [33; 67; 100] true (Done tt);
                 EvReadTrack 1 (Done readback)]
                ++ EvVerifyTrack (scale readback (PyFloat.literal 3 10)) true
                   :: [])
    by (vm_compute; reflexivity).
  split; [exact E|].
  destruct (readback_rescaled_before_verify steady_drive
              (one_track (Verifier accept_scaled)) (args_of false false)
              ticks 0 0 (0, 0) [] _ _ _ _ E)
    as (t & vt & pre' & revs & v & f & _ & _ & _ & _ & _ & _ & Ht & _).
  exact (proj2 (Ht eq_refl)).
Defined.

Lemma unverified_track_counted_not_verified_witness :
  res (process_track steady_drive (one_track VerifyNone)
         (args_of false false) ticks 0 0 (0, 0) [])
  = ok (0, 1)
  /\ evs (process_track steady_drive (one_track VerifyNone)
            (args_of false false) ticks 0 0 (0, 0) [])
     = [EvGetTrack 0 0; EvSeek 0 0 (Done tt);
        EvWriteTrack [33; 67; 100] true (Done tt)].
Proof.
  destruct (unverified_track_counted_not_verified steady_drive
              (one_track VerifyNone) (args_of false false) ticks 0 0 (0, 0)
              [] (track_of VerifyNone) eq_refl (or_intror eq_refl))
    as (_ & _ & C).
  apply (C [33; 67; 100]); vm_compute; reflexivity.
Defined.

Lemma undefined_verify_attribute_swallowed_witness :
  process_track steady_drive (one_track VerifyUndefined)
    (args_of false false) ticks 0 0 (0, 0) []
  = process_track steady_drive (one_track VerifyNone) (args_of false false)
      ticks 0 0 (0, 0) []
  /\ res (process_track steady_drive (one_track VerifyUndefined)
            (args_of false false) ticks 0 0 (0, 0) [])
     = ok (0, 1).
Proof.
  destruct (undefined_verify_attribute_swallowed steady_drive
              (one_track VerifyUndefined) (one_track VerifyNone)
              (args_of false false) ticks 0 0 (0, 0) []
              (track_of VerifyUndefined) eq_refl eq_refl eq_refl)
    as (A & _ & _ & _ & B).
  split; [exact A|].
  apply (B [33; 67; 100]). vm_compute. auto.
Defined.

Lemma drift_below_one_within_double_precision_witness :
  exists out,
    rate_convert (PyFloat.literal 115 100) [1; 1; 1; 1; 1; 1; 1; 1; 1; 1]
    = ok out
    /\ List.length out = 10%nat
    /\ drift_below_one (PyFloat.literal 115 100)
         [1; 1; 1; 1; 1; 1; 1; 1; 1; 1] out.
Proof.
  apply (drift_below_one_within_double_precision (PyFloat.literal 115 100)
           [1; 1; 1; 1; 1; 1; 1; 1; 1; 1]).
  - reflexivity.
  - repeat constructor.
  - vm_compute. discriminate.
Defined.

End Witness.

(** ** The further properties at work *)

Module Runs.

Import Example.

Lemma rate_convert_length_witness :
  List.length [3; 6; 9] = List.length [10; 20; 30].
Proof.
  apply (rate_convert_length (PyFloat.literal 3 10) [10; 20; 30] [3; 6; 9]).
  vm_compute. reflexivity.
Defined.

Lemma rate_convert_prefix_witness :
  exists out1 out2,
    rate_convert (PyFloat.literal 3 10) [10; 20; 30] = ok out1
    /\ [3; 6; 9; 12] = out1 ++ out2
    /\ List.length out1 = List.length [10; 20; 30]
    /\ List.length out2 = List.length [40].
Proof.
  apply (rate_convert_prefix (PyFloat.literal 3 10) [10; 20; 30] [40]
           [3; 6; 9; 12]).
  vm_compute. reflexivity.
Defined.

Lemma rate_convert_only_overflow_or_value_error_witness :
  OverflowError = OverflowError \/ OverflowError = ValueError.
Proof.
  apply (rate_convert_only_overflow_or_value_error (PyFloat.literal 3 10)
           [2 ^ 1024] OverflowError).
  vm_compute. reflexivity.
Defined.

Lemma rate_convert_unit_factor_witness :
  rate_convert (PyFloat.literal 1 1) [100; -200; 300] = ok [100; -200; 300].
Proof.
  apply (rate_convert_unit_factor [100; -200; 300]).
  - repeat constructor.
  - vm_compute. discriminate.
Defined.

Lemma rate_convert_each_interval_within_two_witness :
  exists out,
    rate_convert (PyFloat.literal 115 100) [1; 1; 1; 1; 1; 1; 1; 1; 1; 1]
    = ok out
    /\ forall k x,
         nth_error [1; 1; 1; 1; 1; 1; 1; 1; 1; 1] k = Some x ->
         exists o, nth_error out k = Some o
           /\ (Qabs (inject_Z o
                     - PyFloat.to_Q (PyFloat.literal 115 100) * inject_Z x)
               < 2)%Q.
Proof.
  apply (rate_convert_each_interval_within_two (PyFloat.literal 115 100)
           [1; 1; 1; 1; 1; 1; 1; 1; 1; 1]).
  - reflexivity.
  - repeat constructor.
  - vm_compute. discriminate.
Defined.

Lemma refused_command_ends_job_witness :
  @nil (event SimpleFlux) = []
  /\ res (write_from_image protected_drive (one_track VerifyNone)
            (args_of false false) [])
     = inl (CmdError 7).
Proof.
  apply (refused_command_ends_job protected_drive (one_track VerifyNone)
           (args_of false false) []
           [EvReadTrack 2 (Done readback); EvGetTrack 0 0;
            EvSeek 0 0 (Done tt)]
           (EvWriteTrack [33; 67; 100] true (Failed 7)) [] 7).
  - vm_compute. reflexivity.
  - reflexivity.
Defined.

Lemma job_raises_only_expected_witness :
  exists pre ev,
    evs (write_from_image protected_drive (one_track VerifyNone)
           (args_of false false) [])
    = pre ++ [ev]
    /\ failed_code ev = Some 7.
Proof.
  apply (job_raises_only_expected protected_drive (one_track VerifyNone)
           (args_of false false) [] (CmdError 7)).
  vm_compute. reflexivity.
Defined.

Lemma counts_on_return_witness :
  fst (1, 0)
  = Z.of_nat (List.length
                (filter (verifiable_at (args_of false false)
                           (one_track (Verifier accept_scaled)))
                   (positions (args_of false false))))
  /\ snd (1, 0)
     = Z.of_nat (List.length
                   (filter (unverifiable_at (args_of false false)
                              (one_track (Verifier accept_scaled)))
                      (positions (args_of false false))))
  /\ (forall p,
        verifiable_at (args_of false false)
          (one_track (Verifier accept_scaled)) p
        && unverifiable_at (args_of false false)
             (one_track (Verifier accept_scaled)) p
        = false).
Proof.
  apply (counts_on_return steady_drive (one_track (Verifier accept_scaled))
           (args_of false false) [] (1, 0)).
  vm_compute. reflexivity.
Defined.

Lemma job_without_verification_witness :
  count is_read
    (evs (write_from_image steady_drive (one_track (Verifier accept_scaled))
               (args_of true true) []))
  = 1%nat
  /\ count is_verify
       (evs (write_from_image steady_drive (one_track (Verifier accept_scaled))
               (args_of true true) []))
     = O
  /\ (forall c,
        res (write_from_image steady_drive (one_track (Verifier accept_scaled))
               (args_of true true) [])
        = ok c ->
        fst c = 0
        /\ snd c
           = Z.of_nat
               (count is_write
                  (evs (write_from_image steady_drive (one_track (Verifier accept_scaled))
               (args_of true true) [])))
        /\ snd c
           = Z.of_nat (List.length
                         (filter (fun p =>
                                    match one_track (Verifier accept_scaled)
                                            (fst p) (snd p) with
                                    | Some _ => true
                                    | None => false
                                    end) (positions (args_of true true))))).
Proof.
  apply (job_without_verification steady_drive
           (one_track (Verifier accept_scaled)) (args_of true true) []).
  reflexivity.
Defined.

Lemma track_without_usable_index_witness :
  count is_write
    (evs (process_track steady_drive unindexed (args_of false false) ticks
               0 0 (0, 0) []))
  = O
  /\ count is_read
       (evs (process_track steady_drive unindexed (args_of false false) ticks
               0 0 (0, 0) []))
     = O
  /\ (usb_seek steady_drive ([] ++ [EvGetTrack 0 0])
        (if double_step (args_of false false) then 0 * 2 else 0) 0 = Done tt ->
      res (process_track steady_drive unindexed (args_of false false) ticks
               0 0 (0, 0) [])
      = inl ZeroDivisionError).
Proof.
  apply (track_without_usable_index steady_drive unindexed
           (args_of false false) ticks 0 0 (0, 0) []
           {| flux_for_writeout := capture [0] [10; 20; 30] 60000;
              verify := VerifyNone;
              splice := 0 |} (Some 0)).
  - reflexivity.
  - reflexivity.
  - right. reflexivity.
Defined.

Lemma counts_agree_with_trace_witness :
  fst (1, 0)
  = Z.of_nat (count is_passed_verify
                (evs (write_from_image steady_drive
                     (one_track (Verifier accept_scaled))
                     (args_of false false) [])))
  /\ snd (1, 0)
     = Z.of_nat (count is_write
                   (evs (write_from_image steady_drive
                     (one_track (Verifier accept_scaled))
                     (args_of false false) [])))
       - Z.of_nat (count is_verify
                     (evs (write_from_image steady_drive
                     (one_track (Verifier accept_scaled))
                     (args_of false false) [])))
  /\ (count is_failed_verify
        (evs (write_from_image steady_drive
                     (one_track (Verifier accept_scaled))
                     (args_of false false) []))
      <= 2 * count is_passed_verify
               (evs (write_from_image steady_drive
                     (one_track (Verifier accept_scaled))
                     (args_of false false) [])))%nat.
Proof.
  apply (counts_agree_with_trace steady_drive
           (one_track (Verifier accept_scaled)) (args_of false false) []
           (1, 0)).
  vm_compute. reflexivity.
Defined.

Lemma retry_notices_wiped_witness :
  out (process_track steady_drive (one_track (Verifier reject_all))
         (args_of false false) ticks 0 0 (0, 0) [])
  = (progress_message (Some (track_of (Verifier reject_all))) 0 0
     ++ join (map wiped
                (firstn (count is_failed_verify
                           (evs (process_track steady_drive
                                   (one_track (Verifier reject_all))
                                   (args_of false false) ticks 0 0 (0, 0)
                                   [])))
                   [" Retry 1"; " Retry 2"; " Retry 3"])))%string.
Proof.
  apply (retry_notices_wiped steady_drive (one_track (Verifier reject_all))
           (args_of false false) ticks 0 0 (0, 0) []
           (track_of (Verifier reject_all))).
  - reflexivity.
  - right. vm_compute. reflexivity.
Defined.

Lemma summary_without_verification_witness :
  exists text,
    out (write_from_image steady_drive (one_track (Verifier accept_scaled))
           (args_of true true) [])
    = (text ++ LF
       ++ (if existsb (fun p => match one_track (Verifier accept_scaled)
                                        (fst p) (snd p) with
                                | Some _ => true
                                | None => false
                                end) (positions (args_of true true))
           then "No tracks verified (Reason: Verify disabled)"
           else "All tracks verified")
       ++ LF)%string.
Proof.
  apply (summary_without_verification steady_drive
           (one_track (Verifier accept_scaled)) (args_of true true) []
           (0, 1)).
  - reflexivity.
  - vm_compute. reflexivity.
Defined.

End Runs.
